(** * propcheck: a brute-force checker for propositional entailment

    A shallow embedding of [propcheck.cc]: the expression classes and their
    [operator()] (the evaluator), the recursive-descent parser with its
    global variable registry, and the enumeration loop of [main].

    Conventions of the embedding.
    - [U32] and [BOOL] are both [unsigned long] in the source; machine words
      are modelled as [Z], and the places where the width matters (the loop
      counter [x], the bound [max]) wrap explicitly modulo [2 ^ wbits].
    - A [const char*] is the list of characters from the pointer onwards.
      Reading past the end of the list, or reading a NUL character of the
      list, both read the terminator.
    - Numbers of characters ([e - s]) are [nat]: a line comes from a buffer
      of [8192*2] bytes, so no count can wrap.
    - An out-parameter [shared_ptr<Expr>& p] is returned as an
      [option Expr]: [Some e] when the callee assigned [e] to [p], [None]
      when it left [p] alone.
    - [exit(1)] inside the parser is the result [Exit], threaded through
      every caller. *)

From Stdlib Require Import ZArith Zbitwise Bool Ascii String List Lia Arith.
From Stdlib Require Import Permutation.
Import ListNotations.

Local Open Scope Z_scope.

(** ** Expressions and their evaluation *)

Definition U32 := Z.
Definition BOOL := Z.

(** The class hierarchy below [struct Expr]; [True] and [False] are spelled
    [TrueE] and [FalseE]. *)
Inductive Expr : Type :=
| TrueE
| FalseE
| Var (shift : BOOL)
| Not (E : Expr)
| And (L R : Expr)
| Or (L R : Expr)
| Xor (L R : Expr)
| Implies (L R : Expr)
| Iff (L R : Expr).

(** [Expr::operator()], one case per override. *)
Fixpoint eval (e : Expr) (x : U32) : BOOL :=
  match e with
  | TrueE => 1
  | FalseE => 0
  | Var shift => Z.land (Z.shiftr x shift) 1
  | Not E => Z.lxor 1 (eval E x)
  | And L R => Z.land (eval L x) (eval R x)
  | Or L R => Z.lor (eval L x) (eval R x)
  | Xor L R => Z.lxor (eval L x) (eval R x)
  | Implies L R => Z.lxor 1 (Z.land (eval L x) (Z.lxor 1 (eval R x)))
  | Iff L R => if eval L x =? eval R x then 1 else 0
  end.

(** A tree is well formed when every variable index is a bit position of
    the 32-variable assignment. *)
Fixpoint wf (e : Expr) : Prop :=
  match e with
  | TrueE | FalseE => True
  | Var shift => 0 <= shift < 32
  | Not E => wf E
  | And L R | Or L R | Xor L R | Implies L R | Iff L R => wf L /\ wf R
  end.

(** *** The evaluator of the specification *)

Module Spec.

Inductive kind := KAnd | KOr | KXor | KImplies | KIff.

Inductive expr : Type :=
| Constant (v : bool)
| VariableAt (index : nat)
| Negation (operand : expr)
| Binary (k : kind) (left right : expr).

(** An assignment word read as a valuation of the variables. *)
Definition bit (assignment : Z) (i : nat) : bool :=
  Z.testbit assignment (Z.of_nat i).

Fixpoint eval (e : expr) (a : Z) : bool :=
  match e with
  | Constant v => v
  | VariableAt i => bit a i
  | Negation e => negb (eval e a)
  | Binary KAnd l r => eval l a && eval r a
  | Binary KOr l r => eval l a || eval r a
  | Binary KXor l r => xorb (eval l a) (eval r a)
  | Binary KImplies l r => negb (eval l a && negb (eval r a))
  | Binary KIff l r => Bool.eqb (eval l a) (eval r a)
  end.

Fixpoint well_formed (e : expr) : Prop :=
  match e with
  | Constant _ => True
  | VariableAt i => (i < 32)%nat
  | Negation e => well_formed e
  | Binary _ l r => well_formed l /\ well_formed r
  end.

End Spec.

(** The tree of the specification that a tree of the program stands for,
    and back. *)
Fixpoint abstract (e : Expr) : Spec.expr :=
  match e with
  | TrueE => Spec.Constant true
  | FalseE => Spec.Constant false
  | Var shift => Spec.VariableAt (Z.to_nat shift)
  | Not E => Spec.Negation (abstract E)
  | And L R => Spec.Binary Spec.KAnd (abstract L) (abstract R)
  | Or L R => Spec.Binary Spec.KOr (abstract L) (abstract R)
  | Xor L R => Spec.Binary Spec.KXor (abstract L) (abstract R)
  | Implies L R => Spec.Binary Spec.KImplies (abstract L) (abstract R)
  | Iff L R => Spec.Binary Spec.KIff (abstract L) (abstract R)
  end.

Fixpoint concrete (t : Spec.expr) : Expr :=
  match t with
  | Spec.Constant true => TrueE
  | Spec.Constant false => FalseE
  | Spec.VariableAt i => Var (Z.of_nat i)
  | Spec.Negation t => Not (concrete t)
  | Spec.Binary Spec.KAnd l r => And (concrete l) (concrete r)
  | Spec.Binary Spec.KOr l r => Or (concrete l) (concrete r)
  | Spec.Binary Spec.KXor l r => Xor (concrete l) (concrete r)
  | Spec.Binary Spec.KImplies l r => Implies (concrete l) (concrete r)
  | Spec.Binary Spec.KIff l r => Iff (concrete l) (concrete r)
  end.

(** ** C strings *)

Definition cstring := list ascii.

Definition NUL : ascii := Ascii.zero.

(** [*e] *)
Definition deref (e : cstring) : ascii := hd NUL e.

(** The characters of a buffer up to its terminator: what [std::string]
    copies out of a [const char*]. *)
Fixpoint c_str (s : cstring) : list ascii :=
  match s with
  | [] => []
  | c :: s' => if Ascii.eqb c NUL then [] else c :: c_str s'
  end.

(** A string literal as a buffer. *)
Definition lit (s : string) : cstring := list_ascii_of_string s.

(** [isspace] in the C locale: space, and [\t \n \v \f \r]. *)
Definition isspace (c : ascii) : bool :=
  let n := nat_of_ascii c in
  ((n =? 32) || ((9 <=? n) && (n <=? 13)))%nat.

(** ** Expression parsing *)

Fixpoint skipWS (s : cstring) : nat :=
  match s with
  | c :: s' => if isspace c then S (skipWS s') else O
  | [] => O
  end.

(** The loop of [parseString]; [n] is [e - s] so far.  [str] is a literal,
    so [*str != '\0'] is [str] not being exhausted. *)
Fixpoint parseString_loop (e : cstring) (str : list ascii) (n : nat)
  {struct str} : nat :=
  match str with
  | [] => n
  | c :: str' =>
      match e with
      | d :: e' =>
          if negb (Ascii.eqb d NUL) && Ascii.eqb d c
          then parseString_loop e' str' (S n)
          else O
      | [] => O
      end
  end.

Definition parseString (s : cstring) (str : string) : nat :=
  parseString_loop s (lit str) O.

Definition parseOneString (s : cstring) (str1 str2 : string) : nat :=
  let n := parseString s str1 in
  if negb (n =? 0)%nat then n else parseString s str2.

(** What a parse function hands back: [None] when it returns [0] and
    leaves [p] alone, [Some (n, e)] when it assigns [e] to [p] and returns
    [n]. *)
Definition parsed := option (nat * Expr).

(** The test [if (n = f(e, p))] of a caller. *)
Definition nonzero (r : parsed) : parsed :=
  match r with
  | Some (n, p) => if (n =? 0)%nat then None else Some (n, p)
  | None => None
  end.

Definition parseTrue (s : cstring) : parsed :=
  if Ascii.eqb (deref s) "T" then Some (1%nat, TrueE)
  else
    let n := parseString s "true" in
    if negb (n =? 0)%nat then Some (n, TrueE) else None.

Definition parseFalse (s : cstring) : parsed :=
  if Ascii.eqb (deref s) "F" then Some (1%nat, FalseE)
  else
    let n := parseString s "false" in
    if negb (n =? 0)%nat then Some (n, FalseE) else None.

(** *** The variable registry: the global [vector<string> variables] *)

Definition registry := list string.

(** Results of the code that reads or extends the registry. [Exit code] is
    a call of [exit(code)]; [OutOfFuel] belongs to the embedding only. *)
Inductive result (A : Type) : Type :=
| Ok (a : A) (variables : registry)
| Exit (code : Z)
| OutOfFuel.

Arguments Ok {A} a variables.
Arguments Exit {A} code.
Arguments OutOfFuel {A}.

(** The search loop [for(i=0; i<variables.size(); i++)] that breaks at the
    first equal name; [i] is the index reached. *)
Fixpoint find_var (var : string) (variables : registry) (i : nat) : nat :=
  match variables with
  | [] => i
  | v :: rest => if String.eqb v var then i else find_var var rest (S i)
  end.

(** The block of [parseVar] that looks a name up, registers it when it is
    new, and enforces the cap of 32 names. *)
Definition resolve (var : string) (variables : registry) : result nat :=
  let i := find_var var variables O in
  let variables' :=
    if (length variables <=? i)%nat then variables ++ [var] else variables in
  if (32 <? length variables')%nat then Exit 1 else Ok i variables'.

(** The first loop of [parseVar]: the distance to the closing bracket,
    unless the terminator comes first. *)
Fixpoint scan_bracket (e : cstring) : option nat :=
  match e with
  | [] => None
  | c :: e' =>
      if Ascii.eqb c "]" then Some O
      else if Ascii.eqb c NUL then None
      else option_map S (scan_bracket e')
  end.

(** The second loop of [parseVar], [while( isspace( *e ) && e > startstr ) e--],
    with [k = e - startstr]. *)
Fixpoint back_over_ws (startstr : cstring) (k : nat) : nat :=
  match k with
  | O => O
  | S k' => if isspace (nth k startstr NUL) then back_over_ws startstr k' else k
  end.

Definition parseVar (s : cstring) (variables : registry) : result parsed :=
  if negb (Ascii.eqb (deref s) "[") then Ok None variables
  else
    let e := tl s in
    let ws := skipWS e in
    let startstr := skipn ws e in
    match scan_bracket startstr with
    | None => Ok None variables
    | Some len =>
        (* [e--], the loop, [e++]: when the name is empty, [e] steps to
           [startstr - 1] and straight back *)
        let var_len :=
          match len with
          | O => O
          | S m => S (back_over_ws startstr m)
          end in
        let var := string_of_list_ascii (firstn var_len startstr) in
        match resolve var variables with
        | Ok i variables' =>
            Ok (Some ((1 + ws + len + 1)%nat, Var (Z.of_nat i))) variables'
        | Exit code => Exit code
        | OutOfFuel => OutOfFuel
        end
    end.

Definition parser := cstring -> registry -> result parsed.

(** [parseNot], over the forward declaration of [parseExpr]. *)
Definition parseNot_with (parseExpr : parser) : parser :=
  fun s variables =>
    let n := parseOneString s "!" "not" in
    if negb (n =? 0)%nat then
      match parseExpr (skipn n s) variables with
      | Ok r variables' =>
          match nonzero r with
          | Some (m, L) => Ok (Some ((n + m)%nat, Not L)) variables'
          | None => Ok None variables'
          end
      | Exit code => Exit code
      | OutOfFuel => OutOfFuel
      end
    else Ok None variables.

(** The condition of the loop that collects the operation string; [c] is
    [*e] and [c1] is [*(e+1)]. *)
Definition op_char (c c1 : ascii) : bool :=
  negb (Ascii.eqb c NUL) && negb (Ascii.eqb c "!") && negb (Ascii.eqb c "(")
  && negb (Ascii.eqb c "[") && negb (Ascii.eqb c "T") && negb (Ascii.eqb c "F")
  && (negb (Ascii.eqb c "f") || negb (Ascii.eqb c1 "a"))
  && (negb (Ascii.eqb c "t") || negb (Ascii.eqb c1 "r"))
  && (negb (Ascii.eqb c "n") || negb (Ascii.eqb c1 "o"))
  && negb (isspace c).

Fixpoint scan_op (e : cstring) : nat :=
  match e with
  | [] => O
  | c :: e' => if op_char c (deref e') then S (scan_op e') else O
  end.

(** The chain of comparisons on [op] that ends [parseBinaryExpr]. *)
Definition make_binary (op : string) (L R : Expr) : option Expr :=
  if String.eqb op "and" || String.eqb op "&" then Some (And L R)
  else if String.eqb op "or" || String.eqb op "|" then Some (Or L R)
  else if String.eqb op "xor" || String.eqb op "^" then Some (Xor L R)
  else if String.eqb op "then" || String.eqb op "implies" || String.eqb op "=>"
  then Some (Implies L R)
  else if String.eqb op "if" || String.eqb op "<=" then Some (Implies R L)
  else if String.eqb op "iff" || String.eqb op "<=>" then Some (Iff L R)
  else None.

Definition parseBinaryExpr_with (parseExpr : parser) : parser :=
  fun s variables =>
    let ws0 := skipWS s in
    let e0 := skipn ws0 s in
    if negb (Ascii.eqb (deref e0) "(") then Ok None variables
    else
      let e1 := tl e0 in
      (* Parse Left Expression *)
      let ws1 := skipWS e1 in
      let e2 := skipn ws1 e1 in
      match parseExpr e2 variables with
      | Exit code => Exit code
      | OutOfFuel => OutOfFuel
      | Ok rL variables1 =>
          match nonzero rL with
          | None => Ok None variables1
          | Some (nL, L) =>
              let e3 := skipn nL e2 in
              (* Parse Operation String *)
              let ws2 := skipWS e3 in
              let startop := skipn ws2 e3 in
              let oplen := scan_op startop in
              let op := string_of_list_ascii (firstn oplen startop) in
              let e4 := skipn oplen startop in
              let ws3 := skipWS e4 in
              let e5 := skipn ws3 e4 in
              (* Parse Right Expression *)
              let ws4 := skipWS e5 in
              let e6 := skipn ws4 e5 in
              match parseExpr e6 variables1 with
              | Exit code => Exit code
              | OutOfFuel => OutOfFuel
              | Ok rR variables2 =>
                  match nonzero rR with
                  | None => Ok None variables2
                  | Some (nR, R) =>
                      let e7 := skipn nR e6 in
                      (* Parse Closing Parenthesis *)
                      let ws5 := skipWS e7 in
                      let e8 := skipn ws5 e7 in
                      if negb (Ascii.eqb (deref e8) ")") then Ok None variables2
                      else
                        let consumed :=
                          (ws0 + 1 + ws1 + nL + ws2 + oplen + ws3 + ws4
                           + nR + ws5 + 1)%nat in
                        match make_binary op L R with
                        | Some p => Ok (Some (consumed, p)) variables2
                        | None => Ok None variables2
                        end
                  end
              end
          end
      end.

(** [parseExpr]. The recursion of the source descends into a strictly
    shorter rest of the line; the embedding counts it down with [fuel]. *)
Fixpoint parseExpr (fuel : nat) (s : cstring) (variables : registry)
  : result parsed :=
  match fuel with
  | O => OutOfFuel
  | S fuel' =>
      let ws := skipWS s in
      let e := skipn ws s in
      match nonzero (parseTrue e) with
      | Some (n, p) => Ok (Some ((ws + n)%nat, p)) variables
      | None =>
      match nonzero (parseFalse e) with
      | Some (n, p) => Ok (Some ((ws + n)%nat, p)) variables
      | None =>
      match parseVar e variables with
      | Exit code => Exit code
      | OutOfFuel => OutOfFuel
      | Ok r1 variables1 =>
      match nonzero r1 with
      | Some (n, p) => Ok (Some ((ws + n)%nat, p)) variables1
      | None =>
      match parseNot_with (parseExpr fuel') e variables1 with
      | Exit code => Exit code
      | OutOfFuel => OutOfFuel
      | Ok r2 variables2 =>
      match nonzero r2 with
      | Some (n, p) => Ok (Some ((ws + n)%nat, p)) variables2
      | None =>
      match parseBinaryExpr_with (parseExpr fuel') e variables2 with
      | Exit code => Exit code
      | OutOfFuel => OutOfFuel
      | Ok r3 variables3 =>
      match nonzero r3 with
      | Some (n, p) => Ok (Some ((ws + n)%nat, p)) variables3
      | None => Ok None variables3
      end end end end end end end end
  end.

Definition parseNot (fuel : nat) : parser := parseNot_with (parseExpr fuel).

Definition parseBinaryExpr (fuel : nat) : parser :=
  parseBinaryExpr_with (parseExpr fuel).

(** [parseTopLevelExpr]. Only the truth value of what it returns is used by
    [main]: the first [return] gives [e - s] with [n] nonzero, the second
    the distance between two different buffers; both are returned here as
    [Some p], and [return 0] as [None]. *)
Definition parseTopLevelExpr (fuel : nat) (s : cstring) (variables : registry)
  : result (option Expr) :=
  match parseExpr fuel s variables with
  | Exit code => Exit code
  | OutOfFuel => OutOfFuel
  | Ok r1 variables1 =>
      let n := match r1 with Some (n, _) => n | None => O end in
      let e := skipn n s in
      let e' := skipn (skipWS e) e in
      let first :=
        match nonzero r1 with
        | Some (_, p) => if Ascii.eqb (deref e') NUL then Some p else None
        | None => None
        end in
      match first with
      | Some p => Ok (Some p) variables1
      | None =>
          (* Attempt to add parenthesis to expression and parse again *)
          let test := lit "(" ++ c_str s ++ lit ")" in
          match parseExpr fuel test variables1 with
          | Exit code => Exit code
          | OutOfFuel => OutOfFuel
          | Ok r2 variables2 =>
              let n := match r2 with Some (n, _) => n | None => O end in
              let e := skipn n test in
              let e' := skipn (skipWS e) e in
              match nonzero r2 with
              | Some (_, p) =>
                  if Ascii.eqb (deref e') NUL then Ok (Some p) variables2
                  else Ok None variables2
              | None => Ok None variables2
              end
          end
      end
  end.

(** ** The check of [main] *)

(** One [printf] each. *)
Inductive message : Type :=
| Usage
| CannotOpen
| SyntaxErrorLine (linenum : nat)
| Over32Variables
| NoTheorem
| TheoremIsFalse
| CounterexampleTitle
| TableHeader
| Row (name : string) (value : bool)
| AxiomsNotConsistent
| TheoremVerified.

(** What one turn of the outer loop did: the value of [x], how many axioms
    it evaluated, and whether it went on to evaluate the theorem. *)
Record visit : Type := Visit {
  assignment : U32;
  axioms_evaluated : nat;
  theorem_evaluated : bool
}.

(** A finished run: the turns of the loop, what was printed, and the value
    returned by [main]. *)
Record run : Type := Run {
  trace : list visit;
  output : list message;
  exit_code : Z
}.

(** Conversion to [int] (32 bits, two's complement) and to
    [unsigned long] ([wbits] bits). *)
Definition to_int (z : Z) : Z :=
  let m := z mod 2 ^ 32 in
  if m <? 2 ^ 31 then m else m - 2 ^ 32.

Definition to_ulong (wbits : Z) (z : Z) : Z := z mod 2 ^ wbits.

(** [for( int i=1; i<variables.size(); i++ ) max|=(1<<i)], with [count]
    turns left. *)
Fixpoint max_loop (wbits : Z) (count : nat) (i : Z) (max : U32) : U32 :=
  match count with
  | O => max
  | S count' =>
      max_loop wbits count' (i + 1)
        (Z.lor max (to_ulong wbits (to_int (Z.shiftl 1 i))))
  end.

Definition compute_max (wbits : Z) (variables : registry) : U32 :=
  max_loop wbits (length variables - 1) 1 1.

(** [for( i=0; i<propositions.size()-1; i++ )] that breaks at the first
    axiom that is not true; the result is [i] after the loop. *)
Fixpoint axioms_loop (propositions : list Expr) (x : U32) (i : nat)
  (count : nat) : nat :=
  match count with
  | O => i
  | S count' =>
      if eval (nth i propositions FalseE) x =? 0 then i
      else axioms_loop propositions x (S i) count'
  end.

(** The rows of the counterexample table, from index [j] on. *)
Fixpoint rows (wbits : Z) (names : registry) (j : Z) (x : U32) : list message :=
  match names with
  | [] => []
  | name :: names' =>
      Row name (negb (Z.land (to_ulong wbits (Z.shiftl 1 j)) x =? 0))
      :: rows wbits names' (j + 1) x
  end.

Definition report (wbits : Z) (variables : registry) (x : U32) : list message :=
  TheoremIsFalse
  :: (if (1 <=? length variables)%nat then [CounterexampleTitle; TableHeader]
      else [])
  ++ rows wbits variables 0 x.

Definition add_visit (v : visit) (r : run) : run :=
  Run (v :: trace r) (output r) (exit_code r).

(** [for( U32 x=0; x<=max; x++ )] from the current [x] on. *)
Fixpoint check_loop (wbits : Z) (fuel : nat) (variables : registry)
  (propositions : list Expr) (max : U32) (x : U32) (axiomsConsistent : bool)
  : option run :=
  match fuel with
  | O => None
  | S fuel' =>
      if x <=? max then
        let last := (length propositions - 1)%nat in
        let i := axioms_loop propositions x O last in
        if negb (i =? last)%nat then
          (* axioms not satisfied *)
          option_map (add_visit (Visit x (S i) false))
            (check_loop wbits fuel' variables propositions max
               (to_ulong wbits (x + 1)) axiomsConsistent)
        else if eval (nth i propositions FalseE) x =? 0 then
          Some (Run [Visit x i true] (report wbits variables x) 1)
        else
          option_map (add_visit (Visit x i true))
            (check_loop wbits fuel' variables propositions max
               (to_ulong wbits (x + 1)) true)
      else
        Some (Run []
                [if axiomsConsistent then TheoremVerified
                 else AxiomsNotConsistent] 0)
  end.

(** [main] from the computation of [max] on; it is reached with at least
    one proposition. *)
Definition check (wbits : Z) (fuel : nat) (variables : registry)
  (propositions : list Expr) : option run :=
  check_loop wbits fuel variables propositions (compute_max wbits variables)
    0 false.

(** The loop of [main] over the lines that [fgets] delivers: either [main]
    returns from inside the loop, or the loop ends with the registry and
    the propositions. [None] is the embedding running out of fuel. *)
Fixpoint read_lines (lines : list cstring) (linenum : nat)
  (variables : registry) (propositions : list Expr)
  : option (run + registry * list Expr) :=
  match lines with
  | [] => Some (inr (variables, propositions))
  | line :: lines' =>
      let linenum := S linenum in
      if Ascii.eqb (deref line) "/" && Ascii.eqb (deref (tl line)) "/"
      then read_lines lines' linenum variables propositions
      else if Ascii.eqb (deref (skipn (skipWS line) line)) NUL
      then read_lines lines' linenum variables propositions
      else
        match parseTopLevelExpr (3 + length line) line variables with
        | Ok (Some p) variables' =>
            read_lines lines' linenum variables' (propositions ++ [p])
        | Ok None _ => Some (inl (Run [] [SyntaxErrorLine linenum] 1))
        | Exit code => Some (inl (Run [] [Over32Variables] code))
        | OutOfFuel => None
        end
  end.

(** [main] once the file is open (from [char line[8192*2]] on), on the
    buffers that the calls of [fgets] fill one after the other. *)
Definition main (wbits : Z) (fuel : nat) (lines : list cstring) : option run :=
  match read_lines lines O [] [] with
  | None => None
  | Some (inl r) => Some r
  | Some (inr (variables, propositions)) =>
      if (length propositions <? 1)%nat then Some (Run [] [NoTheorem] 1)
      else check wbits fuel variables propositions
  end.

(** ** The command line and the file *)

Definition newline : ascii := "010"%char.

(** [char line[8192*2]] *)
Definition LINE_SIZE : nat := Z.to_nat (8192 * 2).

(** The characters that one call of [fgets] stores, and what it leaves of
    the stream: at most [n] characters, up to and with the first newline. *)
Fixpoint fgets_chars (n : nat) (stream : list ascii)
  : cstring * list ascii :=
  match n, stream with
  | S n', c :: stream' =>
      if Ascii.eqb c newline then ([c], stream')
      else let (line, rest) := fgets_chars n' stream' in (c :: line, rest)
  | _, _ => ([], stream)
  end.

(** [fgets(line,size,f)] on a stream opened in binary mode: [None] is the
    null pointer that [fgets] returns at the end of the file, when it
    could not read any character; otherwise it stores at most [size - 1]
    characters. *)
Definition fgets (size : nat) (stream : list ascii)
  : option (cstring * list ascii) :=
  match stream with
  | [] => None
  | _ :: _ => Some (fgets_chars (size - 1) stream)
  end.

(** The buffers that [while(fgets(line,8192*2,f))] goes through. Every
    call takes at least one character, so [fuel] need not exceed the
    number of characters of the file. *)
Fixpoint fgets_loop (fuel : nat) (stream : list ascii) : list cstring :=
  match fuel with
  | O => []
  | S fuel' =>
      match fgets LINE_SIZE stream with
      | None => []
      | Some (line, rest) => line :: fgets_loop fuel' rest
      end
  end.

Definition fgets_lines (contents : list ascii) : list cstring :=
  fgets_loop (length contents) contents.

(** [main] from its beginning: [argv] is the command line, [fopen] gives
    the contents of the files that can be opened for reading. *)
Definition propcheck (wbits : Z) (fuel : nat) (argv : list string)
  (fopen : string -> option (list ascii)) : option run :=
  if (length argv <? 2)%nat then Some (Run [] [Usage] 1)
  else
    match fopen (nth 1 argv EmptyString) with
    | None => Some (Run [] [CannotOpen] 1)
    | Some contents => main wbits fuel (fgets_lines contents)
    end.

(** ** Notions used to state the properties *)

(** The axioms are all propositions but the last, which is the theorem. *)
Definition axioms (propositions : list Expr) : list Expr :=
  removelast propositions.

Definition theorem (propositions : list Expr) : Expr :=
  last propositions FalseE.

(** The test [!( *propositions[i] )(x)] of [main], negated. *)
Definition holds (x : U32) (e : Expr) : bool := negb (eval e x =? 0).

Definition model (propositions : list Expr) (x : U32) : bool :=
  forallb (holds x) (axioms propositions).

Definition counterexample (propositions : list Expr) (x : U32) : bool :=
  model propositions x && negb (holds x (theorem propositions)).

(** [k] consecutive integers from [x]. *)
Fixpoint zrange (x : Z) (k : nat) : list Z :=
  match k with
  | O => []
  | S k' => x :: zrange (x + 1) k'
  end.

(** What the turn of the loop at [x] does, read off the propositions. *)
Definition visit_of (propositions : list Expr) (x : U32) : visit :=
  let last := (length propositions - 1)%nat in
  let i := axioms_loop propositions x O last in
  Visit x (if (i =? last)%nat then i else S i) (i =? last)%nat.

(** A run after some more turns of the loop in front of it. *)
Definition prepend (turns : list visit) (r : run) : run :=
  Run (turns ++ trace r) (output r) (exit_code r).

(** The number of values below the bound of the loop when there are [n]
    variables. *)
Definition loop_bound (n : nat) : Z :=
  if (n =? 0)%nat then 2 else 2 ^ Z.of_nat n.

(** The table of a counterexample: each name of the registry with the
    value that its variable has under [x]. *)
Definition truth_table (variables : registry) (x : U32) : list message :=
  map (fun jn => Row (snd jn) (holds x (Var (fst jn))))
    (combine (zrange 0 (length variables)) variables).

(** The reading of the enumeration that has every run which finds no
    counterexample visit the values [0 .. 2^n - 1], [n] the number of
    variables. *)
Definition enumerates_all_assignments (wbits : Z) (variables : registry)
  (propositions : list Expr) : Prop :=
  forall fuel r,
    check wbits fuel variables propositions = Some r ->
    exit_code r = 0 ->
    map assignment (trace r)
    = zrange 0 (Z.to_nat (2 ^ Z.of_nat (length variables))).

(** A buffer that holds nothing but white space up to its terminator. *)
Definition blank (e : cstring) : bool := forallb isspace (c_str e).

(** One attempt of the top level: [text] parses as a single expression
    and nothing but white space follows it. *)
Definition whole_line (fuel : nat) (text : cstring) (variables : registry)
  : result (option Expr) :=
  match parseExpr fuel text variables with
  | Ok (Some (n, p)) variables' =>
      if negb (n =? 0)%nat && blank (skipn n text) then Ok (Some p) variables'
      else Ok None variables'
  | Ok None variables' => Ok None variables'
  | Exit code => Exit code
  | OutOfFuel => OutOfFuel
  end.

(** The line between one added pair of parentheses. *)
Definition parenthesized (line : cstring) : cstring :=
  lit "(" ++ c_str line ++ lit ")".

(** The lines that [main] hands to the parser: neither a comment nor
    blank. *)
Definition proposition_line (line : cstring) : bool :=
  negb (Ascii.eqb (deref line) "/" && Ascii.eqb (deref (tl line)) "/")
  && negb (Ascii.eqb (deref (skipn (skipWS line) line)) NUL).

(** What a good answer of a parse function is: a positive number of
    characters of the input, and a well-formed tree. *)
Definition good (s : cstring) (r : parsed) : Prop :=
  forall n e, r = Some (n, e) -> (0 < n <= length s)%nat /\ wf e.

(** The line [[xx...x]] with [k] letters, and the first [n] such lines. *)
Definition sample_line (k : nat) : cstring :=
  lit "[" ++ repeat "x"%char k ++ lit "]".

Definition sample_lines (n : nat) : list cstring :=
  map sample_line (seq 1 n).

(** ** Notions used to state further properties *)

(** Every variable of the tree has an index from [0] below [k]. *)
Fixpoint below (k : Z) (e : Expr) : Prop :=
  match e with
  | TrueE | FalseE => True
  | Var shift => 0 <= shift < k
  | Not E => below k E
  | And L R | Or L R | Xor L R | Implies L R | Iff L R =>
      below k L /\ below k R
  end.

(** A name as [parseVar] stores it: without closing bracket or terminator
    inside, and without white space at either end. *)
Definition plain_name (name : list ascii) : bool :=
  forallb (fun c => negb (Ascii.eqb c "]") && negb (Ascii.eqb c NUL)) name
  && negb (isspace (hd "a"%char name))
  && negb (isspace (last name "a"%char)).

(** The characters with which an expression can begin. *)
Definition starts_expression (c : ascii) : bool :=
  Ascii.eqb c "T" || Ascii.eqb c "t" || Ascii.eqb c "F" || Ascii.eqb c "f"
  || Ascii.eqb c "[" || Ascii.eqb c "!" || Ascii.eqb c "n" || Ascii.eqb c "(".

(** The first character of a buffer after its leading white space. *)
Definition first_char (s : cstring) : ascii := deref (skipn (skipWS s) s).

(** How a run of the parser may change the registry: it only appends,
    keeps the names distinct and stays within 32 names. *)
Definition grows (variables variables' : registry) : Prop :=
  (exists added, variables' = variables ++ added)
  /\ (NoDup variables -> NoDup variables')
  /\ ((length variables <= 32)%nat -> (length variables' <= 32)%nat).

(** What the parser keeps: a registry that [grows], trees whose variables
    are registered, and no other exit code than 1. *)
Definition kept (variables : registry) (res : result parsed) : Prop :=
  match res with
  | Ok r variables' =>
      grows variables variables'
      /\ forall n e, r = Some (n, e) ->
                     below (Z.of_nat (length variables')) e
  | Exit code => code = 1
  | OutOfFuel => True
  end.

(** The same for the top level of the parser. *)
Definition kept_top (variables : registry) (res : result (option Expr))
  : Prop :=
  match res with
  | Ok r variables' =>
      grows variables variables'
      /\ forall e, r = Some e -> below (Z.of_nat (length variables')) e
  | Exit code => code = 1
  | OutOfFuel => True
  end.

(** A piece of text within one line of the file. *)
Definition no_newline (text : list ascii) : bool :=
  forallb (fun c => negb (Ascii.eqb c newline)) text.

(** The test [line[0]=='/' && line[1]=='/'] of [main]. *)
Definition comment (line : cstring) : bool :=
  Ascii.eqb (deref line) "/" && Ascii.eqb (deref (tl line)) "/".

(** *** The notation of the file header, written out *)

(** The name that the registry has for the variable at [shift]. *)
Definition name_of (variables : registry) (shift : Z) : list ascii :=
  list_ascii_of_string (nth (Z.to_nat shift) variables EmptyString).

(** [( l tok r )] *)
Definition infix (tok l r : cstring) : cstring :=
  "("%char :: " "%char :: l ++ " "%char :: tok ++ " "%char :: r
  ++ [" "%char; ")"%char].

(** A tree in the notation that the header of the file lists first:
    [T], [F], [[name]], [!e], and [( l op r )] with [&], [|], [^], [=>]
    and [<=>]. *)
Fixpoint render (variables : registry) (e : Expr) : cstring :=
  match e with
  | TrueE => lit "T"
  | FalseE => lit "F"
  | Var shift => "["%char :: name_of variables shift ++ ["]"%char]
  | Not E => "!"%char :: render variables E
  | And L R => infix (lit "&") (render variables L) (render variables R)
  | Or L R => infix (lit "|") (render variables L) (render variables R)
  | Xor L R => infix (lit "^") (render variables L) (render variables R)
  | Implies L R => infix (lit "=>") (render variables L) (render variables R)
  | Iff L R => infix (lit "<=>") (render variables L) (render variables R)
  end.

(** The trees that can be written with the names of a registry: every
    variable is registered, under a name that [parseVar] stores as it is. *)
Fixpoint writable (variables : registry) (e : Expr) : Prop :=
  match e with
  | TrueE | FalseE => True
  | Var shift =>
      0 <= shift < Z.of_nat (length variables)
      /\ plain_name (name_of variables shift) = true
  | Not E => writable variables E
  | And L R | Or L R | Xor L R | Implies L R | Iff L R =>
      writable variables L /\ writable variables R
  end.

Fixpoint depth (e : Expr) : nat :=
  match e with
  | TrueE | FalseE | Var _ => O
  | Not E => S (depth E)
  | And L R | Or L R | Xor L R | Implies L R | Iff L R =>
      S (Nat.max (depth L) (depth R))
  end.

(** * Properties *)

(** ** The evaluator *)

Lemma land_1_bit (a : Z) : Z.land a 1 = Z.b2z (Z.testbit a 0).
Proof.
  change 1 with (Z.ones 1). rewrite Z.land_ones by lia.
  rewrite Z.bit0_mod. reflexivity.
Qed.

Lemma eval_Var_bit (shift x : Z) :
  0 <= shift -> eval (Var shift) x = Z.b2z (Z.testbit x shift).
Proof.
  intros Hs. simpl. rewrite land_1_bit, Z.shiftr_spec by lia.
  f_equal.
Qed.

(** Every value of the evaluator is the word [0] or the word [1]. *)
Lemma eval_0_or_1 (e : Expr) (x : U32) : eval e x = 0 \/ eval e x = 1.
Proof.
  induction e as [| |s|E IH|L IHL R IHR|L IHL R IHR|L IHL R IHR
                 |L IHL R IHR|L IHL R IHR]; simpl.
  - now right.
  - now left.
  - rewrite land_1_bit. destruct (Z.testbit _ 0); simpl; auto.
  - destruct IH as [-> | ->]; simpl; auto.
  - destruct IHL as [-> | ->], IHR as [-> | ->]; simpl; auto.
  - destruct IHL as [-> | ->], IHR as [-> | ->]; simpl; auto.
  - destruct IHL as [-> | ->], IHR as [-> | ->]; simpl; auto.
  - destruct IHL as [-> | ->], IHR as [-> | ->]; simpl; auto.
  - destruct (eval L x =? eval R x); auto.
Qed.

Lemma eval_b2z (e : Expr) (x : U32) :
  wf e -> eval e x = Z.b2z (Spec.eval (abstract e) x).
Proof.
  induction e as [| |s|E IH|L IHL R IHR|L IHL R IHR|L IHL R IHR
                 |L IHL R IHR|L IHL R IHR]; intros Hwf;
    try (specialize (IHL (proj1 Hwf)); specialize (IHR (proj2 Hwf)));
    cbn [abstract Spec.eval].
  - reflexivity.
  - reflexivity.
  - cbn in Hwf. rewrite eval_Var_bit by lia. unfold Spec.bit.
    rewrite Z2Nat.id by lia. reflexivity.
  - cbn [eval]. rewrite (IH Hwf). now destruct (Spec.eval _ _).
  - cbn [eval]. rewrite IHL, IHR.
    now destruct (Spec.eval (abstract L) x), (Spec.eval (abstract R) x).
  - cbn [eval]. rewrite IHL, IHR.
    now destruct (Spec.eval (abstract L) x), (Spec.eval (abstract R) x).
  - cbn [eval]. rewrite IHL, IHR.
    now destruct (Spec.eval (abstract L) x), (Spec.eval (abstract R) x).
  - cbn [eval]. rewrite IHL, IHR.
    now destruct (Spec.eval (abstract L) x), (Spec.eval (abstract R) x).
  - cbn [eval]. rewrite IHL, IHR.
    now destruct (Spec.eval (abstract L) x), (Spec.eval (abstract R) x).
Qed.

Lemma abstract_concrete (t : Spec.expr) :
  Spec.well_formed t -> abstract (concrete t) = t /\ wf (concrete t).
Proof.
  induction t as [v|i|t IH|k l IHl r IHr]; cbn [Spec.well_formed]; intros Hwf.
  - destruct v; split; reflexivity || exact I.
  - cbn. rewrite Nat2Z.id. split; [reflexivity | lia].
  - destruct (IH Hwf) as [E W]. cbn. rewrite E. auto.
  - destruct Hwf as [Hl Hr].
    destruct (IHl Hl) as [El Wl], (IHr Hr) as [Er Wr].
    destruct k; cbn; rewrite El, Er; auto.
Qed.

Lemma abstract_wf (e : Expr) : wf e -> Spec.well_formed (abstract e).
Proof.
  induction e; cbn; try tauto. lia.
Qed.

(** C1. The evaluator is the structural function of the specification:
    on every well-formed tree [t] of the specification ([Constant],
    [VariableAt], [Negation], [Binary] over the five kinds) and every
    assignment word [x], evaluating the program's tree for [t] yields the
    word of the boolean [Spec.eval t x]; and every well-formed tree of the
    program is the tree for some well-formed [t], evaluated the same way.
    Evaluation is a total function of the tree and the word alone. *)
Theorem eval_is_structural :
  (forall (t : Spec.expr) (x : U32),
      Spec.well_formed t ->
      eval (concrete t) x = Z.b2z (Spec.eval t x)
      /\ holds x (concrete t) = Spec.eval t x)
  /\ (forall (e : Expr) (x : U32),
         wf e ->
         Spec.well_formed (abstract e)
         /\ eval e x = Z.b2z (Spec.eval (abstract e) x)).
Proof.
  split.
  - intros t x Hwf. destruct (abstract_concrete t Hwf) as [E W].
    assert (H : eval (concrete t) x = Z.b2z (Spec.eval t x)).
    { rewrite (eval_b2z _ x W), E. reflexivity. }
    split; [exact H|]. unfold holds. rewrite H.
    now destruct (Spec.eval t x).
  - intros e x Hwf. split; [now apply abstract_wf | now apply eval_b2z].
Qed.

Lemma eval_is_structural_witness :
  Spec.well_formed
    (Spec.Binary Spec.KImplies (Spec.VariableAt 0)
       (Spec.Negation (Spec.VariableAt 31)))
  /\ eval (Implies (Var 0) (Not (Var 31))) 5 = 1
  /\ holds 5 (Implies (Var 0) (Not (Var 31))) = true.
Proof.
  assert (W : Spec.well_formed
                (Spec.Binary Spec.KImplies (Spec.VariableAt 0)
                   (Spec.Negation (Spec.VariableAt 31)))).
  { cbn. lia. }
  split; [exact W|].
  exact (proj1 eval_is_structural _ 5 W).
Defined.

(** ** The variable registry *)

Lemma find_var_bounds (var : string) (variables : registry) (i : nat) :
  (i <= find_var var variables i <= i + length variables)%nat.
Proof.
  revert i. induction variables as [|v rest IH]; intros i; simpl; [lia|].
  destruct (String.eqb v var); [lia|]. specialize (IH (S i)). lia.
Qed.

Lemma find_var_absent (var : string) (variables : registry) (i : nat) :
  ~ In var variables -> find_var var variables i = (i + length variables)%nat.
Proof.
  revert i. induction variables as [|v rest IH]; intros i Hn; simpl; [lia|].
  destruct (String.eqb_spec v var) as [E|_].
  - exfalso. apply Hn. now left.
  - rewrite IH; [lia|]. intros H. apply Hn. now right.
Qed.

Lemma find_var_present (var : string) (variables : registry) (i : nat) :
  In var variables ->
  exists k, find_var var variables i = (i + k)%nat
            /\ (k < length variables)%nat
            /\ nth k variables EmptyString = var
            /\ forall j, (j < k)%nat -> nth j variables EmptyString <> var.
Proof.
  revert i. induction variables as [|v rest IH]; intros i Hin; simpl;
    [destruct Hin|].
  destruct (String.eqb_spec v var) as [E|N].
  - exists O. repeat split; try lia. exact E.
  - destruct Hin as [E|Hin]; [contradiction|].
    destruct (IH (S i) Hin) as (k & Hk & Hlt & Hnth & Hfirst).
    exists (S k). repeat split; try lia. { exact Hnth. }
    intros [|j] Hj; [exact N|]. apply Hfirst. lia.
Qed.

Lemma resolve_known (var : string) (variables : registry) :
  In var variables -> (length variables <= 32)%nat ->
  exists i, resolve var variables = Ok i variables
            /\ (i < length variables)%nat
            /\ nth i variables EmptyString = var
            /\ forall j, (j < i)%nat -> nth j variables EmptyString <> var.
Proof.
  intros Hin Hlen.
  destruct (find_var_present var variables O Hin) as (k & Hk & Hlt & Hn & Hf).
  exists k. unfold resolve. rewrite Hk. simpl.
  destruct (Nat.leb_spec (length variables) k); [lia|].
  destruct (Nat.ltb_spec 32 (length variables)); [lia|].
  repeat split; assumption.
Qed.

Lemma resolve_new (var : string) (variables : registry) :
  ~ In var variables ->
  resolve var variables =
    if (length variables <? 32)%nat
    then Ok (length variables) (variables ++ [var])
    else Exit 1.
Proof.
  intros Hn. unfold resolve. rewrite (find_var_absent _ _ _ Hn). simpl.
  rewrite Nat.leb_refl, length_app. simpl.
  destruct (Nat.ltb_spec 32 (length variables + 1)),
    (Nat.ltb_spec (length variables) 32); try lia; reflexivity.
Qed.

(** What a successful [resolve] leaves behind. *)
Lemma resolve_Ok (var : string) (variables variables' : registry) (i : nat) :
  resolve var variables = Ok i variables' ->
  (i < length variables')%nat /\ (length variables' <= 32)%nat
  /\ In var variables'
  /\ (variables' = variables \/ variables' = variables ++ [var]).
Proof.
  unfold resolve. intros H.
  pose proof (find_var_bounds var variables O) as Hb.
  destruct (Nat.leb_spec (length variables) (find_var var variables 0))
    as [Hge|Hlt].
  - rewrite length_app in H. simpl in H.
    destruct (Nat.ltb_spec 32 (length variables + 1)); [discriminate|].
    injection H as <- <-. rewrite length_app. simpl.
    repeat split; try lia; [|now right]. apply in_or_app. right. now left.
  - destruct (Nat.ltb_spec 32 (length variables)); [discriminate|].
    injection H as <- <-. repeat split; try lia; [|now left].
    destruct (in_dec string_dec var variables) as [Hin|Hn]; [exact Hin|].
    rewrite (find_var_absent _ _ _ Hn) in Hlt. lia.
Qed.

Lemma resolve_Exit (var : string) (variables : registry) (code : Z) :
  resolve var variables = Exit code -> code = 1.
Proof.
  unfold resolve. destruct (_ <? _)%nat; [|discriminate]. congruence.
Qed.

Lemma resolve_never_out_of_fuel (var : string) (variables : registry) :
  resolve var variables <> OutOfFuel.
Proof.
  unfold resolve. destruct (_ <? _)%nat; discriminate.
Qed.

(** Resolving a name a second time changes nothing. *)
Lemma resolve_again (var : string) (variables : registry) (i : nat)
  (variables' : registry) :
  resolve var variables = Ok i variables' ->
  resolve var variables' = Ok i variables'.
Proof.
  intros H.
  destruct (resolve_Ok _ _ _ _ H) as (Hi & Hlen & Hin & Hcase).
  destruct (in_dec string_dec var variables) as [Hold|Hnew].
  - destruct (resolve_known var variables Hold) as (k & Hk & _).
    { destruct Hcase as [-> | ->]; [lia|]. rewrite length_app in Hlen. lia. }
    rewrite Hk in H. injection H as <- <-. exact Hk.
  - rewrite (resolve_new _ _ Hnew) in H.
    destruct (_ <? _)%nat; [|discriminate]. injection H as <- <-.
    destruct (resolve_known var (variables ++ [var]))
      as (k & Hk & Hlt & Hn & Hf).
    { apply in_or_app. right. now left. }
    { exact Hlen. }
    rewrite Hk. f_equal.
    assert (Hk' : ~ (k < length variables)%nat).
    { intros Hk'. rewrite app_nth1 in Hn by exact Hk'.
      apply Hnew. rewrite <- Hn. now apply nth_In. }
    rewrite length_app in Hlt. simpl in Hlt. lia.
Qed.

(** C5. Resolving a name of the registry returns its index and leaves the
    registry as it is, so that resolving a name twice gives the same index;
    resolving a new name appends it and returns the next free index, also
    when it is the 32nd name; when it would be the 33rd, the result is
    [exit(1)], which [main] turns into its exit code: a file of 32 distinct
    variables is read in full, a file of 33 ends the run with code 1. *)
Theorem resolve_registry :
  (forall var variables,
      In var variables -> (length variables <= 32)%nat ->
      exists i, resolve var variables = Ok i variables
                /\ (i < length variables)%nat
                /\ nth i variables EmptyString = var)
  /\ (forall var variables i variables',
         resolve var variables = Ok i variables' ->
         resolve var variables' = Ok i variables')
  /\ (forall var variables,
         ~ In var variables -> (length variables < 32)%nat ->
         resolve var variables = Ok (length variables) (variables ++ [var]))
  /\ (forall var variables,
         ~ In var variables -> length variables = 32%nat ->
         resolve var variables = Exit 1)
  /\ (exists variables propositions,
         read_lines (sample_lines 32) O [] []
         = Some (inr (variables, propositions))
         /\ length variables = 32%nat)
  /\ main 64 1 (sample_lines 33) = Some (Run [] [Over32Variables] 1).
Proof.
  split; [|split; [|split; [|split; [|split]]]].
  - intros var variables Hin Hlen.
    destruct (resolve_known var variables Hin Hlen) as (i & H1 & H2 & H3 & _).
    eauto.
  - exact resolve_again.
  - intros var variables Hn Hlen. rewrite (resolve_new _ _ Hn).
    destruct (Nat.ltb_spec (length variables) 32); [reflexivity | lia].
  - intros var variables Hn Hlen. rewrite (resolve_new _ _ Hn), Hlen.
    reflexivity.
  - eexists. eexists. split; [vm_compute; reflexivity | reflexivity].
  - vm_compute. reflexivity.
Qed.

Lemma resolve_registry_witness :
  (exists i, resolve "B" ["A"; "B"]%string = Ok i ["A"; "B"]%string
             /\ (i < 2)%nat /\ nth i ["A"; "B"]%string EmptyString = "B"%string)
  /\ resolve "C" ["A"; "B"]%string = Ok 2%nat ["A"; "B"; "C"]%string
  /\ resolve "B" (map string_of_list_ascii (sample_lines 32)) = Exit 1.
Proof.
  destruct resolve_registry as (Hknown & _ & Hnew & Hcap & _).
  split; [|split].
  - apply (Hknown "B"%string ["A"; "B"]%string).
    + simpl. auto.
    + simpl. lia.
  - apply (Hnew "C"%string ["A"; "B"]%string).
    + simpl. intros [H|[H|[]]]; discriminate.
    + simpl. lia.
  - apply (Hcap "B"%string (map string_of_list_ascii (sample_lines 32))).
    + vm_compute. intros H.
      repeat (destruct H as [H|H]; [discriminate|]). exact H.
    + reflexivity.
Defined.

(** ** The parser: lengths *)

Lemma skipWS_le (s : cstring) : (skipWS s <= length s)%nat.
Proof.
  induction s as [|c s IH]; simpl; [lia|]. destruct (isspace c); lia.
Qed.

Lemma deref_cons (s : cstring) (c : ascii) :
  c <> NUL -> deref s = c -> exists s', s = c :: s'.
Proof.
  destruct s as [|d s']; simpl; intros Hc H; [congruence|].
  exists s'. now subst.
Qed.

Lemma deref_eqb_length (s : cstring) (c : ascii) :
  c <> NUL -> Ascii.eqb (deref s) c = true ->
  (1 <= length s)%nat /\ length (tl s) = (length s - 1)%nat.
Proof.
  intros Hc H. apply Ascii.eqb_eq in H.
  destruct (deref_cons s c Hc H) as [s' ->]. simpl. lia.
Qed.

Lemma parseString_loop_result (e : cstring) (str : list ascii) (n : nat) :
  parseString_loop e str n = O
  \/ (parseString_loop e str n = (n + length str)%nat
      /\ (length str <= length e)%nat).
Proof.
  revert e n. induction str as [|c str IH]; intros e n; simpl.
  - right. split; lia.
  - destruct e as [|d e']; [now left|].
    destruct (negb (Ascii.eqb d NUL) && Ascii.eqb d c); [|now left].
    destruct (IH e' (S n)) as [H|[H1 H2]]; [now left|].
    right. simpl. split; lia.
Qed.

Lemma parseString_le (s : cstring) (str : string) :
  (parseString s str <= length s)%nat.
Proof.
  unfold parseString.
  destruct (parseString_loop_result s (lit str) O) as [H|[H1 H2]]; lia.
Qed.

Lemma parseOneString_le (s : cstring) (str1 str2 : string) :
  (parseOneString s str1 str2 <= length s)%nat.
Proof.
  unfold parseOneString.
  pose proof (parseString_le s str1). pose proof (parseString_le s str2).
  destruct (negb _); lia.
Qed.

Lemma scan_bracket_lt (e : cstring) (len : nat) :
  scan_bracket e = Some len -> (len < length e)%nat.
Proof.
  revert len. induction e as [|c e IH]; intros len; simpl; [discriminate|].
  destruct (Ascii.eqb c "]").
  - intros [= <-]. lia.
  - destruct (Ascii.eqb c NUL); [discriminate|].
    destruct (scan_bracket e) as [k|]; [|discriminate].
    intros [= <-]. specialize (IH k eq_refl). lia.
Qed.

Lemma scan_op_le (e : cstring) : (scan_op e <= length e)%nat.
Proof.
  induction e as [|c e IH]; simpl; [lia|].
  destruct (op_char c (deref e)); lia.
Qed.

Lemma nonzero_Some (r : parsed) (n : nat) (p : Expr) :
  nonzero r = Some (n, p) -> r = Some (n, p) /\ (0 < n)%nat.
Proof.
  destruct r as [[m q]|]; simpl; [|discriminate].
  destruct (Nat.eqb_spec m 0); [discriminate|].
  intros [= <- <-]. split; [reflexivity | lia].
Qed.

Lemma parseTrue_good (s : cstring) : good s (parseTrue s).
Proof.
  intros n e. unfold parseTrue.
  destruct (Ascii.eqb (deref s) "T") eqn:HT.
  - intros [= <- <-]. apply deref_eqb_length in HT; [|discriminate].
    split; [lia | exact I].
  - pose proof (parseString_le s "true"). pose proof HT.
    destruct (Nat.eqb_spec (parseString s "true") 0); simpl; [discriminate|].
    intros [= <- <-]. split; [lia | exact I].
Qed.

Lemma parseFalse_good (s : cstring) : good s (parseFalse s).
Proof.
  intros n e. unfold parseFalse.
  destruct (Ascii.eqb (deref s) "F") eqn:HF.
  - intros [= <- <-]. apply deref_eqb_length in HF; [|discriminate].
    split; [lia | exact I].
  - pose proof (parseString_le s "false").
    destruct (Nat.eqb_spec (parseString s "false") 0); simpl; [discriminate|].
    intros [= <- <-]. split; [lia | exact I].
Qed.

Lemma parseVar_good (s : cstring) (variables variables' : registry)
  (r : parsed) :
  parseVar s variables = Ok r variables' -> good s r.
Proof.
  unfold parseVar. destruct (Ascii.eqb (deref s) "[") eqn:Hb; simpl.
  2:{ intros [= <- <-] n e; discriminate. }
  apply deref_eqb_length in Hb; [|discriminate]. destruct Hb as [Hs Htl].
  destruct (scan_bracket _) as [len|] eqn:Hscan.
  2:{ intros [= <- <-] n e; discriminate. }
  apply scan_bracket_lt in Hscan. rewrite length_skipn in Hscan.
  pose proof (skipWS_le (tl s)) as Hws.
  destruct (resolve _ variables) as [i vs| |] eqn:Hres; try discriminate.
  intros [= <- <-] n e [= <- <-].
  apply resolve_Ok in Hres. cbn [wf]. split; lia.
Qed.

Section OverParseExpr.

Variable rec : parser.

Hypothesis rec_good :
  forall s variables r variables',
    rec s variables = Ok r variables' -> good s r.

Lemma parseNot_with_good s variables r variables' :
  parseNot_with rec s variables = Ok r variables' -> good s r.
Proof.
  unfold parseNot_with.
  pose proof (parseOneString_le s "!" "not") as Hn.
  destruct (Nat.eqb_spec (parseOneString s "!" "not") 0) as [_|Hnz]; simpl.
  { intros [= <- <-] n e; discriminate. }
  destruct (rec _ variables) as [r0 vs| |] eqn:Hrec; try discriminate.
  apply rec_good in Hrec.
  destruct (nonzero r0) as [[m L]|] eqn:Hr0.
  2:{ intros [= <- <-] n e; discriminate. }
  apply nonzero_Some in Hr0. destruct Hr0 as [-> Hm].
  destruct (Hrec m L eq_refl) as [Hlen Hwf]. rewrite length_skipn in Hlen.
  intros [= <- <-] n e [= <- <-]. cbn [wf]. split; [lia | exact Hwf].
Qed.

Lemma make_binary_wf op L R p :
  make_binary op L R = Some p -> wf L -> wf R -> wf p.
Proof.
  unfold make_binary.
  repeat match goal with
         | |- context [if ?b then _ else _] => destruct b
         end; intros [= <-] HL HR; cbn; auto.
Qed.

Lemma parseBinaryExpr_with_good s variables r variables' :
  parseBinaryExpr_with rec s variables = Ok r variables' -> good s r.
Proof.
  unfold parseBinaryExpr_with.
  set (e0 := skipn (skipWS s) s).
  destruct (Ascii.eqb (deref e0) "(") eqn:Hopen; simpl.
  2:{ intros [= <- <-] n e; discriminate. }
  apply deref_eqb_length in Hopen; [|discriminate]. destruct Hopen as [H0 Htl].
  set (e2 := skipn (skipWS (tl e0)) (tl e0)).
  destruct (rec e2 variables) as [rL vs1| |] eqn:HrecL; try discriminate.
  apply rec_good in HrecL.
  destruct (nonzero rL) as [[nL L]|] eqn:HrL.
  2:{ intros [= <- <-] n e; discriminate. }
  apply nonzero_Some in HrL. destruct HrL as [-> HnL].
  destruct (HrecL nL L eq_refl) as [HlenL HwfL].
  set (e3 := skipn nL e2).
  set (startop := skipn (skipWS e3) e3).
  set (e4 := skipn (scan_op startop) startop).
  set (e5 := skipn (skipWS e4) e4).
  set (e6 := skipn (skipWS e5) e5).
  destruct (rec e6 vs1) as [rR vs2| |] eqn:HrecR; try discriminate.
  apply rec_good in HrecR.
  destruct (nonzero rR) as [[nR R]|] eqn:HrR.
  2:{ intros [= <- <-] n e; discriminate. }
  apply nonzero_Some in HrR. destruct HrR as [-> HnR].
  destruct (HrecR nR R eq_refl) as [HlenR HwfR].
  set (e7 := skipn nR e6).
  set (e8 := skipn (skipWS e7) e7).
  destruct (Ascii.eqb (deref e8) ")") eqn:Hclose; simpl.
  2:{ intros [= <- <-] n e; discriminate. }
  apply deref_eqb_length in Hclose; [|discriminate]. destruct Hclose as [H8 _].
  destruct (make_binary _ L R) as [p|] eqn:Hop.
  2:{ intros [= <- <-] n e; discriminate. }
  intros [= <- <-] n e [= <- <-].
  split; [|exact (make_binary_wf _ L R p Hop HwfL HwfR)].
  pose proof (skipWS_le s). pose proof (skipWS_le (tl e0)).
  pose proof (skipWS_le e3). pose proof (scan_op_le startop).
  pose proof (skipWS_le e4). pose proof (skipWS_le e5).
  pose proof (skipWS_le e7).
  assert (length e0 = length s - skipWS s)%nat by apply length_skipn.
  assert (length e2 = length (tl e0) - skipWS (tl e0))%nat
    by apply length_skipn.
  assert (length e3 = length e2 - nL)%nat by apply length_skipn.
  assert (length startop = length e3 - skipWS e3)%nat by apply length_skipn.
  assert (length e4 = length startop - scan_op startop)%nat
    by apply length_skipn.
  assert (length e5 = length e4 - skipWS e4)%nat by apply length_skipn.
  assert (length e6 = length e5 - skipWS e5)%nat by apply length_skipn.
  assert (length e7 = length e6 - nR)%nat by apply length_skipn.
  assert (length e8 = length e7 - skipWS e7)%nat by apply length_skipn.
  lia.
Qed.

End OverParseExpr.

Lemma parseExpr_good (fuel : nat) :
  forall s variables r variables',
    parseExpr fuel s variables = Ok r variables' -> good s r.
Proof.
  induction fuel as [|fuel IH]; intros s variables r variables';
    cbn [parseExpr]; [discriminate|].
  set (e := skipn (skipWS s) s).
  assert (He : (skipWS s + length e = length s)%nat).
  { unfold e. rewrite length_skipn. pose proof (skipWS_le s). lia. }
  assert (lift : forall n p r0, good e r0 -> nonzero r0 = Some (n, p) ->
            good s (Some ((skipWS s + n)%nat, p))).
  { intros n p r0 Hg Hnz n' e' [= <- <-]. apply nonzero_Some in Hnz.
    destruct Hnz as [-> Hpos]. destruct (Hg n p eq_refl) as [Hlen Hwf].
    split; [lia | exact Hwf]. }
  destruct (nonzero (parseTrue e)) as [[n p]|] eqn:H1.
  { intros [= <- <-]. exact (lift _ _ _ (parseTrue_good e) H1). }
  destruct (nonzero (parseFalse e)) as [[n p]|] eqn:H2.
  { intros [= <- <-]. exact (lift _ _ _ (parseFalse_good e) H2). }
  destruct (parseVar e variables) as [r1 vs1| |] eqn:H3; try discriminate.
  destruct (nonzero r1) as [[n p]|] eqn:H3'.
  { intros [= <- <-]. exact (lift _ _ _ (parseVar_good _ _ _ _ H3) H3'). }
  destruct (parseNot_with _ e vs1) as [r2 vs2| |] eqn:H4; try discriminate.
  destruct (nonzero r2) as [[n p]|] eqn:H4'.
  { intros [= <- <-].
    exact (lift _ _ _ (parseNot_with_good _ IH _ _ _ _ H4) H4'). }
  destruct (parseBinaryExpr_with _ e vs2) as [r3 vs3| |] eqn:H5;
    try discriminate.
  destruct (nonzero r3) as [[n p]|] eqn:H5'.
  { intros [= <- <-].
    exact (lift _ _ _ (parseBinaryExpr_with_good _ IH _ _ _ _ H5) H5'). }
  intros [= <- <-] n e'; discriminate.
Qed.

(** ** The parser: the recursion ends *)

Lemma parseVar_never_out_of_fuel (s : cstring) (variables : registry) :
  parseVar s variables <> OutOfFuel.
Proof.
  unfold parseVar. destruct (negb _); [discriminate|].
  destruct (scan_bracket _); [|discriminate].
  pose proof (resolve_never_out_of_fuel
                (string_of_list_ascii
                   (firstn match n with O => O
                           | S m => S (back_over_ws
                                         (skipn (skipWS (tl s)) (tl s)) m) end
                      (skipn (skipWS (tl s)) (tl s)))) variables) as H.
  destruct (resolve _ variables); congruence.
Qed.

Section EnoughFuel.

Variable rec : parser.
Variable bound : nat.

Hypothesis rec_total :
  forall s variables, (length s < bound)%nat -> rec s variables <> OutOfFuel.

Lemma parseNot_with_total s variables :
  (length s <= bound)%nat -> parseNot_with rec s variables <> OutOfFuel.
Proof.
  intros Hlen. unfold parseNot_with.
  pose proof (parseOneString_le s "!" "not") as Hn.
  destruct (Nat.eqb_spec (parseOneString s "!" "not") 0) as [_|Hnz]; simpl;
    [discriminate|].
  assert (Hrec : rec (skipn (parseOneString s "!" "not") s) variables
                 <> OutOfFuel).
  { apply rec_total. rewrite length_skipn. lia. }
  destruct (rec _ variables) as [r0 vs| |]; try congruence.
  destruct (nonzero r0) as [[m L]|]; discriminate.
Qed.

Lemma parseBinaryExpr_with_total s variables :
  (length s <= bound)%nat ->
  parseBinaryExpr_with rec s variables <> OutOfFuel.
Proof.
  intros Hlen. unfold parseBinaryExpr_with.
  set (e0 := skipn (skipWS s) s).
  assert (H0 : (length e0 <= length s)%nat).
  { unfold e0. rewrite length_skipn. lia. }
  destruct (Ascii.eqb (deref e0) "(") eqn:Hopen; simpl; [|discriminate].
  apply deref_eqb_length in Hopen; [|discriminate]. destruct Hopen as [H1 Htl].
  set (e2 := skipn (skipWS (tl e0)) (tl e0)).
  assert (H2 : (length e2 < bound)%nat).
  { unfold e2. rewrite length_skipn. lia. }
  pose proof (rec_total e2 variables H2) as HL.
  destruct (rec e2 variables) as [rL vs1| |]; try congruence.
  destruct (nonzero rL) as [[nL L]|]; [|discriminate].
  match goal with
  | |- context [rec ?e6 vs1] =>
      assert (HR : rec e6 vs1 <> OutOfFuel);
      [apply rec_total; rewrite !length_skipn; lia|];
      destruct (rec e6 vs1) as [rR vs2| |]; try congruence
  end.
  destruct (nonzero rR) as [[nR R]|]; [|discriminate].
  destruct (negb _); [discriminate|].
  destruct (make_binary _ L R); discriminate.
Qed.

End EnoughFuel.

(** With more fuel than the line has characters, [parseExpr] returns. *)
Lemma parseExpr_total (fuel : nat) :
  forall s variables,
    (length s < fuel)%nat -> parseExpr fuel s variables <> OutOfFuel.
Proof.
  induction fuel as [|fuel IH]; intros s variables Hlen; [lia|].
  cbn [parseExpr].
  set (e := skipn (skipWS s) s).
  assert (He : (length e <= fuel)%nat).
  { unfold e. rewrite length_skipn. lia. }
  destruct (nonzero (parseTrue e)) as [[n p]|]; [discriminate|].
  destruct (nonzero (parseFalse e)) as [[n p]|]; [discriminate|].
  pose proof (parseVar_never_out_of_fuel e variables) as HV.
  destruct (parseVar e variables) as [r1 vs1| |]; try congruence.
  destruct (nonzero r1) as [[n p]|]; [discriminate|].
  pose proof (parseNot_with_total _ fuel IH e vs1 He) as HN.
  destruct (parseNot_with _ e vs1) as [r2 vs2| |]; try congruence.
  destruct (nonzero r2) as [[n p]|]; [discriminate|].
  pose proof (parseBinaryExpr_with_total _ fuel IH e vs2 He) as HB.
  destruct (parseBinaryExpr_with _ e vs2) as [r3 vs3| |]; try congruence.
  destruct (nonzero r3) as [[n p]|]; discriminate.
Qed.

Section MoreFuel.

Variables rec1 rec2 : parser.

Hypothesis rec_stable :
  forall s variables r,
    rec1 s variables = r -> r <> OutOfFuel -> rec2 s variables = r.

Lemma parseNot_with_stable s variables r :
  parseNot_with rec1 s variables = r -> r <> OutOfFuel ->
  parseNot_with rec2 s variables = r.
Proof.
  unfold parseNot_with. destruct (negb _); [|congruence].
  destruct (rec1 _ variables) as [r0 vs| |] eqn:H1; intros <- Hr;
    try congruence.
  - now rewrite (rec_stable _ _ _ H1).
  - rewrite (rec_stable _ _ _ H1); [reflexivity | discriminate].
Qed.

Lemma parseBinaryExpr_with_stable s variables r :
  parseBinaryExpr_with rec1 s variables = r -> r <> OutOfFuel ->
  parseBinaryExpr_with rec2 s variables = r.
Proof.
  unfold parseBinaryExpr_with. destruct (negb _); [congruence|].
  destruct (rec1 _ variables) as [rL vs1| |] eqn:H1; intros <- Hr;
    try congruence.
  2:{ rewrite (rec_stable _ _ _ H1); [reflexivity | discriminate]. }
  rewrite (rec_stable _ _ _ H1) by discriminate.
  destruct (nonzero rL) as [[nL L]|]; [|reflexivity].
  destruct (rec1 _ vs1) as [rR vs2| |] eqn:H2; try congruence.
  - now rewrite (rec_stable _ _ _ H2).
  - rewrite (rec_stable _ _ _ H2); [reflexivity | discriminate].
Qed.

End MoreFuel.

Lemma parseExpr_S (fuel : nat) (s : cstring) (variables : registry) :
  parseExpr (S fuel) s variables =
         (let ws := skipWS s in
          let e := skipn ws s in
          match nonzero (parseTrue e) with
          | Some (n, p) => Ok (Some ((ws + n)%nat, p)) variables
          | None =>
          match nonzero (parseFalse e) with
          | Some (n, p) => Ok (Some ((ws + n)%nat, p)) variables
          | None =>
          match parseVar e variables with
          | Exit code => Exit code
          | OutOfFuel => OutOfFuel
          | Ok r1 variables1 =>
          match nonzero r1 with
          | Some (n, p) => Ok (Some ((ws + n)%nat, p)) variables1
          | None =>
          match parseNot_with (parseExpr fuel) e variables1 with
          | Exit code => Exit code
          | OutOfFuel => OutOfFuel
          | Ok r2 variables2 =>
          match nonzero r2 with
          | Some (n, p) => Ok (Some ((ws + n)%nat, p)) variables2
          | None =>
          match parseBinaryExpr_with (parseExpr fuel) e variables2 with
          | Exit code => Exit code
          | OutOfFuel => OutOfFuel
          | Ok r3 variables3 =>
          match nonzero r3 with
          | Some (n, p) => Ok (Some ((ws + n)%nat, p)) variables3
          | None => Ok None variables3
          end end end end end end end end).
Proof. reflexivity. Qed.

(** A result obtained with some fuel is the result with any more fuel. *)
Lemma parseExpr_stable (fuel : nat) :
  forall s variables r,
    parseExpr fuel s variables = r -> r <> OutOfFuel ->
    parseExpr (S fuel) s variables = r.
Proof.
  induction fuel as [|fuel IH]; intros s variables r.
  { cbn [parseExpr]. congruence. }
  rewrite (parseExpr_S (S fuel)), (parseExpr_S fuel).
  cbv zeta.
  set (e := skipn (skipWS s) s).
  destruct (nonzero (parseTrue e)) as [[n p]|]; [congruence|].
  destruct (nonzero (parseFalse e)) as [[n p]|]; [congruence|].
  destruct (parseVar e variables) as [r1 vs1| |]; try congruence.
  destruct (nonzero r1) as [[n p]|]; [congruence|].
  destruct (parseNot_with (parseExpr fuel) e vs1) as [r2 vs2| |] eqn:HN;
    intros <- Hr; try congruence.
  2:{ rewrite (parseNot_with_stable _ _ IH _ _ _ HN);
        [reflexivity | discriminate]. }
  rewrite (parseNot_with_stable _ _ IH _ _ _ HN) by discriminate.
  destruct (nonzero r2) as [[n p]|]; [congruence|].
  destruct (parseBinaryExpr_with (parseExpr fuel) e vs2) as [r3 vs3| |] eqn:HB;
    try congruence.
  - now rewrite (parseBinaryExpr_with_stable _ _ IH _ _ _ HB).
  - rewrite (parseBinaryExpr_with_stable _ _ IH _ _ _ HB);
      [reflexivity|discriminate].
Qed.

Lemma parseExpr_more_fuel (fuel extra : nat) s variables r :
  parseExpr fuel s variables = r -> r <> OutOfFuel ->
  parseExpr (extra + fuel) s variables = r.
Proof.
  intros H Hr. induction extra as [|extra IH]; [exact H|].
  now apply parseExpr_stable.
Qed.

(** C8. A parse function that assigns an expression to [p] returns a
    number of characters that is not [0], and not more than the input has:
    for [parseTrue], [parseFalse], [parseVar], [parseNot],
    [parseBinaryExpr] and [parseExpr] alike, so that a returned [0] can
    only mean that nothing was matched. *)
Theorem parse_functions_consume :
  (forall s n e, parseTrue s = Some (n, e) -> (0 < n <= length s)%nat)
  /\ (forall s n e, parseFalse s = Some (n, e) -> (0 < n <= length s)%nat)
  /\ (forall s variables n e variables',
         parseVar s variables = Ok (Some (n, e)) variables' ->
         (0 < n <= length s)%nat)
  /\ (forall fuel s variables n e variables',
         parseNot fuel s variables = Ok (Some (n, e)) variables' ->
         (0 < n <= length s)%nat)
  /\ (forall fuel s variables n e variables',
         parseBinaryExpr fuel s variables = Ok (Some (n, e)) variables' ->
         (0 < n <= length s)%nat)
  /\ (forall fuel s variables n e variables',
         parseExpr fuel s variables = Ok (Some (n, e)) variables' ->
         (0 < n <= length s)%nat).
Proof.
  split; [|split; [|split; [|split; [|split]]]].
  - intros s n e H. apply (parseTrue_good s n e H).
  - intros s n e H. apply (parseFalse_good s n e H).
  - intros s variables n e variables' H.
    apply (parseVar_good _ _ _ _ H n e eq_refl).
  - intros fuel s variables n e variables' H.
    apply (parseNot_with_good _ (parseExpr_good fuel) _ _ _ _ H n e eq_refl).
  - intros fuel s variables n e variables' H.
    apply (parseBinaryExpr_with_good _ (parseExpr_good fuel) _ _ _ _ H n e
             eq_refl).
  - intros fuel s variables n e variables' H.
    apply (parseExpr_good fuel _ _ _ _ H n e eq_refl).
Qed.

Lemma parse_functions_consume_witness :
  (0 < 11 <= length (lit "not not [X]"))%nat.
Proof.
  apply (proj2 (proj2 (proj2 (proj2 (proj2 parse_functions_consume))))
           12%nat (lit "not not [X]") [] 11%nat
           (Not (Not (Var 0))) ["X"%string]).
  vm_compute. reflexivity.
Defined.

(** ** The top level of the parser *)

Lemma isspace_not_NUL (c : ascii) : isspace c = true -> Ascii.eqb c NUL = false.
Proof.
  destruct (Ascii.eqb_spec c NUL) as [->|]; [discriminate | reflexivity].
Qed.

(** The test [*e=='\0'] after [e += skipWS(e)] says that only white space
    is left. *)
Lemma end_of_line_blank (e : cstring) :
  Ascii.eqb (deref (skipn (skipWS e) e)) NUL = blank e.
Proof.
  unfold blank. induction e as [|c e IH]; [reflexivity|].
  cbn [skipWS c_str]. destruct (isspace c) eqn:Hc.
  - rewrite (isspace_not_NUL c Hc). cbn [skipn forallb]. now rewrite Hc.
  - cbn [skipn deref hd]. destruct (Ascii.eqb c NUL); [reflexivity|].
    cbn [forallb]. now rewrite Hc.
Qed.

Lemma c_str_length (s : cstring) : (length (c_str s) <= length s)%nat.
Proof.
  induction s as [|c s IH]; simpl; [lia|].
  destruct (Ascii.eqb c NUL); simpl; lia.
Qed.

Lemma parenthesized_length (line : cstring) :
  (length (parenthesized line) <= 2 + length line)%nat.
Proof.
  unfold parenthesized. rewrite !length_app. pose proof (c_str_length line).
  simpl. lia.
Qed.

(** One attempt as [parseTopLevelExpr] writes it. *)
Lemma attempt_whole_line (fuel : nat) (text : cstring) (variables : registry) :
  whole_line fuel text variables =
    match parseExpr fuel text variables with
    | Exit code => Exit code
    | OutOfFuel => OutOfFuel
    | Ok r variables' =>
        let n := match r with Some (n, _) => n | None => O end in
        let e := skipn n text in
        let e' := skipn (skipWS e) e in
        match nonzero r with
        | Some (_, p) =>
            if Ascii.eqb (deref e') NUL then Ok (Some p) variables'
            else Ok None variables'
        | None => Ok None variables'
        end
    end.
Proof.
  unfold whole_line.
  destruct (parseExpr fuel text variables) as [[[n p]|] vs| |]; try reflexivity.
  cbv zeta. rewrite end_of_line_blank. cbn [nonzero].
  destruct (n =? 0)%nat; reflexivity.
Qed.

Lemma parseTopLevelExpr_attempts (fuel : nat) (line : cstring)
  (variables : registry) :
  parseTopLevelExpr fuel line variables =
    match whole_line fuel line variables with
    | Ok (Some p) variables1 => Ok (Some p) variables1
    | Ok None variables1 => whole_line fuel (parenthesized line) variables1
    | Exit code => Exit code
    | OutOfFuel => OutOfFuel
    end.
Proof.
  unfold parseTopLevelExpr. rewrite (attempt_whole_line fuel line).
  destruct (parseExpr fuel line variables) as [r1 vs1| |]; try reflexivity.
  cbv zeta.
  assert (Hsecond :
    match parseExpr fuel (lit "(" ++ c_str line ++ lit ")") vs1 with
    | Ok r2 variables2 =>
        match nonzero r2 with
        | Some (_, p) =>
            if Ascii.eqb
                 (deref
                    (skipn
                       (skipWS
                          (skipn match r2 with Some (n, _) => n | None => O end
                             (lit "(" ++ c_str line ++ lit ")")))
                       (skipn match r2 with Some (n, _) => n | None => O end
                          (lit "(" ++ c_str line ++ lit ")")))) NUL
            then Ok (Some p) variables2
            else Ok None variables2
        | None => Ok None variables2
        end
    | Exit code => Exit code
    | OutOfFuel => OutOfFuel
    end = whole_line fuel (parenthesized line) vs1).
  { rewrite attempt_whole_line. reflexivity. }
  destruct (nonzero r1) as [[n p]|]; [|exact Hsecond].
  destruct (Ascii.eqb _ NUL); [reflexivity | exact Hsecond].
Qed.

Lemma whole_line_total (fuel : nat) (text : cstring) (variables : registry) :
  (length text < fuel)%nat -> whole_line fuel text variables <> OutOfFuel.
Proof.
  intros H. unfold whole_line.
  pose proof (parseExpr_total fuel text variables H) as Hp.
  destruct (parseExpr fuel text variables) as [[[n p]|] vs| |];
    try congruence.
  destruct (_ && _); discriminate.
Qed.

Lemma parseTopLevelExpr_total (fuel : nat) (line : cstring)
  (variables : registry) :
  (2 + length line < fuel)%nat ->
  parseTopLevelExpr fuel line variables <> OutOfFuel.
Proof.
  intros H. rewrite parseTopLevelExpr_attempts.
  assert (H1 : (length line < fuel)%nat) by lia.
  pose proof (whole_line_total fuel line variables H1) as Hw.
  destruct (whole_line fuel line variables) as [[p|] vs1| |]; try congruence.
  apply whole_line_total. pose proof (parenthesized_length line). lia.
Qed.

(** The loop over the lines never runs out of the fuel it hands out. *)
Lemma read_lines_total (lines : list cstring) :
  forall linenum variables propositions,
    read_lines lines linenum variables propositions <> None.
Proof.
  induction lines as [|line lines IH]; intros linenum variables propositions;
    cbn [read_lines]; [discriminate|].
  destruct (_ && _); [apply IH|].
  destruct (Ascii.eqb _ NUL); [apply IH|].
  pose proof (parseTopLevelExpr_total (3 + length line) line variables) as Ht.
  destruct (parseTopLevelExpr _ line variables) as [[p|] vs| |];
    try discriminate.
  - apply IH.
  - exfalso. apply Ht; [lia | reflexivity].
Qed.




Lemma whole_line_parsed (fuel : nat) (text : cstring)
  (variables variables' : registry) (p : Expr) :
  whole_line fuel text variables = Ok (Some p) variables' ->
  exists n, parseExpr fuel text variables = Ok (Some (n, p)) variables'.
Proof.
  unfold whole_line.
  destruct (parseExpr fuel text variables) as [[[n q]|] vs| |];
    try discriminate.
  destruct (_ && _); [|discriminate]. intros [= <- <-]. now exists n.
Qed.

(** A tree that the top level hands to [main] was built by [parseExpr]. *)
Lemma parseTopLevelExpr_parsed (fuel : nat) (line : cstring)
  (variables variables' : registry) (p : Expr) :
  parseTopLevelExpr fuel line variables = Ok (Some p) variables' ->
  exists text variables0 n,
    parseExpr fuel text variables0 = Ok (Some (n, p)) variables'.
Proof.
  rewrite parseTopLevelExpr_attempts.
  destruct (whole_line fuel line variables) as [[q|] vs1| |] eqn:H1;
    try discriminate.
  - intros [= <- <-]. apply whole_line_parsed in H1. destruct H1 as [n H1].
    now exists line, variables, n.
  - intros H2. apply whole_line_parsed in H2. destruct H2 as [n H2].
    now exists (parenthesized line), vs1, n.
Qed.

Lemma lxor_1_negates (v : Z) : v = 0 \/ v = 1 -> Z.lxor 1 v = 1 - v.
Proof. intros [-> | ->]; reflexivity. Qed.

(** C10. On a tree built by the parser (by [parseExpr], and so also on a
    proposition that [parseTopLevelExpr] hands to [main]), the evaluator
    returns the word [0] or the word [1] for every assignment word; on
    such values the exclusive or with [1] in [Not] and [Implies] is the
    boolean negation. *)
Theorem parsed_trees_evaluate_to_0_or_1 :
  (forall fuel s variables n e variables' (x : U32),
      parseExpr fuel s variables = Ok (Some (n, e)) variables' ->
      wf e
      /\ (eval e x = 0 \/ eval e x = 1)
      /\ eval (Not e) x = 1 - eval e x
      /\ forall R, eval (Implies e R) x = 1 - eval e x * (1 - eval R x))
  /\ (forall fuel line variables e variables' (x : U32),
         parseTopLevelExpr fuel line variables = Ok (Some e) variables' ->
         wf e /\ (eval e x = 0 \/ eval e x = 1)).
Proof.
  assert (core : forall fuel s variables n e variables' (x : U32),
             parseExpr fuel s variables = Ok (Some (n, e)) variables' ->
             wf e /\ (eval e x = 0 \/ eval e x = 1)).
  { intros fuel s variables n e variables' x H. split.
    - apply (parseExpr_good fuel _ _ _ _ H n e eq_refl).
    - apply eval_0_or_1. }
  split.
  - intros fuel s variables n e variables' x H.
    destruct (core _ _ _ _ _ _ x H) as [Hwf H01].
    split; [exact Hwf|]. split; [exact H01|]. split.
    + cbn [eval]. now apply lxor_1_negates.
    + intros R. cbn [eval].
      destruct H01 as [-> | ->], (eval_0_or_1 R x) as [-> | ->]; reflexivity.
  - intros fuel line variables e variables' x H.
    destruct (parseTopLevelExpr_parsed _ _ _ _ _ H) as (text & vs0 & n & Hp).
    exact (core _ _ _ _ _ _ x Hp).
Qed.

Lemma parsed_trees_evaluate_to_0_or_1_witness :
  wf (Implies (Not (Var 0)) (Var 1))
  /\ (eval (Implies (Not (Var 0)) (Var 1)) 2 = 0
      \/ eval (Implies (Not (Var 0)) (Var 1)) 2 = 1).
Proof.
  apply (proj2 parsed_trees_evaluate_to_0_or_1 20%nat
           (lit "[A] <= not [B]") ["B"%string] _ ["B"%string; "A"%string] 2).
  vm_compute. reflexivity.
Defined.
(** ** The operands of a binary expression *)

Lemma make_binary_cases (op : string) (L R p : Expr) :
  make_binary op L R = Some p ->
  (((op = "and" \/ op = "&") /\ p = And L R)
   \/ ((op = "or" \/ op = "|") /\ p = Or L R)
   \/ ((op = "xor" \/ op = "^") /\ p = Xor L R)
   \/ ((op = "then" \/ op = "implies" \/ op = "=>") /\ p = Implies L R)
   \/ ((op = "if" \/ op = "<=") /\ p = Implies R L)
   \/ ((op = "iff" \/ op = "<=>") /\ p = Iff L R))%string.
Proof.
  unfold make_binary.
  repeat match goal with
         | |- context [String.eqb op ?t] =>
             destruct (String.eqb_spec op t) as [->|?]
         end; cbn; intros [= <-]; tauto.
Qed.

Lemma skipn_tl {A : Type} (l : list A) : tl l = skipn 1 l.
Proof. destruct l; reflexivity. Qed.

(** The pieces of a successful [parseBinaryExpr]: the left operand is
    parsed at offset [a], the operation string is the [k] characters at
    offset [c], the right operand is parsed at offset [b]. *)
Lemma parseBinaryExpr_pieces (fuel : nat) (s : cstring)
  (variables variables' : registry) (n : nat) (p : Expr) :
  parseBinaryExpr fuel s variables = Ok (Some (n, p)) variables' ->
  exists a nL L variables1 c k b nR R,
    parseExpr fuel (skipn a s) variables = Ok (Some (nL, L)) variables1
    /\ parseExpr fuel (skipn b s) variables1 = Ok (Some (nR, R)) variables'
    /\ (a + nL <= c /\ c + k <= b /\ b + nR < n)%nat
    /\ make_binary (string_of_list_ascii (firstn k (skipn c s))) L R = Some p.
Proof.
  unfold parseBinaryExpr, parseBinaryExpr_with. cbv zeta.
  set (ws0 := skipWS s). set (e0 := skipn ws0 s).
  destruct (negb _); [discriminate|].
  set (ws1 := skipWS (tl e0)). set (e2 := skipn ws1 (tl e0)).
  destruct (parseExpr fuel e2 variables) as [rL vs1| |] eqn:HL;
    try discriminate.
  destruct (nonzero rL) as [[nL L]|] eqn:HrL; [|discriminate].
  apply nonzero_Some in HrL. destruct HrL as [-> HnL].
  set (ws2 := skipWS (skipn nL e2)). set (startop := skipn ws2 (skipn nL e2)).
  set (oplen := scan_op startop).
  set (ws3 := skipWS (skipn oplen startop)).
  set (e5 := skipn ws3 (skipn oplen startop)).
  set (ws4 := skipWS e5). set (e6 := skipn ws4 e5).
  destruct (parseExpr fuel e6 vs1) as [rR vs2| |] eqn:HR; try discriminate.
  destruct (nonzero rR) as [[nR R]|] eqn:HrR; [|discriminate].
  apply nonzero_Some in HrR. destruct HrR as [-> HnR].
  destruct (negb _); [discriminate|].
  destruct (make_binary _ L R) as [q|] eqn:Hop; [|discriminate].
  intros [= <- <- <-].
  assert (E2 : e2 = skipn (ws0 + 1 + ws1) s).
  { unfold e2, e0. rewrite skipn_tl, !skipn_skipn. f_equal. lia. }
  assert (Eop : startop = skipn (ws0 + 1 + ws1 + nL + ws2) s).
  { unfold startop. rewrite E2, !skipn_skipn. f_equal. lia. }
  assert (E6 : e6 = skipn (ws0 + 1 + ws1 + nL + ws2 + oplen + ws3 + ws4) s).
  { unfold e6, e5. rewrite Eop, !skipn_skipn. f_equal. lia. }
  exists (ws0 + 1 + ws1)%nat, nL, L, vs1, (ws0 + 1 + ws1 + nL + ws2)%nat,
    oplen, (ws0 + 1 + ws1 + nL + ws2 + oplen + ws3 + ws4)%nat, nR, R.
  rewrite <- E2, <- Eop, <- E6.
  split; [exact HL|]. split; [exact HR|]. split; [lia | exact Hop].
Qed.

(** C7. The chain of comparisons that ends [parseBinaryExpr] builds
    [Implies] with its operands exchanged for the tokens [if] and [<=], so
    that [(L if R)] is the tree of [(R => L)], and builds every other
    operator with the operands in the order of the text: each of the other
    eleven tokens gives its operator applied to the first and the second
    operand, and no other operation string gives a tree. In a successful
    [parseBinaryExpr] the first operand of that chain is the expression
    parsed to the left of the operation string and the second the
    expression parsed to its right; so it is for each of the thirteen
    tokens between [[A]] and [[B]]. *)
Theorem binary_operand_order :
  (forall L R,
      make_binary "if" L R = Some (Implies R L)
      /\ make_binary "<=" L R = Some (Implies R L)
      /\ make_binary "if" L R = make_binary "=>" R L)
  /\ (forall op L R p,
         make_binary op L R = Some p <->
         ((op = "if" \/ op = "<=") /\ p = Implies R L)
         \/ ((op = "and" \/ op = "&") /\ p = And L R)
         \/ ((op = "or" \/ op = "|") /\ p = Or L R)
         \/ ((op = "xor" \/ op = "^") /\ p = Xor L R)
         \/ ((op = "then" \/ op = "implies" \/ op = "=>") /\ p = Implies L R)
         \/ ((op = "iff" \/ op = "<=>") /\ p = Iff L R))%string
  /\ (forall fuel s variables n p variables',
         parseBinaryExpr fuel s variables = Ok (Some (n, p)) variables' ->
         exists a nL L variables1 c k b nR R,
           parseExpr fuel (skipn a s) variables = Ok (Some (nL, L)) variables1
           /\ parseExpr fuel (skipn b s) variables1
              = Ok (Some (nR, R)) variables'
           /\ (a + nL <= c /\ c + k <= b /\ b + nR < n)%nat
           /\ make_binary (string_of_list_ascii (firstn k (skipn c s))) L R
              = Some p)
  /\ parseBinaryExpr 8 (lit "([A] if [B])") ["A"; "B"]%string
     = Ok (Some (12%nat, Implies (Var 1) (Var 0))) ["A"; "B"]%string
  /\ parseBinaryExpr 8 (lit "([B] => [A])") ["A"; "B"]%string
     = Ok (Some (12%nat, Implies (Var 1) (Var 0))) ["A"; "B"]%string
  /\ (forall L R,
         make_binary "and" L R = Some (And L R)
      /\ make_binary "&" L R = Some (And L R)
      /\ make_binary "or" L R = Some (Or L R)
      /\ make_binary "|" L R = Some (Or L R)
      /\ make_binary "xor" L R = Some (Xor L R)
      /\ make_binary "^" L R = Some (Xor L R)
      /\ make_binary "then" L R = Some (Implies L R)
      /\ make_binary "implies" L R = Some (Implies L R)
      /\ make_binary "=>" L R = Some (Implies L R)
      /\ make_binary "iff" L R = Some (Iff L R)
      /\ make_binary "<=>" L R = Some (Iff L R))
  /\ (forall (tok : string) (p : Expr),
         In (tok, p)
           [("and", And (Var 0) (Var 1)); ("&", And (Var 0) (Var 1));
            ("or", Or (Var 0) (Var 1)); ("|", Or (Var 0) (Var 1));
            ("xor", Xor (Var 0) (Var 1)); ("^", Xor (Var 0) (Var 1));
            ("then", Implies (Var 0) (Var 1));
            ("implies", Implies (Var 0) (Var 1));
            ("=>", Implies (Var 0) (Var 1));
            ("iff", Iff (Var 0) (Var 1)); ("<=>", Iff (Var 0) (Var 1));
            ("if", Implies (Var 1) (Var 0));
            ("<=", Implies (Var 1) (Var 0))]%string ->
         parseBinaryExpr 8 (lit "( [A] " ++ lit tok ++ lit " [B] )") []
         = Ok (Some ((12 + String.length tok)%nat, p)) ["A"; "B"]%string).
Proof.
  split; [|split; [|split; [|split; [|split; [|split]]]]].
  - intros L R. repeat split.
  - intros op L R p. split.
    + intros H. apply make_binary_cases in H. tauto.
    + intros H.
      repeat match type of H with
             | _ \/ _ => destruct H as [H|H]
             | _ /\ _ => destruct H as [H ->]
             end; subst op; reflexivity.
  - intros fuel s variables n p variables'. apply parseBinaryExpr_pieces.
  - vm_compute. reflexivity.
  - vm_compute. reflexivity.
  - intros L R. repeat split.
  - intros tok p H. cbn [In] in H.
    repeat match type of H with
           | _ \/ _ => destruct H as [H|H]
           end; try contradiction; injection H as <- <-; vm_compute;
      reflexivity.
Qed.

Lemma binary_operand_order_witness :
  exists a nL L variables1 c k b nR R,
    parseExpr 8 (skipn a (lit "( [A] if [B] )")) []
    = Ok (Some (nL, L)) variables1
    /\ parseExpr 8 (skipn b (lit "( [A] if [B] )")) variables1
       = Ok (Some (nR, R)) ["A"; "B"]%string
    /\ (a + nL <= c /\ c + k <= b /\ b + nR < 14)%nat
    /\ make_binary
         (string_of_list_ascii (firstn k (skipn c (lit "( [A] if [B] )"))))
         L R
       = Some (Implies (Var 1) (Var 0)).
Proof.
  apply (proj1 (proj2 (proj2 binary_operand_order)) 8%nat
           (lit "( [A] if [B] )") [] 14%nat (Implies (Var 1) (Var 0))
           ["A"; "B"]%string).
  vm_compute. reflexivity.
Defined.

(** ** Parsing step by step *)

Lemma read_lines_proposition (line : cstring) (rest : list cstring)
  (linenum : nat) (variables : registry) (propositions : list Expr) :
  proposition_line line = true ->
  read_lines (line :: rest) linenum variables propositions =
    match parseTopLevelExpr (3 + length line) line variables with
    | Ok (Some p) variables' =>
        read_lines rest (S linenum) variables' (propositions ++ [p])
    | Ok None _ => Some (inl (Run [] [SyntaxErrorLine (S linenum)] 1))
    | Exit code => Some (inl (Run [] [Over32Variables] code))
    | OutOfFuel => None
    end.
Proof.
  unfold proposition_line. intros H. apply andb_prop in H.
  destruct H as [Hc Hb]. apply negb_true_iff in Hc, Hb.
  cbn [read_lines]. now rewrite Hc, Hb.
Qed.

(** A variable reference at the head of the input is what [parseExpr]
    returns. *)
Lemma parseExpr_variable (fuel : nat) (s : cstring)
  (variables variables' : registry) (n : nat) (p : Expr) :
  parseVar ("["%char :: s) variables = Ok (Some (n, p)) variables' ->
  parseExpr (S fuel) ("["%char :: s) variables = Ok (Some (n, p)) variables'.
Proof.
  intros H. pose proof (parseVar_good _ _ _ _ H n p eq_refl) as [Hn _].
  rewrite parseExpr_S. cbv zeta.
  change (skipWS ("["%char :: s)) with O.
  change (skipn 0 ("["%char :: s)) with ("["%char :: s).
  change (nonzero (parseTrue ("["%char :: s))) with (@None (nat * Expr)).
  change (nonzero (parseFalse ("["%char :: s))) with (@None (nat * Expr)).
  rewrite H. cbn [nonzero].
  destruct (Nat.eqb_spec n 0); [lia | reflexivity].
Qed.

(** White space before an expression is counted and skipped. *)
Lemma parseExpr_space (fuel : nat) (c : ascii) (s : cstring)
  (variables variables' : registry) (n : nat) (p : Expr) :
  isspace c = true ->
  parseExpr fuel s variables = Ok (Some (n, p)) variables' ->
  parseExpr fuel (c :: s) variables = Ok (Some (S n, p)) variables'.
Proof.
  intros Hc. destruct fuel as [|fuel]; [discriminate|].
  rewrite !parseExpr_S. cbv zeta. cbn [skipWS]. rewrite Hc. cbn [skipn].
  set (e := skipn (skipWS s) s).
  destruct (nonzero (parseTrue e)) as [[m q]|]; [now intros [= <- <- <-]|].
  destruct (nonzero (parseFalse e)) as [[m q]|]; [now intros [= <- <- <-]|].
  destruct (parseVar e variables) as [r1 vs1| |]; try discriminate.
  destruct (nonzero r1) as [[m q]|]; [now intros [= <- <- <-]|].
  destruct (parseNot_with _ e vs1) as [r2 vs2| |]; try discriminate.
  destruct (nonzero r2) as [[m q]|]; [now intros [= <- <- <-]|].
  destruct (parseBinaryExpr_with _ e vs2) as [r3 vs3| |]; try discriminate.
  destruct (nonzero r3) as [[m q]|]; [now intros [= <- <- <-]|].
  discriminate.
Qed.

(** The keyword [not] before an expression builds its negation. *)
Lemma parseExpr_not (fuel : nat) (s : cstring)
  (variables variables' : registry) (n : nat) (p : Expr) :
  parseExpr fuel s variables = Ok (Some (n, p)) variables' ->
  parseExpr (S fuel) (lit "not" ++ s) variables
  = Ok (Some ((3 + n)%nat, Not p)) variables'.
Proof.
  intros H. pose proof (parseExpr_good _ _ _ _ _ H n p eq_refl) as [Hn _].
  rewrite parseExpr_S. cbv zeta.
  change (skipWS (lit "not" ++ s)) with O.
  change (skipn 0 (lit "not" ++ s)) with (lit "not" ++ s).
  change (nonzero (parseTrue (lit "not" ++ s))) with (@None (nat * Expr)).
  change (nonzero (parseFalse (lit "not" ++ s))) with (@None (nat * Expr)).
  change (parseVar (lit "not" ++ s) variables)
    with (Ok (@None (nat * Expr)) variables).
  cbn [nonzero].
  change (parseNot_with (parseExpr fuel) (lit "not" ++ s) variables)
    with (match parseExpr fuel s variables with
          | Ok r variables' =>
              match nonzero r with
              | Some (m, L) => Ok (Some ((3 + m)%nat, Not L)) variables'
              | None => Ok None variables'
              end
          | Exit code => Exit code
          | OutOfFuel => OutOfFuel
          end).
  rewrite H. cbn [nonzero].
  destruct (Nat.eqb_spec n 0); [lia|]. cbn [nonzero].
  destruct (Nat.eqb_spec (3 + n) 0); [lia | reflexivity].
Qed.

Lemma parseExpr_X (fuel : nat) (variables variables' : registry) (i : nat) :
  resolve "X" variables = Ok i variables' ->
  parseExpr (S fuel) (lit "[X]") variables
  = Ok (Some (3%nat, Var (Z.of_nat i))) variables'.
Proof.
  intros H. apply (parseExpr_variable fuel (lit "X]")).
  change (parseVar ("["%char :: lit "X]") variables)
    with (match resolve "X" variables with
          | Ok i variables' =>
              Ok (Some (3%nat, Var (Z.of_nat i))) variables'
          | Exit code => Exit code
          | OutOfFuel => OutOfFuel
          end).
  now rewrite H.
Qed.

Lemma parseExpr_not_not_X (fuel : nat) (variables variables' : registry)
  (i : nat) :
  resolve "X" variables = Ok i variables' ->
  parseExpr (S (S (S fuel))) (lit "not not [X]") variables
  = Ok (Some (11%nat, Not (Not (Var (Z.of_nat i))))) variables'.
Proof.
  intros H.
  apply (parseExpr_not (S (S fuel)) (lit " not [X]") _ _ 8).
  apply (parseExpr_space _ " "%char (lit "not [X]") _ _ 7); [reflexivity|].
  apply (parseExpr_not (S fuel) (lit " [X]") _ _ 4).
  apply (parseExpr_space _ " "%char (lit "[X]") _ _ 3); [reflexivity|].
  now apply parseExpr_X.
Qed.

(** C9. Reading the line [[X]] and then the line [not not [X]] yields the
    trees [Var i] and [Not (Not (Var i))] for the index [i] that the
    registry gives to [X]; on every assignment word the two evaluate to the
    same word, the bit [i] of the assignment. *)
Theorem double_negation_round_trip :
  forall (variables : registry) (i : nat) (variables' : registry),
    resolve "X" variables = Ok i variables' ->
    read_lines [lit "[X]"; lit "not not [X]"] O variables []
    = Some (inr (variables',
                 [Var (Z.of_nat i); Not (Not (Var (Z.of_nat i)))]))
    /\ forall x : U32,
        eval (Not (Not (Var (Z.of_nat i)))) x = eval (Var (Z.of_nat i)) x
        /\ eval (Var (Z.of_nat i)) x = Z.b2z (Z.testbit x (Z.of_nat i)).
Proof.
  intros variables i variables' H. split.
  - rewrite read_lines_proposition by reflexivity.
    rewrite parseTopLevelExpr_attempts. unfold whole_line at 1.
    change (3 + length (lit "[X]"))%nat with 6%nat.
    rewrite (parseExpr_X 5 _ _ _ H).
    change (negb (3 =? 0)%nat && blank (skipn 3 (lit "[X]"))) with true.
    cbv iota.
    rewrite read_lines_proposition by reflexivity.
    rewrite parseTopLevelExpr_attempts. unfold whole_line at 1.
    change (3 + length (lit "not not [X]"))%nat with 14%nat.
    rewrite (parseExpr_not_not_X 11 _ _ _ (resolve_again _ _ _ _ H)).
    reflexivity.
  - intros x. split.
    + change (eval (Not (Not (Var (Z.of_nat i)))) x)
        with (Z.lxor 1 (Z.lxor 1 (eval (Var (Z.of_nat i)) x))).
      destruct (eval_0_or_1 (Var (Z.of_nat i)) x) as [-> | ->]; reflexivity.
    + apply eval_Var_bit. lia.
Qed.

Lemma double_negation_round_trip_witness :
  read_lines [lit "[X]"; lit "not not [X]"] O [] []
  = Some (inr (["X"%string], [Var 0; Not (Not (Var 0))]))
  /\ forall x : U32,
      eval (Not (Not (Var 0))) x = eval (Var 0) x
      /\ eval (Var 0) x = Z.b2z (Z.testbit x 0).
Proof.
  apply (double_negation_round_trip [] O ["X"%string]). reflexivity.
Defined.

(** ** The enumeration *)

Lemma skipn_nth_cons {A : Type} (l : list A) (i : nat) (d : A) :
  (i < length l)%nat -> skipn i l = nth i l d :: skipn (S i) l.
Proof.
  revert i. induction l as [|a l IH]; intros i Hi; simpl in Hi; [lia|].
  destruct i as [|i]; [reflexivity|]. cbn [skipn nth]. rewrite IH by lia.
  reflexivity.
Qed.

Lemma nth_last {A : Type} (l : list A) (d : A) :
  nth (length l - 1) l d = last l d.
Proof.
  induction l as [|a l IH]; [reflexivity|].
  destruct l as [|b l]; [reflexivity|].
  cbn [length last] in *. rewrite <- IH.
  replace (S (S (length l)) - 1)%nat with (S (S (length l) - 1)) by lia.
  reflexivity.
Qed.

Lemma axioms_loop_bounds (propositions : list Expr) (x : U32) (count : nat) :
  forall i, (i <= axioms_loop propositions x i count <= i + count)%nat.
Proof.
  induction count as [|count IH]; intros i; cbn [axioms_loop]; [lia|].
  destruct (eval _ x =? 0); [lia|]. specialize (IH (S i)). lia.
Qed.

Lemma axioms_loop_all (propositions : list Expr) (x : U32) (count : nat) :
  forall i,
    (i + count < length propositions)%nat ->
    (axioms_loop propositions x i count =? i + count)%nat
    = forallb (holds x) (firstn count (skipn i propositions)).
Proof.
  induction count as [|count IH]; intros i Hi; cbn [axioms_loop].
  - rewrite Nat.add_0_r, Nat.eqb_refl. reflexivity.
  - rewrite (skipn_nth_cons propositions i FalseE) by lia.
    cbn [firstn forallb]. unfold holds at 1.
    destruct (eval (nth i propositions FalseE) x =? 0); cbn [negb andb].
    + apply Nat.eqb_neq. lia.
    + rewrite <- IH by lia. f_equal. lia.
Qed.

(** The loop over the axioms runs to its end exactly on a model. *)
Lemma axioms_loop_model (propositions : list Expr) (x : U32) :
  (axioms_loop propositions x O (length propositions - 1)
   =? length propositions - 1)%nat
  = model propositions x.
Proof.
  unfold model, axioms. rewrite removelast_firstn_len.
  destruct propositions as [|p ps]; [reflexivity|].
  pose proof (axioms_loop_all (p :: ps) x (length (p :: ps) - 1) O) as H.
  cbn [Nat.add skipn] in H. rewrite H by (simpl; lia).
  f_equal. f_equal. simpl. lia.
Qed.

Lemma In_zrange (k : nat) :
  forall x y, In y (zrange x k) <-> x <= y < x + Z.of_nat k.
Proof.
  induction k as [|k IH]; intros x y; cbn [zrange In].
  - lia.
  - rewrite IH. lia.
Qed.

Lemma zrange_length (k : nat) (x : Z) : length (zrange x k) = k.
Proof.
  revert x. induction k as [|k IH]; intros x; simpl; [|rewrite IH]; reflexivity.
Qed.

Lemma zrange_snoc (k : nat) :
  forall x, zrange x (S k) = zrange x k ++ [x + Z.of_nat k].
Proof.
  induction k as [|k IH]; intros x.
  - cbn. now rewrite Z.add_0_r.
  - change (zrange x (S (S k))) with (x :: zrange (x + 1) (S k)).
    rewrite IH. cbn [zrange app]. do 3 f_equal. lia.
Qed.

Lemma prepend_nil (r : run) : prepend [] r = r.
Proof. now destruct r. Qed.

Lemma add_visit_prepend (v : visit) (turns : list visit) (r : run) :
  add_visit v (prepend turns r) = prepend (v :: turns) r.
Proof. reflexivity. Qed.

Lemma to_int_pow2 (i : Z) : 0 <= i < 31 -> to_int (Z.shiftl 1 i) = 2 ^ i.
Proof.
  intros Hi. rewrite Z.shiftl_1_l. unfold to_int.
  assert (H1 : 2 ^ i < 2 ^ 31) by (apply Z.pow_lt_mono_r; lia).
  assert (H2 : 0 < 2 ^ i) by (apply Z.pow_pos_nonneg; lia).
  rewrite Z.mod_small by lia.
  destruct (Z.ltb_spec (2 ^ i) (2 ^ 31)); lia.
Qed.

Lemma to_int_sign_bit : to_int (Z.shiftl 1 31) = - 2 ^ 31.
Proof. reflexivity. Qed.

Lemma lor_disjoint (a b : Z) : Z.land a b = 0 -> Z.lor a b = a + b.
Proof. intros H. pose proof (Z.add_lor_land a b). lia. Qed.

Lemma land_ones_multiple (i q : Z) :
  0 <= i -> Z.land (2 ^ i - 1) (2 ^ i * q) = 0.
Proof.
  intros Hi.
  replace (2 ^ i - 1) with (Z.ones i) by (rewrite Z.ones_equiv; lia).
  rewrite Z.land_comm, Z.land_ones by lia.
  rewrite Z.mul_comm. apply Z_mod_mult.
Qed.

Section Check.

Variable wbits : Z.
Hypothesis wbits_ge : 32 <= wbits.

Lemma to_ulong_small (z : Z) : 0 <= z < 2 ^ wbits -> to_ulong wbits z = z.
Proof. intros H. unfold to_ulong. now apply Z.mod_small. Qed.

Lemma to_ulong_range (z : Z) : 0 <= to_ulong wbits z < 2 ^ wbits.
Proof. unfold to_ulong. apply Z.mod_pos_bound. apply Z.pow_pos_nonneg; lia. Qed.

Lemma pow2_wbits : 2 ^ 32 <= 2 ^ wbits.
Proof. apply Z.pow_le_mono_r; lia. Qed.

Lemma lor_range (a b : Z) :
  0 <= a < 2 ^ wbits -> 0 <= b < 2 ^ wbits -> 0 <= Z.lor a b < 2 ^ wbits.
Proof.
  intros Ha Hb. assert (H0 : 0 <= Z.lor a b) by (apply Z.lor_nonneg; lia).
  split; [exact H0|].
  destruct (Z.eq_dec (Z.lor a b) 0) as [->|Hnz]; [lia|].
  apply Z.log2_lt_pow2; [lia|].
  rewrite Z.log2_lor by lia.
  apply Z.max_lub_lt.
  - destruct (Z.eq_dec a 0) as [->|]; [simpl; lia|].
    apply Z.log2_lt_pow2; lia.
  - destruct (Z.eq_dec b 0) as [->|]; [simpl; lia|].
    apply Z.log2_lt_pow2; lia.
Qed.

(** *** The bound of the loop *)

Lemma max_loop_range (count : nat) :
  forall i max, 0 <= max < 2 ^ wbits ->
                0 <= max_loop wbits count i max < 2 ^ wbits.
Proof.
  induction count as [|count IH]; intros i max Hmax; cbn [max_loop];
    [exact Hmax|].
  apply IH. apply lor_range; [exact Hmax | apply to_ulong_range].
Qed.

Lemma compute_max_range (variables : registry) :
  0 <= compute_max wbits variables < 2 ^ wbits.
Proof.
  apply max_loop_range. pose proof pow2_wbits. lia.
Qed.

Lemma max_loop_ones (count : nat) :
  forall i, 1 <= i -> i + Z.of_nat count <= 31 ->
            max_loop wbits count i (2 ^ i - 1)
            = 2 ^ (i + Z.of_nat count) - 1.
Proof.
  induction count as [|count IH]; intros i Hi Hc; cbn [max_loop].
  - now rewrite Z.add_0_r.
  - rewrite to_int_pow2 by lia.
    assert (Hp : 0 < 2 ^ i < 2 ^ 31).
    { split; [apply Z.pow_pos_nonneg; lia | apply Z.pow_lt_mono_r; lia]. }
    pose proof pow2_wbits.
    rewrite to_ulong_small by lia.
    rewrite lor_disjoint.
    2:{ rewrite <- (Z.mul_1_r (2 ^ i)) at 2. apply land_ones_multiple. lia. }
    replace (2 ^ i - 1 + 2 ^ i) with (2 ^ (i + 1) - 1)
      by (rewrite Z.pow_add_r by lia; lia).
    rewrite IH by lia. f_equal. f_equal. lia.
Qed.

Lemma max_loop_app (a b : nat) :
  forall i max,
    max_loop wbits (a + b) i max
    = max_loop wbits b (i + Z.of_nat a) (max_loop wbits a i max).
Proof.
  induction a as [|a IH]; intros i max.
  - cbn [Nat.add max_loop]. now rewrite Z.add_0_r.
  - cbn [Nat.add max_loop]. rewrite IH. f_equal. lia.
Qed.

(** Up to 31 variables the bound is the last assignment; without any
    variable it is still [1]. *)
Lemma compute_max_small (variables : registry) :
  (length variables <= 31)%nat ->
  compute_max wbits variables = loop_bound (length variables) - 1.
Proof.
  intros Hn. unfold compute_max, loop_bound.
  destruct (length variables) as [|n]; [reflexivity|].
  cbn [Nat.eqb]. replace (S n - 1)%nat with n by lia.
  change 1 with (2 ^ 1 - 1) at 2. rewrite max_loop_ones by lia.
  f_equal. f_equal. lia.
Qed.

(** With 32 variables, [1<<31] is the [int] of least value, whose
    conversion to [unsigned long] sets every bit from 31 up. *)
Lemma compute_max_32 (variables : registry) :
  length variables = 32%nat ->
  compute_max wbits variables = 2 ^ wbits - 1.
Proof.
  intros Hn. unfold compute_max. rewrite Hn.
  change (32 - 1)%nat with (30 + 1)%nat. rewrite max_loop_app.
  change 1 with (2 ^ 1 - 1) at 3. rewrite max_loop_ones by lia.
  cbn [max_loop]. change (1 + Z.of_nat 30) with 31.
  rewrite to_int_sign_bit. unfold to_ulong.
  assert (Hw : 2 ^ wbits = 2 ^ 31 * 2 ^ (wbits - 31)).
  { rewrite <- Z.pow_add_r by lia. f_equal. lia. }
  assert (Hq : 1 < 2 ^ (wbits - 31)).
  { change 1 with (2 ^ 0). apply Z.pow_lt_mono_r; lia. }
  assert (Hmod : (- 2 ^ 31) mod 2 ^ wbits = 2 ^ 31 * (2 ^ (wbits - 31) - 1)).
  { symmetry. apply Z.mod_unique with (q := -1); [left; nia | nia]. }
  rewrite Hmod, lor_disjoint by (apply land_ones_multiple; lia).
  nia.
Qed.

End Check.

Lemma least_counterexample (propositions : list Expr) (k : nat) :
  forall x y,
    x <= y < x + Z.of_nat k -> counterexample propositions y = true ->
    exists x0, x <= x0 <= y /\ counterexample propositions x0 = true
               /\ forall z, x <= z < x0 ->
                            counterexample propositions z = false.
Proof.
  induction k as [|k IH]; intros x y Hy Hcex; [lia|].
  destruct (counterexample propositions x) eqn:Hx.
  - exists x. repeat split; try lia. exact Hx.
  - assert (Hne : y <> x) by congruence.
    destruct (IH (x + 1) y) as (x0 & Hx0 & Hc0 & Hl0); [lia | exact Hcex|].
    exists x0. repeat split; try lia; [exact Hc0|].
    intros z Hz. destruct (Z.eq_dec z x) as [->|]; [exact Hx|].
    apply Hl0. lia.
Qed.

(** *** The loop *)

Section Loop.

Variable wbits : Z.
Hypothesis wbits_ge : 32 <= wbits.
Variable variables : registry.
Variable propositions : list Expr.
Variable max : U32.
Hypothesis max_range : 0 <= max < 2 ^ wbits.

(** One turn of the loop. *)
Lemma check_loop_turn (fuel : nat) (x : U32) (c : bool) :
  x <= max ->
  check_loop wbits (S fuel) variables propositions max x c =
    if counterexample propositions x
    then Some (Run [visit_of propositions x] (report wbits variables x) 1)
    else option_map (add_visit (visit_of propositions x))
           (check_loop wbits fuel variables propositions max
              (to_ulong wbits (x + 1)) (c || model propositions x)).
Proof.
  intros Hx. cbn [check_loop]. cbv zeta.
  destruct (Z.leb_spec x max); [|lia].
  unfold counterexample, visit_of. cbv zeta.
  rewrite <- axioms_loop_model.
  destruct (Nat.eqb_spec
              (axioms_loop propositions x 0 (length propositions - 1))
              (length propositions - 1)) as [E|_]; cbn [negb andb].
  - rewrite E, nth_last. fold (theorem propositions). unfold holds.
    destruct (eval (theorem propositions) x =? 0); cbn [negb].
    + reflexivity.
    + now rewrite orb_true_r.
  - now rewrite orb_false_r.
Qed.

(** The end of the loop. *)
Lemma check_loop_end (fuel : nat) (x : U32) (c : bool) :
  max < x ->
  check_loop wbits (S fuel) variables propositions max x c =
    Some (Run [] [if c then TheoremVerified else AxiomsNotConsistent] 0).
Proof.
  intros Hx. cbn [check_loop]. destruct (Z.leb_spec x max); [lia|].
  reflexivity.
Qed.

Lemma check_loop_more_fuel (fuel : nat) :
  forall x c r,
    check_loop wbits fuel variables propositions max x c = Some r ->
    check_loop wbits (S fuel) variables propositions max x c = Some r.
Proof.
  induction fuel as [|fuel IH]; intros x c r H; [discriminate|].
  destruct (Z.le_gt_cases x max) as [Hx|Hx].
  - rewrite check_loop_turn in H |- * by exact Hx.
    destruct (counterexample propositions x); [exact H|].
    destruct (check_loop wbits fuel variables propositions max _ _)
      as [r'|] eqn:E; [|discriminate].
    now rewrite (IH _ _ _ E).
  - rewrite check_loop_end in H |- * by lia. exact H.
Qed.

Lemma check_loop_add_fuel (extra fuel : nat) (x : U32) (c : bool) (r : run) :
  check_loop wbits fuel variables propositions max x c = Some r ->
  check_loop wbits (extra + fuel) variables propositions max x c = Some r.
Proof.
  intros H. induction extra as [|extra IH]; [exact H|].
  now apply check_loop_more_fuel.
Qed.

(** A run does not depend on the fuel that was enough for it. *)
Lemma check_loop_deterministic (fuel1 fuel2 : nat) (x : U32) (c : bool)
  (r1 r2 : run) :
  check_loop wbits fuel1 variables propositions max x c = Some r1 ->
  check_loop wbits fuel2 variables propositions max x c = Some r2 ->
  r1 = r2.
Proof.
  intros H1 H2.
  apply (check_loop_add_fuel fuel2) in H1.
  apply (check_loop_add_fuel fuel1) in H2.
  rewrite Nat.add_comm in H2. congruence.
Qed.

(** [k] turns without a counterexample. *)
Lemma check_loop_turns (k : nat) :
  forall fuel x c,
    0 <= x -> x + Z.of_nat k < 2 ^ wbits -> x + Z.of_nat k <= max + 1 ->
    (forall y, x <= y < x + Z.of_nat k ->
               counterexample propositions y = false) ->
    check_loop wbits (k + fuel) variables propositions max x c =
      option_map (prepend (map (visit_of propositions) (zrange x k)))
        (check_loop wbits fuel variables propositions max (x + Z.of_nat k)
           (c || existsb (model propositions) (zrange x k))).
Proof.
  induction k as [|k IH]; intros fuel x c Hx Hw Hm Hno.
  - cbn [Nat.add zrange map existsb]. rewrite Z.add_0_r, orb_false_r.
    destruct (check_loop wbits fuel variables propositions max x c) as [r|];
      [|reflexivity].
    cbn [option_map]. now rewrite prepend_nil.
  - cbn [Nat.add]. rewrite check_loop_turn by lia.
    rewrite Hno by lia. rewrite to_ulong_small by lia.
    rewrite IH by (try lia; intros y Hy; apply Hno; lia).
    cbn [zrange map existsb]. rewrite orb_assoc.
    replace (x + 1 + Z.of_nat k) with (x + Z.of_nat (S k)) by lia.
    destruct (check_loop wbits fuel variables propositions max _ _) as [r|];
      reflexivity.
Qed.

(** The run that stops at the least counterexample [x0]. *)
Lemma check_loop_stops (x0 : U32) (fuel : nat) :
  0 <= x0 <= max ->
  counterexample propositions x0 = true ->
  (forall y, 0 <= y < x0 -> counterexample propositions y = false) ->
  check_loop wbits (Z.to_nat x0 + S fuel) variables propositions max 0
    false =
    Some (Run (map (visit_of propositions) (zrange 0 (S (Z.to_nat x0))))
            (report wbits variables x0) 1).
Proof.
  intros Hx0 Hcex Hleast.
  rewrite check_loop_turns; try lia.
  2:{ intros y Hy. apply Hleast. lia. }
  rewrite Z2Nat.id, Z.add_0_l by lia.
  rewrite check_loop_turn, Hcex by lia. cbn [option_map]. unfold prepend.
  cbn [trace output exit_code]. f_equal. f_equal.
  rewrite zrange_snoc, map_app, Z2Nat.id, Z.add_0_l by lia. reflexivity.
Qed.

(** The run that finds no counterexample, when [max + 1] does not wrap. *)
Lemma check_loop_completes (fuel : nat) :
  max + 1 < 2 ^ wbits ->
  (forall y, 0 <= y <= max -> counterexample propositions y = false) ->
  check_loop wbits (Z.to_nat (max + 1) + S fuel) variables propositions max
    0 false =
    Some (Run (map (visit_of propositions) (zrange 0 (Z.to_nat (max + 1))))
            [if existsb (model propositions) (zrange 0 (Z.to_nat (max + 1)))
             then TheoremVerified else AxiomsNotConsistent] 0).
Proof.
  intros Hw Hno.
  rewrite check_loop_turns; try lia.
  2:{ intros y Hy. apply Hno. lia. }
  rewrite Z2Nat.id, Z.add_0_l by lia.
  rewrite check_loop_end by lia. cbn [option_map orb]. unfold prepend.
  cbn [trace output exit_code]. now rewrite app_nil_r.
Qed.

(** When the bound is the largest word, [x<=max] never fails: without a
    counterexample the loop does not end. *)
Lemma check_loop_diverges :
  max = 2 ^ wbits - 1 ->
  (forall y, 0 <= y <= max -> counterexample propositions y = false) ->
  forall fuel x c,
    0 <= x < 2 ^ wbits ->
    check_loop wbits fuel variables propositions max x c = None.
Proof.
  intros Hmax Hno. induction fuel as [|fuel IH]; intros x c Hx;
    [reflexivity|].
  rewrite check_loop_turn by lia. rewrite Hno by lia.
  rewrite IH; [reflexivity | now apply to_ulong_range].
Qed.

End Loop.

(** *** The three ways a check can go *)

Lemma existsb_false {A : Type} (f : A -> bool) (l : list A) :
  existsb f l = false -> forall y, In y l -> f y = false.
Proof.
  intros H y Hy. destruct (f y) eqn:E; [|reflexivity].
  assert (existsb f l = true) by (apply existsb_exists; eauto). congruence.
Qed.

Lemma visits_assignments (propositions : list Expr) (xs : list Z) :
  map assignment (map (visit_of propositions) xs) = xs.
Proof.
  induction xs as [|x xs IH]; [reflexivity|]. cbn [map]. now rewrite IH.
Qed.

Lemma visits_theorem_evaluated (propositions : list Expr) (xs : list Z) :
  forall v, In v (map (visit_of propositions) xs) ->
            theorem_evaluated v = model propositions (assignment v).
Proof.
  intros v Hv. apply in_map_iff in Hv. destruct Hv as (x & <- & _).
  unfold visit_of. cbn [theorem_evaluated assignment].
  apply axioms_loop_model.
Qed.

Section Outcomes.

Variable wbits : Z.
Hypothesis wbits_ge : 32 <= wbits.
Variable variables : registry.
Variable propositions : list Expr.

Lemma check_cases :
  let max := compute_max wbits variables in
  (exists x0,
      0 <= x0 <= max
      /\ counterexample propositions x0 = true
      /\ (forall y, 0 <= y < x0 -> counterexample propositions y = false)
      /\ forall fuel,
          check wbits (Z.to_nat x0 + S fuel) variables propositions
          = Some (Run (map (visit_of propositions)
                         (zrange 0 (S (Z.to_nat x0))))
                    (report wbits variables x0) 1))
  \/ ((forall y, 0 <= y <= max -> counterexample propositions y = false)
      /\ max + 1 < 2 ^ wbits
      /\ forall fuel,
          check wbits (Z.to_nat (max + 1) + S fuel) variables propositions
          = Some (Run (map (visit_of propositions)
                         (zrange 0 (Z.to_nat (max + 1))))
                    [if existsb (model propositions)
                          (zrange 0 (Z.to_nat (max + 1)))
                     then TheoremVerified else AxiomsNotConsistent] 0))
  \/ ((forall y, 0 <= y <= max -> counterexample propositions y = false)
      /\ max = 2 ^ wbits - 1
      /\ forall fuel, check wbits fuel variables propositions = None).
Proof.
  intros max.
  pose proof (compute_max_range wbits wbits_ge variables) as Hmax.
  fold max in Hmax.
  destruct (existsb (counterexample propositions)
              (zrange 0 (Z.to_nat (max + 1)))) eqn:Hex.
  - left. apply existsb_exists in Hex. destruct Hex as (y & Hy & Hcex).
    apply In_zrange in Hy.
    destruct (least_counterexample propositions (Z.to_nat (max + 1)) 0 y Hy
                Hcex) as (x0 & Hx0 & Hc0 & Hleast).
    exists x0. split; [lia|]. split; [exact Hc0|]. split; [exact Hleast|].
    intros fuel. unfold check. fold max.
    apply check_loop_stops; try assumption. lia.
  - right.
    assert (Hno : forall y, 0 <= y <= max ->
                            counterexample propositions y = false).
    { intros y Hy. apply (existsb_false _ _ Hex). apply In_zrange. lia. }
    destruct (Z.lt_ge_cases (max + 1) (2 ^ wbits)) as [Hlt|Hge].
    + left. split; [exact Hno|]. split; [exact Hlt|].
      intros fuel. unfold check. fold max.
      now apply check_loop_completes.
    + right. split; [exact Hno|]. split; [lia|].
      intros fuel. unfold check. fold max.
      apply check_loop_diverges; try assumption; lia.
Qed.

Lemma check_deterministic (fuel1 fuel2 : nat) (r1 r2 : run) :
  check wbits fuel1 variables propositions = Some r1 ->
  check wbits fuel2 variables propositions = Some r2 -> r1 = r2.
Proof. apply check_loop_deterministic. Qed.

End Outcomes.

(** With 32 variables and a theorem that follows from the axioms, the
    check does not return. *)
Lemma check_32_variables_diverges (wbits : Z) (variables : registry)
  (propositions : list Expr) :
  32 <= wbits -> length variables = 32%nat ->
  (forall y, 0 <= y < 2 ^ wbits -> counterexample propositions y = false) ->
  forall fuel, check wbits fuel variables propositions = None.
Proof.
  intros Hw Hn Hno fuel.
  pose proof (compute_max_32 wbits Hw variables Hn) as Hmax.
  destruct (check_cases wbits Hw variables propositions)
    as [(x0 & Hx0 & Hc & _)|[(_ & Hlt & _)|(_ & _ & H)]].
  - rewrite Hno in Hc by lia. discriminate.
  - lia.
  - apply H.
Qed.

(** *** The table of the counterexample *)

Lemma land_pow2_testbit (j x : Z) :
  0 <= j -> (Z.land (2 ^ j) x =? 0) = negb (Z.testbit x j).
Proof.
  intros Hj. destruct (Z.testbit x j) eqn:E; cbn [negb].
  - apply Z.eqb_neq. intros H.
    apply (f_equal (fun z => Z.testbit z j)) in H.
    rewrite Z.land_spec, Z.pow2_bits_true, E, Z.bits_0 in H by lia.
    discriminate.
  - apply Z.eqb_eq. apply Z.bits_inj'. intros n Hn.
    rewrite Z.land_spec, Z.pow2_bits_eqb, Z.bits_0 by lia.
    destruct (Z.eqb_spec j n) as [->|]; [now rewrite E | reflexivity].
Qed.

Lemma holds_Var (j x : Z) : 0 <= j -> holds x (Var j) = Z.testbit x j.
Proof.
  intros Hj. unfold holds. rewrite eval_Var_bit by lia.
  now destruct (Z.testbit x j).
Qed.

Lemma rows_truth_table (wbits : Z) (x : U32) (names : registry) :
  forall j, 0 <= j -> j + Z.of_nat (length names) <= wbits ->
            rows wbits names j x
            = map (fun jn => Row (snd jn) (holds x (Var (fst jn))))
                (combine (zrange j (length names)) names).
Proof.
  induction names as [|name names IH]; intros j Hj Hw; [reflexivity|].
  cbn [length] in Hw. cbn [rows length zrange combine map fst snd].
  rewrite IH by lia. f_equal. f_equal.
  rewrite Z.shiftl_1_l. unfold to_ulong.
  rewrite Z.mod_small.
  - rewrite land_pow2_testbit, holds_Var by lia. apply negb_involutive.
  - split; [apply Z.pow_nonneg; lia | apply Z.pow_lt_mono_r; lia].
Qed.

Lemma report_truth_table (wbits : Z) (variables : registry) (x : U32) :
  Z.of_nat (length variables) <= wbits ->
  report wbits variables x
  = TheoremIsFalse
    :: (if (1 <=? length variables)%nat then [CounterexampleTitle; TableHeader]
        else [])
    ++ truth_table variables x.
Proof.
  intros H. unfold report, truth_table. now rewrite rows_truth_table by lia.
Qed.

(** ** The verdicts *)

(** C2. A check ends in one of three ways. If some assignment up to the
    bound of the loop satisfies all axioms and falsifies the theorem, the
    check returns, prints that the theorem is false and the exit code is
    1. A check that returns otherwise found no such assignment: it prints
    that the theorem is verified when some assignment satisfied all
    axioms, and that the axioms are not consistent when none did, with
    exit code 0 both times. Up to 31 variables the check always returns. *)
Theorem check_outcomes :
  forall (wbits : Z) (variables : registry) (propositions : list Expr),
    32 <= wbits ->
    (1 <= length propositions)%nat ->
    (forall x,
        0 <= x <= compute_max wbits variables ->
        counterexample propositions x = true ->
        exists fuel r,
          check wbits fuel variables propositions = Some r
          /\ hd_error (output r) = Some TheoremIsFalse
          /\ exit_code r = 1)
    /\ (forall fuel r,
           check wbits fuel variables propositions = Some r ->
           (exit_code r = 1
            /\ exists x,
                0 <= x <= compute_max wbits variables
                /\ counterexample propositions x = true
                /\ output r = report wbits variables x)
           \/ (exit_code r = 0
               /\ output r = [TheoremVerified]
               /\ (forall x, 0 <= x <= compute_max wbits variables ->
                             counterexample propositions x = false)
               /\ exists x, 0 <= x <= compute_max wbits variables
                            /\ model propositions x = true)
           \/ (exit_code r = 0
               /\ output r = [AxiomsNotConsistent]
               /\ forall x, 0 <= x <= compute_max wbits variables ->
                            model propositions x = false))
    /\ ((length variables <= 31)%nat ->
        exists fuel r, check wbits fuel variables propositions = Some r).
Proof.
  intros wbits variables propositions Hw _.
  pose proof (compute_max_range wbits Hw variables) as Hmax.
  destruct (check_cases wbits Hw variables propositions)
    as [(x0 & Hx0 & Hc0 & Hleast & Hrun)
       |[(Hno & Hlt & Hrun)|(Hno & Hall & Hnone)]].
  - (* the loop stops at [x0] *)
    split; [|split].
    + intros _ _ _. eexists. eexists. split; [apply (Hrun O)|].
      split; reflexivity.
    + intros fuel r Hr.
      rewrite (check_deterministic wbits variables propositions _ _ _ _ Hr
                 (Hrun O)).
      left. split; [reflexivity|]. exists x0. now repeat split.
    + intros _. eexists. eexists. apply (Hrun O).
  - (* the loop runs to its end *)
    split; [|split].
    + intros x Hx Hc. rewrite Hno in Hc by lia. discriminate.
    + intros fuel r Hr.
      rewrite (check_deterministic wbits variables propositions _ _ _ _ Hr
                 (Hrun O)).
      right. cbn [exit_code output].
      destruct (existsb (model propositions) _) eqn:Hex.
      * left. split; [reflexivity|]. split; [reflexivity|].
        split; [exact Hno|].
        apply existsb_exists in Hex. destruct Hex as (x & Hx & Hm).
        apply In_zrange in Hx. exists x. split; [lia | exact Hm].
      * right. split; [reflexivity|]. split; [reflexivity|].
        intros x Hx. apply (existsb_false _ _ Hex). apply In_zrange. lia.
    + intros _. eexists. eexists. apply (Hrun O).
  - (* the loop does not end *)
    split; [|split].
    + intros x Hx Hc. rewrite Hno in Hc by lia. discriminate.
    + intros fuel r Hr. rewrite Hnone in Hr. discriminate.
    + intros Hn. exfalso.
      rewrite (compute_max_small wbits Hw variables Hn) in Hall.
      assert (loop_bound (length variables) <= 2 ^ 31).
      { unfold loop_bound. destruct (length variables =? 0)%nat; [lia|].
        apply Z.pow_le_mono_r; lia. }
      assert (2 ^ 32 <= 2 ^ wbits) by (apply Z.pow_le_mono_r; lia). lia.
Qed.

Lemma check_outcomes_witness :
  exists fuel r,
    check 64 fuel ["A"; "B"]%string [Or (Var 0) (Var 1); Var 0] = Some r
    /\ hd_error (output r) = Some TheoremIsFalse
    /\ exit_code r = 1.
Proof.
  apply (proj1 (check_outcomes 64 ["A"; "B"]%string
                  [Or (Var 0) (Var 1); Var 0] ltac:(lia) ltac:(simpl; lia)) 2).
  - change (compute_max 64 ["A"; "B"]%string) with 3. lia.
  - reflexivity.
Defined.

(** C3. When some assignment up to the bound of the loop satisfies all
    axioms and falsifies the theorem, the check returns, and every run of
    it is the same: it visited the values [0, 1, ..., x0] in this order and
    nothing after [x0], the least such assignment; it printed that the
    theorem is false and then each name of the registry with the truth
    value of its variable under [x0]; and at the assignments where some
    axiom is false it did not evaluate the theorem. *)
Theorem first_counterexample_reported :
  forall (wbits : Z) (variables : registry) (propositions : list Expr)
         (x1 : U32),
    32 <= wbits ->
    (1 <= length propositions)%nat ->
    (length variables <= 32)%nat ->
    0 <= x1 <= compute_max wbits variables ->
    counterexample propositions x1 = true ->
    exists x0 fuel r,
      check wbits fuel variables propositions = Some r
      /\ (forall fuel' r',
             check wbits fuel' variables propositions = Some r' -> r' = r)
      /\ 0 <= x0 <= x1
      /\ counterexample propositions x0 = true
      /\ (forall y, 0 <= y < x0 -> counterexample propositions y = false)
      /\ exit_code r = 1
      /\ output r
         = TheoremIsFalse
           :: (if (1 <=? length variables)%nat
               then [CounterexampleTitle; TableHeader] else [])
           ++ truth_table variables x0
      /\ map assignment (trace r) = zrange 0 (S (Z.to_nat x0))
      /\ last (map assignment (trace r)) 0 = x0
      /\ forall v, In v (trace r) ->
                   theorem_evaluated v = model propositions (assignment v).
Proof.
  intros wbits variables propositions x1 Hw _ Hn Hx1 Hc1.
  destruct (check_cases wbits Hw variables propositions)
    as [(x0 & Hx0 & Hc0 & Hleast & Hrun)
       |[(Hno & _)|(Hno & _)]].
  2,3: rewrite Hno in Hc1 by lia; discriminate.
  exists x0, (Z.to_nat x0 + 1)%nat. eexists.
  split; [apply (Hrun O)|].
  split.
  { intros fuel' r' Hr'.
    apply (check_deterministic wbits variables propositions _ _ _ _ Hr'
             (Hrun O)). }
  split.
  { split; [lia|]. destruct (Z.le_gt_cases x0 x1) as [H|H]; [exact H|].
    rewrite Hleast in Hc1 by lia. discriminate. }
  split; [exact Hc0|]. split; [exact Hleast|]. split; [reflexivity|].
  cbn [output trace]. split; [apply report_truth_table; lia|].
  rewrite visits_assignments. split; [reflexivity|]. split.
  - rewrite zrange_snoc, last_last, Z2Nat.id by lia. lia.
  - apply visits_theorem_evaluated.
Qed.

Lemma first_counterexample_reported_witness :
  exists x0 fuel r,
    check 64 fuel ["A"; "B"]%string [Or (Var 0) (Var 1); Var 0] = Some r
    /\ (forall fuel' r',
           check 64 fuel' ["A"; "B"]%string [Or (Var 0) (Var 1); Var 0]
           = Some r' -> r' = r)
    /\ 0 <= x0 <= 2
    /\ counterexample [Or (Var 0) (Var 1); Var 0] x0 = true
    /\ (forall y, 0 <= y < x0 ->
                  counterexample [Or (Var 0) (Var 1); Var 0] y = false)
    /\ exit_code r = 1
    /\ output r
       = TheoremIsFalse
         :: [CounterexampleTitle; TableHeader]
         ++ truth_table ["A"; "B"]%string x0
    /\ map assignment (trace r) = zrange 0 (S (Z.to_nat x0))
    /\ last (map assignment (trace r)) 0 = x0
    /\ forall v, In v (trace r) ->
                 theorem_evaluated v
                 = model [Or (Var 0) (Var 1); Var 0] (assignment v).
Proof.
  apply (first_counterexample_reported 64 ["A"; "B"]%string
           [Or (Var 0) (Var 1); Var 0] 2).
  - lia.
  - simpl. lia.
  - simpl. lia.
  - change (compute_max 64 ["A"; "B"]%string) with 3. lia.
  - reflexivity.
Defined.

(** C4, as the program has it. With [n] variables, [n] from 0 to 31, the
    bound [max] of the loop is [loop_bound n - 1]: [2^n - 1] for [n] from
    1 to 31, and [1] when there is no variable. The check returns, with
    one result whatever the fuel, and it went through the values
    [0, 1, 2, ...] in this order without a gap: through all the values
    [0 .. max], and then no value of them is a counterexample and [main]
    returns 0, or up to the least counterexample [x0], which lies within
    [0 .. max], and then [main] prints that the theorem is false and
    returns 1. *)
Theorem enumeration_range :
  forall (wbits : Z) (variables : registry) (propositions : list Expr),
    32 <= wbits ->
    (1 <= length propositions)%nat ->
    (length variables <= 31)%nat ->
    compute_max wbits variables = loop_bound (length variables) - 1
    /\ ((1 <= length variables)%nat ->
        loop_bound (length variables) = 2 ^ Z.of_nat (length variables))
    /\ (length variables = O -> loop_bound (length variables) = 2)
    /\ exists fuel r,
        check wbits fuel variables propositions = Some r
        /\ (forall fuel' r',
               check wbits fuel' variables propositions = Some r' -> r' = r)
        /\ (((forall x, 0 <= x < loop_bound (length variables) ->
                        counterexample propositions x = false)
             /\ trace r
                = map (visit_of propositions)
                    (zrange 0 (Z.to_nat (loop_bound (length variables))))
             /\ map assignment (trace r)
                = zrange 0 (Z.to_nat (loop_bound (length variables)))
             /\ exit_code r = 0)
            \/ (exists x0,
                   0 <= x0 < loop_bound (length variables)
                   /\ counterexample propositions x0 = true
                   /\ (forall y, 0 <= y < x0 ->
                                 counterexample propositions y = false)
                   /\ trace r
                      = map (visit_of propositions)
                          (zrange 0 (S (Z.to_nat x0)))
                   /\ map assignment (trace r) = zrange 0 (S (Z.to_nat x0))
                   /\ output r = report wbits variables x0
                   /\ exit_code r = 1)).
Proof.
  intros wbits variables propositions Hw _ Hn.
  pose proof (compute_max_small wbits Hw variables Hn) as Hmax.
  assert (Hbound : 2 <= loop_bound (length variables) <= 2 ^ 31).
  { unfold loop_bound. destruct (Nat.eqb_spec (length variables) 0); [lia|].
    split; [|apply Z.pow_le_mono_r; lia].
    change 2 with (2 ^ 1) at 1. apply Z.pow_le_mono_r; lia. }
  split; [exact Hmax|]. split; [|split].
  { unfold loop_bound. destruct (Nat.eqb_spec (length variables) 0); lia. }
  { unfold loop_bound. destruct (Nat.eqb_spec (length variables) 0);
      [reflexivity | lia]. }
  destruct (check_cases wbits Hw variables propositions)
    as [(x0 & Hx0 & Hc0 & Hleast & Hrun)
       |[(Hno & Hlt & Hrun)|(Hno & Hall & Hnone)]].
  - eexists. eexists. split; [apply (Hrun O)|]. split.
    { intros fuel' r' Hr'.
      apply (check_deterministic wbits variables propositions _ _ _ _ Hr'
               (Hrun O)). }
    right. exists x0. cbn [trace exit_code output].
    rewrite visits_assignments.
    split; [lia|]. split; [exact Hc0|]. split; [exact Hleast|].
    repeat split.
  - eexists. eexists. split; [apply (Hrun O)|]. split.
    { intros fuel' r' Hr'.
      apply (check_deterministic wbits variables propositions _ _ _ _ Hr'
               (Hrun O)). }
    left. cbn [trace exit_code]. rewrite visits_assignments, Hmax.
    replace (loop_bound (length variables) - 1 + 1)
      with (loop_bound (length variables)) by lia.
    split; [intros x Hx; apply Hno; lia|]. repeat split.
  - exfalso. assert (2 ^ 32 <= 2 ^ wbits) by (apply Z.pow_le_mono_r; lia).
    lia.
Qed.

Lemma enumeration_range_witness :
  compute_max 64 ["A"; "B"]%string = 3
  /\ ((1 <= 2)%nat -> 4 = 2 ^ 2)
  /\ (2%nat = O -> 4 = 2)
  /\ exists fuel r,
      check 64 fuel ["A"; "B"]%string
        [Var 0; Implies (Var 0) (Var 1); Var 1] = Some r
      /\ (forall fuel' r',
             check 64 fuel' ["A"; "B"]%string
               [Var 0; Implies (Var 0) (Var 1); Var 1] = Some r' -> r' = r)
      /\ (((forall x, 0 <= x < 4 ->
                      counterexample [Var 0; Implies (Var 0) (Var 1); Var 1] x
                      = false)
           /\ trace r
              = map (visit_of [Var 0; Implies (Var 0) (Var 1); Var 1])
                  [0; 1; 2; 3]
           /\ map assignment (trace r) = [0; 1; 2; 3]
           /\ exit_code r = 0)
          \/ (exists x0,
                 0 <= x0 < 4
                 /\ counterexample [Var 0; Implies (Var 0) (Var 1); Var 1] x0
                    = true
                 /\ (forall y, 0 <= y < x0 ->
                               counterexample
                                 [Var 0; Implies (Var 0) (Var 1); Var 1] y
                               = false)
                 /\ trace r
                    = map (visit_of [Var 0; Implies (Var 0) (Var 1); Var 1])
                        (zrange 0 (S (Z.to_nat x0)))
                 /\ map assignment (trace r) = zrange 0 (S (Z.to_nat x0))
                 /\ output r = report 64 ["A"; "B"]%string x0
                 /\ exit_code r = 1)).
Proof.
  apply (enumeration_range 64 ["A"; "B"]%string
           [Var 0; Implies (Var 0) (Var 1); Var 1]).
  - lia.
  - simpl. lia.
  - simpl. lia.
Defined.

(** C4, as it is stated: without any variable the enumeration would be
    the single value [0]; the loop visits [0] and [1]. *)
Lemma enumeration_without_variables :
  check 64 3 [] [TrueE]
  = Some (Run [Visit 0 0 true; Visit 1 0 true] [TheoremVerified] 0)
  /\ ~ enumerates_all_assignments 64 [] [TrueE].
Proof.
  split; [reflexivity|].
  intros H. specialize (H 3%nat _ eq_refl eq_refl). discriminate.
Qed.

(** ** The scenarios of the specification, run through [main] *)

Example scenario_verified :
  main 64 5 [lit "[A]"; lit "( [A] => [B] )"; lit "[B]"]
  = Some (Run [Visit 0 1 false; Visit 1 2 false; Visit 2 1 false;
               Visit 3 2 true]
            [TheoremVerified] 0).
Proof. reflexivity. Qed.

Example scenario_not_consistent :
  main 64 3 [lit "[A]"; lit "not [A]"; lit "[A]"]
  = Some (Run [Visit 0 1 false; Visit 1 2 false] [AxiomsNotConsistent] 0).
Proof. reflexivity. Qed.

Example scenario_first_counterexample :
  main 64 3 [lit "( [A] or [B] )"; lit "[A]"]
  = Some (Run [Visit 0 1 false; Visit 1 1 true; Visit 2 1 true]
            [TheoremIsFalse; CounterexampleTitle; TableHeader;
             Row "A" false; Row "B" true] 1).
Proof. reflexivity. Qed.

Example scenario_no_axioms :
  main 64 1 [lit "[P] and not [P]"]
  = Some (Run [Visit 0 0 true]
            [TheoremIsFalse; CounterexampleTitle; TableHeader; Row "P" false]
            1).
Proof. reflexivity. Qed.

(** * Further properties *)

(** ** White space and literals *)

(** X1. [skipWS] returns the length of the longest prefix of white space:
    the characters it counts are all white space, and the character it
    stops at is not. *)
Theorem skipWS_longest_blank_prefix :
  forall s : cstring,
    (skipWS s <= length s)%nat
    /\ forallb isspace (firstn (skipWS s) s) = true
    /\ isspace (deref (skipn (skipWS s) s)) = false.
Proof.
  intros s. induction s as [|c s IH]; [cbn; repeat split; lia|].
  destruct IH as (Hlen & Hall & Hstop).
  cbn [skipWS]. destruct (isspace c) eqn:Hc.
  - cbn [length firstn forallb skipn]. rewrite Hc, Hall.
    repeat split; [lia | exact Hstop].
  - cbn [firstn forallb skipn deref hd length].
    repeat split; [lia | exact Hc].
Qed.

(** White space over a blank prefix. *)
Lemma skipWS_app (ws t : cstring) :
  forallb isspace ws = true -> skipWS (ws ++ t) = (length ws + skipWS t)%nat.
Proof.
  induction ws as [|c ws IH]; [reflexivity|]. cbn [forallb]. intros H.
  apply andb_prop in H. destruct H as [Hc Hws].
  cbn [app skipWS length]. rewrite Hc, IH by exact Hws. reflexivity.
Qed.

Lemma skipn_app_length {A : Type} (l t : list A) :
  skipn (length l) (l ++ t) = t.
Proof. induction l as [|a l IH]; [reflexivity | exact IH]. Qed.

Lemma firstn_app_length {A : Type} (l t : list A) :
  firstn (length l) (l ++ t) = l.
Proof. induction l as [|a l IH]; [reflexivity|]. cbn. now rewrite IH. Qed.

Lemma parseString_loop_prefix (str : list ascii) :
  forall e n,
    Forall (fun c => c <> NUL) str ->
    (forall rest, e <> str ++ rest) -> parseString_loop e str n = O.
Proof.
  induction str as [|c str IH]; intros e n Hnul Hno.
  - exfalso. apply (Hno e). reflexivity.
  - cbn [parseString_loop]. destruct e as [|d e]; [reflexivity|].
    inversion Hnul as [|? ? Hc Hrest]; subst.
    destruct (Ascii.eqb_spec d NUL) as [->|Hd]; [reflexivity|].
    destruct (Ascii.eqb_spec d c) as [->|Hdc]; [|reflexivity].
    cbn [negb andb]. apply IH; [exact Hrest|].
    intros rest ->. apply (Hno rest). reflexivity.
Qed.

Lemma parseString_loop_match (str : list ascii) :
  forall rest n,
    Forall (fun c => c <> NUL) str ->
    parseString_loop (str ++ rest) str n = (n + length str)%nat.
Proof.
  induction str as [|c str IH]; intros rest n Hnul; cbn [parseString_loop app].
  - cbn. lia.
  - inversion Hnul as [|? ? Hc Hrest]; subst.
    destruct (Ascii.eqb_spec c NUL) as [->|_]; [contradiction|].
    rewrite Ascii.eqb_refl. cbn [negb andb length].
    rewrite IH by exact Hrest. lia.
Qed.

(** X2. [parseString] matches a literal against the head of the input: for
    a literal without NUL inside, it returns the length of the literal when
    the input begins with it and [0] when it does not. *)
Theorem parseString_matches_prefix :
  forall (s : cstring) (str : string),
    Forall (fun c => c <> NUL) (lit str) ->
    ((exists rest, s = lit str ++ rest) ->
     parseString s str = length (lit str))
    /\ ((forall rest, s <> lit str ++ rest) -> parseString s str = O).
Proof.
  intros s str Hnul. unfold parseString. split.
  - intros [rest ->]. now rewrite parseString_loop_match.
  - intros Hno. now apply parseString_loop_prefix.
Qed.

Lemma parseString_matches_prefix_witness :
  parseString (lit "implies [B] )") "implies" = 7%nat
  /\ parseString (lit "imply [B] )") "implies" = O.
Proof.
  assert (Hnul : Forall (fun c => c <> NUL) (lit "implies")).
  { repeat constructor; discriminate. }
  split.
  - apply (proj1 (parseString_matches_prefix (lit "implies [B] )") "implies"
                    Hnul)).
    exists (lit " [B] )"). reflexivity.
  - apply (proj2 (parseString_matches_prefix (lit "imply [B] )") "implies"
                    Hnul)).
    intros rest H. discriminate H.
Defined.

(** ** The evaluator, further *)

(** X3. The operators of the evaluator obey the laws of the connectives
    they stand for, on every pair of trees and every assignment word:
    implication is [Or (Not L) R] and its contrapositive, equivalence is
    the negation of exclusive or and implication both ways, negation is an
    involution, and De Morgan's laws hold. *)
Theorem eval_connectives :
  forall (L R : Expr) (x : U32),
    eval (Implies L R) x = eval (Or (Not L) R) x
    /\ eval (Implies L R) x = eval (Implies (Not R) (Not L)) x
    /\ eval (Iff L R) x = eval (Not (Xor L R)) x
    /\ eval (Iff L R) x = eval (And (Implies L R) (Implies R L)) x
    /\ eval (Not (Not L)) x = eval L x
    /\ eval (Not (And L R)) x = eval (Or (Not L) (Not R)) x
    /\ eval (Not (Or L R)) x = eval (And (Not L) (Not R)) x.
Proof.
  intros L R x. cbn [eval].
  destruct (eval_0_or_1 L x) as [-> | ->], (eval_0_or_1 R x) as [-> | ->];
    repeat split.
Qed.


Lemma below_le (e : Expr) (k k' : Z) : below k e -> k <= k' -> below k' e.
Proof.
  induction e; cbn; intros H Hk; try tauto; try lia.
  all: destruct H; split; auto.
Qed.

Lemma eval_agree (e : Expr) :
  forall (k : Z) (x y : U32),
    below k e ->
    (forall i, 0 <= i < k -> Z.testbit x i = Z.testbit y i) ->
    eval e x = eval e y.
Proof.
  induction e as [| |s|E IH|L IHL R IHR|L IHL R IHR|L IHL R IHR
                 |L IHL R IHR|L IHL R IHR]; intros k x y Hb Hxy;
    cbn [below] in Hb; cbn [eval];
    try (rewrite (IHL k x y), (IHR k x y) by tauto); try reflexivity.
  - rewrite !land_1_bit, !Z.shiftr_spec by lia. cbn [Z.add].
    now rewrite Hxy by lia.
  - now rewrite (IH k x y).
Qed.

Lemma eval_mod (e : Expr) (k : Z) (x : U32) :
  below k e -> eval e (x mod 2 ^ k) = eval e x.
Proof.
  intros Hb. apply (eval_agree e k); [exact Hb|].
  intros i Hi. apply Z.mod_pow2_bits_low. lia.
Qed.

(** X4. The value of a tree depends only on the bits of the assignment
    that its variables name: two words that agree on the bits below [k]
    give the same value to every tree with indices below [k]; so the bits
    from [k] up can be cut off. *)
Theorem eval_reads_low_bits :
  forall (e : Expr) (k : Z) (x y : U32),
    below k e ->
    (forall i, 0 <= i < k -> Z.testbit x i = Z.testbit y i) ->
    eval e x = eval e y /\ eval e (x mod 2 ^ k) = eval e x.
Proof.
  intros e k x y Hb Hxy. split; [now apply (eval_agree e k)|].
  now apply eval_mod.
Qed.

Lemma eval_reads_low_bits_witness :
  eval (Xor (Var 0) (Var 1)) 6 = eval (Xor (Var 0) (Var 1)) 2
  /\ eval (Xor (Var 0) (Var 1)) (6 mod 2 ^ 2) = eval (Xor (Var 0) (Var 1)) 6.
Proof.
  apply (eval_reads_low_bits (Xor (Var 0) (Var 1)) 2 6 2).
  - cbn. lia.
  - intros i Hi. assert (Hi' : i = 0 \/ i = 1) by lia.
    destruct Hi' as [-> | ->]; reflexivity.
Defined.

(** ** Names of variables *)

Lemma isspace_not_bracket (c : ascii) :
  isspace c = true ->
  negb (Ascii.eqb c "]") && negb (Ascii.eqb c NUL) = true.
Proof.
  intros H. destruct (Ascii.eqb_spec c "]") as [->|_]; [discriminate|].
  now rewrite (isspace_not_NUL c H).
Qed.

Lemma scan_bracket_app (p rest : cstring) :
  forallb (fun c => negb (Ascii.eqb c "]") && negb (Ascii.eqb c NUL)) p = true ->
  scan_bracket (p ++ "]"%char :: rest) = Some (length p).
Proof.
  induction p as [|c p IH]; [reflexivity|]. cbn [forallb]. intros H.
  apply andb_prop in H. destruct H as [Hc Hp].
  apply andb_prop in Hc. destruct Hc as [Hc1 Hc2].
  apply negb_true_iff in Hc1, Hc2.
  cbn [app scan_bracket length]. rewrite Hc1, Hc2, (IH Hp). reflexivity.
Qed.

Lemma back_over_ws_trailing (name ws t : cstring) (k : nat) :
  name <> [] ->
  isspace (last name "a"%char) = false ->
  forallb isspace ws = true ->
  (k <= length ws)%nat ->
  back_over_ws (name ++ ws ++ t) (length name - 1 + k) = (length name - 1)%nat.
Proof.
  intros Hne Hlast Hws. induction k as [|k IH]; intros Hk.
  - rewrite Nat.add_0_r. destruct (length name - 1)%nat as [|m] eqn:E;
      [reflexivity|].
    cbn [back_over_ws]. rewrite <- E.
    rewrite app_nth1 by (destruct name; [contradiction | simpl; lia]).
    rewrite (nth_indep name NUL "a"%char)
      by (destruct name; [contradiction | simpl; lia]).
    rewrite nth_last, Hlast. reflexivity.
  - replace (length name - 1 + S k)%nat with (S (length name - 1 + k)) by lia.
    cbn [back_over_ws].
    replace (S (length name - 1 + k)) with (length name + k)%nat
      by (destruct name; [contradiction | simpl; lia]).
    rewrite app_nth2_plus, app_nth1 by lia.
    assert (Hsp : isspace (nth k ws NUL) = true).
    { apply (proj1 (forallb_forall isspace ws) Hws). apply nth_In. lia. }
    rewrite Hsp. apply IH. lia.
Qed.

Lemma parseVar_bracketed :
  forall (ws1 name ws2 rest : cstring) (variables : registry),
    forallb isspace ws1 = true ->
    forallb isspace ws2 = true ->
    plain_name name = true ->
    parseVar ("["%char :: ws1 ++ name ++ ws2 ++ "]"%char :: rest) variables
    = match resolve (string_of_list_ascii name) variables with
      | Ok i variables' =>
          Ok (Some ((length ws1 + length name + length ws2 + 2)%nat,
                    Var (Z.of_nat i))) variables'
      | Exit code => Exit code
      | OutOfFuel => OutOfFuel
      end.
Proof.
  intros ws1 name ws2 rest variables H1 H2 Hname.
  unfold plain_name in Hname.
  apply andb_prop in Hname. destruct Hname as [Hname Hlast].
  apply andb_prop in Hname. destruct Hname as [Hchars Hfirst].
  apply negb_true_iff in Hlast, Hfirst.
  unfold parseVar. cbn [deref hd tl]. rewrite Ascii.eqb_refl. cbn [negb].
  rewrite skipWS_app by exact H1.
  destruct name as [|c name'].
  - (* the empty name *)
    cbn [app length]. rewrite skipWS_app by exact H2.
    cbn [skipWS]. change (isspace "]") with false. cbv iota.
    rewrite Nat.add_0_r.
    replace (ws1 ++ ws2 ++ "]"%char :: rest)
      with ((ws1 ++ ws2) ++ "]"%char :: rest) by now rewrite app_assoc.
    rewrite <- length_app, skipn_app_length.
    cbn [scan_bracket]. rewrite Ascii.eqb_refl. cbn [firstn].
    destruct (resolve _ variables); try reflexivity.
    do 3 f_equal. rewrite length_app. lia.
  - (* a name with a first and a last character *)
    cbn [hd] in Hfirst. set (name := c :: name') in *.
    assert (Hws : skipWS (name ++ ws2 ++ "]"%char :: rest) = O).
    { unfold name. cbn [app skipWS]. now rewrite Hfirst. }
    rewrite Hws, Nat.add_0_r, skipn_app_length.
    replace (name ++ ws2 ++ "]"%char :: rest)
      with ((name ++ ws2) ++ "]"%char :: rest) by now rewrite <- app_assoc.
    rewrite scan_bracket_app.
    2:{ rewrite forallb_app, Hchars. cbn [andb].
        apply forallb_forall. intros d Hd. apply isspace_not_bracket.
        now apply (proj1 (forallb_forall isspace ws2) H2). }
    rewrite length_app.
    replace (length name + length ws2)%nat
      with (S (length name - 1 + length ws2)) by (unfold name; simpl; lia).
    rewrite <- app_assoc.
    rewrite back_over_ws_trailing; try assumption; try lia;
      [|unfold name; discriminate].
    replace (S (length name - 1)) with (length name)
      by (unfold name; simpl; lia).
    rewrite firstn_app_length.
    destruct (resolve _ variables); try reflexivity.
    do 3 f_equal. unfold name. simpl. lia.
Qed.

(** X5. [parseVar] takes the name between the brackets without the white
    space around it: on [[ws1 name ws2] rest], where [ws1] and [ws2] are
    white space and [name] has neither a closing bracket nor white space at
    its ends, it resolves exactly [name] and consumes the text up to and
    with the closing bracket, whatever follows. The empty name is a name
    like any other. *)
Theorem parseVar_trims_name :
  forall (ws1 name ws2 rest : cstring) (variables : registry),
    forallb isspace ws1 = true ->
    forallb isspace ws2 = true ->
    plain_name name = true ->
    parseVar ("["%char :: ws1 ++ name ++ ws2 ++ "]"%char :: rest) variables
    = match resolve (string_of_list_ascii name) variables with
      | Ok i variables' =>
          Ok (Some ((length ws1 + length name + length ws2 + 2)%nat,
                    Var (Z.of_nat i))) variables'
      | Exit code => Exit code
      | OutOfFuel => OutOfFuel
      end.
Proof. exact parseVar_bracketed. Qed.

Lemma parseVar_trims_name_witness :
  parseVar (lit "[  it rains ] and") ["sun"; "it rains"]%string
  = Ok (Some (13%nat, Var 1)) ["sun"; "it rains"]%string.
Proof.
  apply (parseVar_trims_name (lit "  ") (lit "it rains") (lit " ")
           (lit " and") ["sun"; "it rains"]%string);
    reflexivity.
Defined.

(** ** The recursion of the parser ends *)

Lemma whole_line_more_fuel (fuel extra : nat) (text : cstring)
  (variables : registry) :
  (length text < fuel)%nat ->
  whole_line (extra + fuel) text variables = whole_line fuel text variables.
Proof.
  intros H. unfold whole_line.
  now rewrite (parseExpr_more_fuel fuel extra text variables _ eq_refl
                 (parseExpr_total fuel text variables H)).
Qed.

(** X6. Parsing ends: with more fuel than the line has characters (and
    two more for the added parentheses) neither [parseExpr] nor
    [parseTopLevelExpr] runs out of it, and what they return does not
    change with any further fuel. *)
Theorem parser_terminates :
  forall (fuel : nat) (line : cstring) (variables : registry),
    (2 + length line < fuel)%nat ->
    parseExpr fuel line variables <> OutOfFuel
    /\ parseTopLevelExpr fuel line variables <> OutOfFuel
    /\ forall extra,
        parseExpr (extra + fuel) line variables
        = parseExpr fuel line variables
        /\ parseTopLevelExpr (extra + fuel) line variables
           = parseTopLevelExpr fuel line variables.
Proof.
  intros fuel line variables Hfuel.
  assert (H1 : (length line < fuel)%nat) by lia.
  split; [now apply parseExpr_total|].
  split; [now apply parseTopLevelExpr_total|].
  intros extra. split.
  - apply parseExpr_more_fuel; [reflexivity | now apply parseExpr_total].
  - rewrite !parseTopLevelExpr_attempts, whole_line_more_fuel by exact H1.
    destruct (whole_line fuel line variables) as [[p|] vs1| |];
      try reflexivity.
    apply whole_line_more_fuel. pose proof (parenthesized_length line). lia.
Qed.

Lemma parser_terminates_witness :
  parseExpr 17 (lit "( [A] or [B] )") [] <> OutOfFuel
  /\ parseTopLevelExpr 16 (lit "[A] or [B]") [] <> OutOfFuel.
Proof.
  split.
  - apply (parser_terminates 17 (lit "( [A] or [B] )") []). simpl. lia.
  - apply (parser_terminates 16 (lit "[A] or [B]") []). simpl. lia.
Defined.

(** ** What the parser keeps of the registry *)

Lemma grows_refl (variables : registry) : grows variables variables.
Proof.
  split; [exists []; now rewrite app_nil_r | split; auto].
Qed.

Lemma grows_trans (v1 v2 v3 : registry) :
  grows v1 v2 -> grows v2 v3 -> grows v1 v3.
Proof.
  intros ([a1 ->] & Hd1 & Hl1) ([a2 ->] & Hd2 & Hl2).
  split; [exists (a1 ++ a2); now rewrite app_assoc | split; auto].
Qed.

Lemma grows_length (v1 v2 : registry) :
  grows v1 v2 -> (length v1 <= length v2)%nat.
Proof. intros ([a ->] & _). rewrite length_app. lia. Qed.

Lemma resolve_grows (var : string) (variables variables' : registry) (i : nat) :
  resolve var variables = Ok i variables' ->
  grows variables variables' /\ nth i variables' EmptyString = var.
Proof.
  intros H. pose proof (resolve_Ok _ _ _ _ H) as (Hi & Hlen & Hin & Hcase).
  destruct (in_dec string_dec var variables) as [Hold|Hnew].
  - assert (Hle : (length variables <= 32)%nat).
    { destruct Hcase as [-> | ->]; [exact Hlen|].
      rewrite length_app in Hlen. lia. }
    destruct (resolve_known var variables Hold Hle) as (k & Hk & _ & Hn & _).
    rewrite Hk in H. injection H as <- <-. split; [apply grows_refl | exact Hn].
  - rewrite (resolve_new _ _ Hnew) in H.
    destruct (_ <? _)%nat eqn:E; [|discriminate]. injection H as <- <-.
    split; [|apply nth_middle].
    split; [now exists [var]|]. split.
    + intros Hd. apply NoDup_app; [exact Hd | repeat constructor; auto|].
      intros a Ha [<-|[]]. contradiction.
    + intros _. exact Hlen.
Qed.

Lemma parseVar_kept (s : cstring) (variables : registry) :
  kept variables (parseVar s variables).
Proof.
  unfold parseVar. destruct (negb _).
  { split; [apply grows_refl | discriminate]. }
  destruct (scan_bracket _) as [len|].
  2:{ split; [apply grows_refl | discriminate]. }
  destruct (resolve _ variables) as [i vs| |] eqn:H; cbn [kept].
  - destruct (resolve_grows _ _ _ _ H) as [Hg _].
    apply resolve_Ok in H. split; [exact Hg|].
    intros n e [= <- <-]. cbn [below]. lia.
  - now apply resolve_Exit in H.
  - exact I.
Qed.

Lemma make_binary_below (op : string) (L R p : Expr) (k : Z) :
  make_binary op L R = Some p -> below k L -> below k R -> below k p.
Proof.
  unfold make_binary.
  repeat match goal with
         | |- context [if ?b then _ else _] => destruct b
         end; intros [= <-] HL HR; cbn; auto.
Qed.

Section KeptByParseExpr.

Variable rec : parser.

Hypothesis rec_kept : forall s variables, kept variables (rec s variables).

Lemma parseNot_with_kept s variables :
  kept variables (parseNot_with rec s variables).
Proof.
  unfold parseNot_with. destruct (negb _).
  2:{ split; [apply grows_refl | discriminate]. }
  pose proof (rec_kept (skipn (parseOneString s "!" "not") s) variables) as H.
  destruct (rec _ variables) as [r vs| |]; cbn [kept] in H |- *;
    [|exact H | exact I].
  destruct H as [Hg Hb].
  destruct (nonzero r) as [[m L]|] eqn:Hr; cbn [kept].
  - apply nonzero_Some in Hr. destruct Hr as [-> _].
    split; [exact Hg|]. intros n e [= <- <-]. cbn [below].
    now apply (Hb m L).
  - split; [exact Hg | discriminate].
Qed.

Lemma parseBinaryExpr_with_kept s variables :
  kept variables (parseBinaryExpr_with rec s variables).
Proof.
  unfold parseBinaryExpr_with. cbv zeta. destruct (negb _).
  { split; [apply grows_refl | discriminate]. }
  match goal with
  | |- context [rec ?e variables] => pose proof (rec_kept e variables) as H1;
                                     destruct (rec e variables) as [rL vs1| |]
  end; cbn [kept] in H1 |- *; [|exact H1 | exact I].
  destruct H1 as [Hg1 Hb1].
  destruct (nonzero rL) as [[nL L]|] eqn:HrL; cbn [kept].
  2:{ split; [exact Hg1 | discriminate]. }
  apply nonzero_Some in HrL. destruct HrL as [-> _].
  match goal with
  | |- context [rec ?e vs1] => pose proof (rec_kept e vs1) as H2;
                               destruct (rec e vs1) as [rR vs2| |]
  end; cbn [kept] in H2 |- *; [|exact H2 | exact I].
  destruct H2 as [Hg2 Hb2].
  pose proof (grows_trans _ _ _ Hg1 Hg2) as Hg.
  destruct (nonzero rR) as [[nR R]|] eqn:HrR; cbn [kept].
  2:{ split; [exact Hg | discriminate]. }
  apply nonzero_Some in HrR. destruct HrR as [-> _].
  destruct (negb _); cbn [kept].
  { split; [exact Hg | discriminate]. }
  destruct (make_binary _ L R) as [p|] eqn:Hop; cbn [kept].
  2:{ split; [exact Hg | discriminate]. }
  split; [exact Hg|]. intros n e [= <- <-].
  apply (make_binary_below _ L R _ _ Hop).
  - apply (below_le L (Z.of_nat (length vs1))); [now apply (Hb1 nL)|].
    apply grows_length in Hg2. lia.
  - now apply (Hb2 nR).
Qed.

End KeptByParseExpr.

Lemma parseExpr_kept (fuel : nat) :
  forall s variables, kept variables (parseExpr fuel s variables).
Proof.
  induction fuel as [|fuel IH]; intros s variables; [exact I|].
  rewrite parseExpr_S. cbv zeta.
  set (e := skipn (skipWS s) s).
  destruct (nonzero (parseTrue e)) as [[n p]|] eqn:H1.
  { split; [apply grows_refl|]. intros n' e' [= <- <-].
    apply nonzero_Some in H1. destruct H1 as [H1 _]. unfold parseTrue in H1.
    destruct (Ascii.eqb _ _); [injection H1 as <- <-; exact I|].
    destruct (negb _); [injection H1 as <- <-; exact I | discriminate]. }
  destruct (nonzero (parseFalse e)) as [[n p]|] eqn:H2.
  { split; [apply grows_refl|]. intros n' e' [= <- <-].
    apply nonzero_Some in H2. destruct H2 as [H2 _]. unfold parseFalse in H2.
    destruct (Ascii.eqb _ _); [injection H2 as <- <-; exact I|].
    destruct (negb _); [injection H2 as <- <-; exact I | discriminate]. }
  pose proof (parseVar_kept e variables) as H3.
  destruct (parseVar e variables) as [r1 vs1| |]; cbn [kept] in H3 |- *;
    [|exact H3 | exact I].
  destruct H3 as [Hg1 Hb1].
  destruct (nonzero r1) as [[n p]|] eqn:Hr1.
  { apply nonzero_Some in Hr1. destruct Hr1 as [-> _].
    split; [exact Hg1|]. intros n' e' [= <- <-]. now apply (Hb1 n). }
  pose proof (parseNot_with_kept _ IH e vs1) as H4.
  destruct (parseNot_with _ e vs1) as [r2 vs2| |]; cbn [kept] in H4 |- *;
    [|exact H4 | exact I].
  destruct H4 as [Hg2 Hb2]. pose proof (grows_trans _ _ _ Hg1 Hg2) as Hg12.
  destruct (nonzero r2) as [[n p]|] eqn:Hr2.
  { apply nonzero_Some in Hr2. destruct Hr2 as [-> _].
    split; [exact Hg12|]. intros n' e' [= <- <-]. now apply (Hb2 n). }
  pose proof (parseBinaryExpr_with_kept _ IH e vs2) as H5.
  destruct (parseBinaryExpr_with _ e vs2) as [r3 vs3| |]; cbn [kept] in H5 |- *;
    [|exact H5 | exact I].
  destruct H5 as [Hg3 Hb3]. pose proof (grows_trans _ _ _ Hg12 Hg3) as Hg.
  destruct (nonzero r3) as [[n p]|] eqn:Hr3.
  { apply nonzero_Some in Hr3. destruct Hr3 as [-> _].
    split; [exact Hg|]. intros n' e' [= <- <-]. now apply (Hb3 n). }
  split; [exact Hg | discriminate].
Qed.

Lemma whole_line_kept (fuel : nat) (text : cstring) (variables : registry) :
  kept_top variables (whole_line fuel text variables).
Proof.
  unfold whole_line. pose proof (parseExpr_kept fuel text variables) as H.
  destruct (parseExpr fuel text variables) as [[[n p]|] vs| |];
    cbn [kept] in H; cbn [kept_top]; try exact H.
  - destruct H as [Hg Hb]. destruct (_ && _); cbn [kept_top].
    + split; [exact Hg|]. intros e [= <-]. now apply (Hb n).
    + split; [exact Hg | discriminate].
  - destruct H as [Hg _]. split; [exact Hg | discriminate].
Qed.

Lemma parseTopLevelExpr_kept (fuel : nat) (line : cstring)
  (variables : registry) :
  kept_top variables (parseTopLevelExpr fuel line variables).
Proof.
  rewrite parseTopLevelExpr_attempts.
  pose proof (whole_line_kept fuel line variables) as H1.
  destruct (whole_line fuel line variables) as [[p|] vs1| |];
    cbn [kept_top] in H1 |- *; try exact H1.
  destruct H1 as [Hg1 _].
  pose proof (whole_line_kept fuel (parenthesized line) vs1) as H2.
  destruct (whole_line fuel (parenthesized line) vs1) as [r vs2| |];
    cbn [kept_top] in H2 |- *; try exact H2.
  destruct H2 as [Hg2 Hb2]. split; [|exact Hb2].
  exact (grows_trans _ _ _ Hg1 Hg2).
Qed.

Lemma read_lines_kept (lines : list cstring) :
  forall linenum variables propositions,
    NoDup variables ->
    (length variables <= 32)%nat ->
    Forall (below (Z.of_nat (length variables))) propositions ->
    match read_lines lines linenum variables propositions with
    | Some (inr (variables', propositions')) =>
        grows variables variables'
        /\ NoDup variables'
        /\ (length variables' <= 32)%nat
        /\ Forall (below (Z.of_nat (length variables'))) propositions'
        /\ length propositions'
           = (length propositions + length (filter proposition_line lines))%nat
    | Some (inl r) =>
        exit_code r = 1
        /\ (output r = [Over32Variables]
            \/ exists k, output r = [SyntaxErrorLine k]
                         /\ (linenum < k <= linenum + length lines)%nat)
    | None => False
    end.
Proof.
  induction lines as [|line lines IH];
    intros linenum variables propositions Hd Hl Hb.
  { cbn. split; [apply grows_refl|]. split; [exact Hd|]. split; [exact Hl|].
    split; [exact Hb | lia]. }
  destruct (proposition_line line) eqn:Hp.
  - rewrite read_lines_proposition by exact Hp.
    cbn [filter]. rewrite Hp.
    pose proof (parseTopLevelExpr_kept (3 + length line) line variables) as Hk.
    pose proof (parseTopLevelExpr_total (3 + length line) line variables) as Ht.
    destruct (parseTopLevelExpr _ line variables) as [[p|] vs| |];
      cbn [kept_top] in Hk.
    + destruct Hk as [Hg Hbp]. pose proof Hg as (_ & Hd' & Hl').
      pose proof (grows_length _ _ Hg) as Hlen.
      specialize (IH (S linenum) vs (propositions ++ [p]) (Hd' Hd) (Hl' Hl)).
      assert (Hb' : Forall (below (Z.of_nat (length vs)))
                     (propositions ++ [p])).
      { apply Forall_app. split.
        - eapply Forall_impl; [|exact Hb].
          intros e He. apply (below_le e _ _ He). lia.
        - constructor; [now apply Hbp | constructor]. }
      specialize (IH Hb').
      destruct (read_lines lines (S linenum) vs (propositions ++ [p]))
        as [[r|[vs' ps']]|]; [| |exact IH].
      * destruct IH as [He [Ho|(k & Ho & Hk)]]; split; auto.
        right. exists k. cbn [length]. split; [exact Ho | lia].
      * destruct IH as (Hg' & Hd'' & Hl'' & Hb'' & Hlen').
        repeat split; try assumption.
        -- exact (proj1 (grows_trans _ _ _ Hg Hg')).
        -- intros _. exact Hd''.
        -- intros _. exact Hl''.
        -- rewrite Hlen', length_app. cbn [length]. lia.
    + cbn [exit_code output]. split; [reflexivity|]. right.
      exists (S linenum). cbn [length]. split; [reflexivity | lia].
    + subst. cbn [exit_code output]. split; [reflexivity | now left].
    + apply Ht; [lia | reflexivity].
  - assert (Hskip : read_lines (line :: lines) linenum variables propositions
                    = read_lines lines (S linenum) variables propositions).
    { unfold proposition_line in Hp. cbn [read_lines].
      destruct (Ascii.eqb (deref line) "/" && _) eqn:E; [reflexivity|].
      cbn [negb andb] in Hp. apply negb_false_iff in Hp. now rewrite Hp. }
    rewrite Hskip. cbn [filter]. rewrite Hp.
    specialize (IH (S linenum) variables propositions Hd Hl Hb).
    destruct (read_lines lines (S linenum) variables propositions)
      as [[r|[vs' ps']]|]; [|exact IH | exact IH].
    destruct IH as [He [Ho|(k & Ho & Hk)]]; split; auto.
    right. exists k. cbn [length]. split; [exact Ho | lia].
Qed.



(** ** What [main] returns *)

Lemma read_lines_without_propositions (lines : list cstring) :
  forall linenum variables propositions,
    filter proposition_line lines = [] ->
    read_lines lines linenum variables propositions
    = Some (inr (variables, propositions)).
Proof.
  induction lines as [|line lines IH]; intros linenum variables propositions H;
    [reflexivity|].
  cbn [filter] in H. destruct (proposition_line line) eqn:Hp; [discriminate|].
  unfold proposition_line in Hp. cbn [read_lines].
  destruct (Ascii.eqb (deref line) "/" && _) eqn:E; [now apply IH|].
  cbn [negb andb] in Hp. apply negb_false_iff in Hp. rewrite Hp.
  now apply IH.
Qed.



Lemma report_head (wbits : Z) (variables : registry) (x : U32) :
  hd_error (report wbits variables x) = Some TheoremIsFalse.
Proof. reflexivity. Qed.

(** The ways out of [main] once the file is open. *)
Lemma main_outcomes (wbits : Z) (fuel : nat) (lines : list cstring)
  (r : run) :
  32 <= wbits ->
  main wbits fuel lines = Some r ->
  ((exit_code r = 0
    /\ (output r = [TheoremVerified] \/ output r = [AxiomsNotConsistent]))
   \/ (exit_code r = 1
       /\ (output r = [NoTheorem]
           \/ output r = [Over32Variables]
           \/ (exists k, output r = [SyntaxErrorLine k]
                         /\ (1 <= k <= length lines)%nat)
           \/ hd_error (output r) = Some TheoremIsFalse)))
  /\ (output r = [NoTheorem] <-> filter proposition_line lines = []).
Proof.
  intros Hw. unfold main.
  pose proof (read_lines_kept lines O [] [] (NoDup_nil _) ltac:(simpl; lia)
                (Forall_nil _)) as Hk.
  pose proof (read_lines_without_propositions lines O [] []) as Hnone.
  destruct (read_lines lines O [] []) as [[e|[vs ps]]|]; [| |destruct Hk].
  - intros [= <-]. destruct Hk as [He [Ho|(k & Ho & Hk)]].
    + split.
      * right. split; [exact He|]. right. now left.
      * rewrite Ho. split; [discriminate|].
        intros H. specialize (Hnone H). discriminate.
    + split.
      * right. split; [exact He|]. right. right. left. exists k.
        split; [exact Ho | lia].
      * rewrite Ho. split; [discriminate|].
        intros H. specialize (Hnone H). discriminate.
  - destruct Hk as (_ & _ & _ & _ & Hlen). cbn [length Nat.add] in Hlen.
    assert (Hnil : filter proposition_line lines = [] <-> length ps = O).
    { rewrite Hlen. split; [now intros ->|apply length_zero_iff_nil]. }
    destruct (Nat.ltb_spec (length ps) 1) as [Hlt|Hge].
    + intros [= <-]. cbn [output exit_code]. split.
      * right. split; [reflexivity|]. now left.
      * split; [intros _; apply Hnil; lia | reflexivity].
    + intros Hr.
      destruct (check_cases wbits Hw vs ps)
        as [(x0 & _ & _ & _ & Hrun)|[(_ & _ & Hrun)|(_ & _ & Hno)]].
      * rewrite (check_deterministic wbits vs ps _ _ _ _ Hr (Hrun O)).
        cbn [output exit_code]. split.
        { right. split; [reflexivity|]. right. right. right.
          apply report_head. }
        { split; [intros H; discriminate H | intros H; apply Hnil in H; lia]. }
      * rewrite (check_deterministic wbits vs ps _ _ _ _ Hr (Hrun O)).
        cbn [output exit_code]. split.
        { left. split; [reflexivity|].
          destruct (existsb _ _); [now left | now right]. }
        { split; [|intros H; apply Hnil in H; lia].
          destruct (existsb _ _); discriminate. }
      * rewrite Hno in Hr. discriminate.
Qed.

(** X9. The ways out of [main], from the command line on. The exit code
    is 0 exactly for the two verdicts "verified" and "not consistent";
    every other way out returns 1 and has printed what went wrong: the
    usage (exactly when no file is named), that the file cannot be opened
    (exactly when one is named and [fopen] fails), that there is no
    theorem (exactly when the file was opened and has no proposition
    line), too many variables, a syntax error with the number of a line
    that was read from the file, or that the theorem is false. *)
Theorem main_exit_code :
  forall (wbits : Z) (fuel : nat) (argv : list string)
         (fopen : string -> option (list ascii)) (r : run),
    32 <= wbits ->
    propcheck wbits fuel argv fopen = Some r ->
    ((exit_code r = 0
      /\ (output r = [TheoremVerified] \/ output r = [AxiomsNotConsistent]))
     \/ (exit_code r = 1
         /\ (output r = [Usage]
             \/ output r = [CannotOpen]
             \/ output r = [NoTheorem]
             \/ output r = [Over32Variables]
             \/ (exists k, output r = [SyntaxErrorLine k])
             \/ hd_error (output r) = Some TheoremIsFalse)))
    /\ (output r = [Usage] <-> (length argv < 2)%nat)
    /\ (output r = [CannotOpen] <->
        (2 <= length argv)%nat /\ fopen (nth 1 argv EmptyString) = None)
    /\ (output r = [NoTheorem] <->
        (2 <= length argv)%nat
        /\ exists contents,
            fopen (nth 1 argv EmptyString) = Some contents
            /\ filter proposition_line (fgets_lines contents) = [])
    /\ (forall k,
           output r = [SyntaxErrorLine k] ->
           exists contents,
             fopen (nth 1 argv EmptyString) = Some contents
             /\ (1 <= k <= length (fgets_lines contents))%nat).
Proof.
  intros wbits fuel argv fopen r Hw. unfold propcheck.
  destruct (Nat.ltb_spec (length argv) 2) as [Hargc|Hargc].
  { intros [= <-]. cbn [output exit_code]. split; [|split; [|split; [|split]]].
    - right. split; [reflexivity|]. now left.
    - split; [intros _; exact Hargc | reflexivity].
    - split; [discriminate | intros [H _]; lia].
    - split; [discriminate | intros [H _]; lia].
    - discriminate. }
  destruct (fopen (nth 1 argv EmptyString)) as [contents|].
  2:{ intros [= <-]. cbn [output exit_code].
      split; [|split; [|split; [|split]]].
      - right. split; [reflexivity|]. right. now left.
      - split; [discriminate | lia].
      - split; [intros _; split; [exact Hargc | reflexivity] | reflexivity].
      - split; [discriminate | intros (_ & c & Hc & _); discriminate].
      - discriminate. }
  intros Hr.
  destruct (main_outcomes wbits fuel (fgets_lines contents) r Hw Hr)
    as [Hout Hnone].
  assert (Hshape : output r <> [Usage] /\ output r <> [CannotOpen]).
  { destruct Hout as [[_ [Ho|Ho]]|[_ [Ho|[Ho|[(k & Ho & _)|Ho]]]]];
      split; intros E; rewrite E in Ho; discriminate. }
  split; [|split; [|split; [|split]]].
  - destruct Hout as [H|[He [Ho|[Ho|[(k & Ho & _)|Ho]]]]]; [now left|..];
      right; (split; [exact He|]).
    + right. right. now left.
    + right. right. right. now left.
    + right. right. right. right. left. now exists k.
    + right. right. right. right. now right.
  - split; [intros E; now destruct Hshape | lia].
  - split; [intros E; now destruct Hshape | intros [_ H]; discriminate].
  - rewrite Hnone. split.
    + intros H. split; [exact Hargc|]. now exists contents.
    + intros (_ & c & [= <-] & H). exact H.
  - intros k Hk. exists contents. split; [reflexivity|].
    destruct Hout as [[_ [Ho|Ho]]|[_ [Ho|[Ho|[(k' & Ho & Hb)|Ho]]]]];
      rewrite Hk in Ho; try discriminate.
    injection Ho as <-. exact Hb.
Qed.

Lemma main_exit_code_witness :
  ((exit_code (Run [] [SyntaxErrorLine 2] 1) = 0
    /\ (output (Run [] [SyntaxErrorLine 2] 1) = [TheoremVerified]
        \/ output (Run [] [SyntaxErrorLine 2] 1) = [AxiomsNotConsistent]))
   \/ (exit_code (Run [] [SyntaxErrorLine 2] 1) = 1
       /\ (output (Run [] [SyntaxErrorLine 2] 1) = [Usage]
           \/ output (Run [] [SyntaxErrorLine 2] 1) = [CannotOpen]
           \/ output (Run [] [SyntaxErrorLine 2] 1) = [NoTheorem]
           \/ output (Run [] [SyntaxErrorLine 2] 1) = [Over32Variables]
           \/ (exists k,
                 output (Run [] [SyntaxErrorLine 2] 1) = [SyntaxErrorLine k])
           \/ hd_error (output (Run [] [SyntaxErrorLine 2] 1))
              = Some TheoremIsFalse)))
  /\ (output (Run [] [SyntaxErrorLine 2] 1) = [Usage] <-> (2 < 2)%nat)
  /\ (output (Run [] [SyntaxErrorLine 2] 1) = [CannotOpen] <->
      (2 <= 2)%nat
      /\ Some (lit "[A]" ++ newline :: lit "( [A] [B] )" ++ [newline])
         = None)
  /\ (output (Run [] [SyntaxErrorLine 2] 1) = [NoTheorem] <->
      (2 <= 2)%nat
      /\ exists contents,
          Some (lit "[A]" ++ newline :: lit "( [A] [B] )" ++ [newline])
          = Some contents
          /\ filter proposition_line (fgets_lines contents) = [])
  /\ (forall k,
         output (Run [] [SyntaxErrorLine 2] 1) = [SyntaxErrorLine k] ->
         exists contents,
           Some (lit "[A]" ++ newline :: lit "( [A] [B] )" ++ [newline])
           = Some contents
           /\ (1 <= k <= length (fgets_lines contents))%nat).
Proof.
  apply (main_exit_code 64 O ["propcheck"; "theory.txt"]%string
           (fun _ =>
              Some (lit "[A]" ++ newline :: lit "( [A] [B] )" ++ [newline]))).
  - lia.
  - vm_compute. reflexivity.
Defined.

(** ** The verdict is about all assignments *)

Lemma holds_mod (e : Expr) (k : Z) (x : U32) :
  below k e -> holds (x mod 2 ^ k) e = holds x e.
Proof. intros H. unfold holds. now rewrite eval_mod. Qed.

Lemma model_mod (propositions : list Expr) (k : Z) (x : U32) :
  Forall (below k) propositions ->
  model propositions (x mod 2 ^ k) = model propositions x.
Proof.
  intros H. unfold model, axioms.
  assert (Ha : Forall (below k) (removelast propositions)).
  { apply Forall_forall. intros e He.
    apply (proj1 (Forall_forall _ _) H). revert He. clear.
    induction propositions as [|a [|b l] IH]; cbn; tauto. }
  induction Ha as [|e l He Hl IH]; [reflexivity|].
  cbn [forallb]. now rewrite holds_mod, IH.
Qed.

Lemma theorem_below (propositions : list Expr) (k : Z) :
  Forall (below k) propositions -> below k (theorem propositions).
Proof.
  unfold theorem. induction 1 as [|e [|b l] He Hl IH]; cbn; auto.
Qed.

Lemma counterexample_mod (propositions : list Expr) (k : Z) (x : U32) :
  Forall (below k) propositions ->
  counterexample propositions (x mod 2 ^ k) = counterexample propositions x.
Proof.
  intros H. unfold counterexample.
  rewrite model_mod, holds_mod by auto using theorem_below. reflexivity.
Qed.

(** Every word is, on the variables, one of the words below the bound of
    the loop. *)
Lemma mod_below_loop_bound (n : nat) (x : Z) :
  0 <= x mod 2 ^ Z.of_nat n <= loop_bound n - 1.
Proof.
  assert (H : 0 <= x mod 2 ^ Z.of_nat n < 2 ^ Z.of_nat n).
  { apply Z.mod_pos_bound. apply Z.pow_pos_nonneg; lia. }
  unfold loop_bound. destruct (Nat.eqb_spec n 0) as [->|_].
  - change (2 ^ Z.of_nat 0) with 1 in *. lia.
  - set (m := 2 ^ Z.of_nat n) in *. lia.
Qed.

Lemma check_semantics (wbits : Z) (fuel : nat) (variables : registry)
  (propositions : list Expr) (r : run) :
  32 <= wbits ->
  (length variables <= 32)%nat ->
  Forall (below (Z.of_nat (length variables))) propositions ->
  check wbits fuel variables propositions = Some r ->
  (output r = [TheoremVerified] ->
   (forall x, model propositions x = true ->
              holds x (theorem propositions) = true)
   /\ exists x, model propositions x = true)
  /\ (output r = [AxiomsNotConsistent] ->
      forall x, model propositions x = false)
  /\ (hd_error (output r) = Some TheoremIsFalse ->
      exists x, counterexample propositions x = true
                /\ output r = report wbits variables x).
Proof.
  intros Hw Hn Hb Hr.
  destruct (check_cases wbits Hw variables propositions)
    as [(x0 & _ & Hc0 & _ & Hrun)|[(Hno & Hlt & Hrun)|(_ & _ & Hnone)]].
  - rewrite (check_deterministic wbits variables propositions _ _ _ _ Hr
               (Hrun O)). cbn [output].
    split; [discriminate|]. split; [discriminate|].
    intros _. now exists x0.
  - rewrite (check_deterministic wbits variables propositions _ _ _ _ Hr
               (Hrun O)). cbn [output].
    assert (Hn31 : (length variables <= 31)%nat).
    { destruct (Nat.eq_dec (length variables) 32) as [E|]; [|lia].
      rewrite (compute_max_32 wbits Hw variables E) in Hlt. lia. }
    pose proof (compute_max_small wbits Hw variables Hn31) as Hmax.
    assert (Hall : forall x, counterexample propositions x = false).
    { intros x. rewrite <- (counterexample_mod _ _ x Hb).
      apply Hno. rewrite Hmax. apply mod_below_loop_bound. }
    destruct (existsb (model propositions) _) eqn:Hex.
    + split; [|split; discriminate]. intros _. split.
      * intros x Hm. specialize (Hall x). unfold counterexample in Hall.
        rewrite Hm in Hall. cbn [andb] in Hall.
        now apply negb_false_iff in Hall.
      * apply existsb_exists in Hex. destruct Hex as (x & _ & Hm). now exists x.
    + split; [discriminate|]. split; [|discriminate]. intros _ x.
      rewrite <- (model_mod _ _ x Hb).
      apply (existsb_false _ _ Hex). apply In_zrange. rewrite Hmax.
      pose proof (mod_below_loop_bound (length variables) x). lia.
  - rewrite Hnone in Hr. discriminate.
Qed.

(** X10. The verdicts of [main] are about every assignment, not only the
    enumerated ones. For the propositions read from the file: "verified"
    means that every assignment word that satisfies all axioms satisfies
    the theorem, and that some assignment satisfies all axioms; "not
    consistent" means that no assignment word satisfies all axioms;
    "theorem is false" comes with an assignment that satisfies all axioms
    and falsifies the theorem, the one whose table is printed. *)
Theorem main_decides_entailment :
  forall (wbits : Z) (fuel : nat) (lines : list cstring)
         (variables : registry) (propositions : list Expr) (r : run),
    32 <= wbits ->
    read_lines lines O [] [] = Some (inr (variables, propositions)) ->
    main wbits fuel lines = Some r ->
    (output r = [TheoremVerified] ->
     (forall x, model propositions x = true ->
                holds x (theorem propositions) = true)
     /\ exists x, model propositions x = true)
    /\ (output r = [AxiomsNotConsistent] ->
        forall x, model propositions x = false)
    /\ (hd_error (output r) = Some TheoremIsFalse ->
        exists x, counterexample propositions x = true
                  /\ output r
                     = TheoremIsFalse
                       :: (if (1 <=? length variables)%nat
                           then [CounterexampleTitle; TableHeader] else [])
                       ++ truth_table variables x).
Proof.
  intros wbits fuel lines variables propositions r Hw Hread.
  pose proof (read_lines_kept lines O [] [] (NoDup_nil _) ltac:(simpl; lia)
                (Forall_nil _)) as Hk.
  unfold main. rewrite Hread in Hk |- *.
  destruct Hk as (_ & _ & Hn & Hb & _).
  destruct (length propositions <? 1)%nat.
  { intros [= <-]. cbn [output hd_error]. repeat split; discriminate. }
  intros Hr.
  destruct (check_semantics wbits fuel variables propositions r Hw Hn Hb Hr)
    as (H1 & H2 & H3).
  split; [exact H1|]. split; [exact H2|].
  intros Hh. destruct (H3 Hh) as (x & Hc & Ho). exists x.
  split; [exact Hc|]. rewrite Ho. apply report_truth_table. lia.
Qed.

Lemma main_decides_entailment_witness :
  (forall x, model [Var 0; Implies (Var 0) (Var 1); Var 1] x = true ->
             holds x (theorem [Var 0; Implies (Var 0) (Var 1); Var 1]) = true)
  /\ exists x, model [Var 0; Implies (Var 0) (Var 1); Var 1] x = true.
Proof.
  apply (main_decides_entailment 64 5
           [lit "[A]"; lit "( [A] => [B] )"; lit "[B]"]
           ["A"; "B"]%string [Var 0; Implies (Var 0) (Var 1); Var 1]
           (Run [Visit 0 1 false; Visit 1 2 false; Visit 2 1 false;
                 Visit 3 2 true] [TheoremVerified] 0)).
  - lia.
  - reflexivity.
  - reflexivity.
  - reflexivity.
Defined.

(** ** Comments and blank lines *)





(** ** Lines that cannot begin an expression *)

Lemma skipWS_stops (s : cstring) : isspace (first_char s) = false.
Proof.
  unfold first_char. induction s as [|c s IH]; [reflexivity|].
  cbn [skipWS]. destruct (isspace c) eqn:Hc; [exact IH | exact Hc].
Qed.

Lemma skipWS_first_char (s : cstring) :
  skipWS (skipn (skipWS s) s) = O
  /\ first_char (skipn (skipWS s) s) = first_char s.
Proof.
  assert (H : skipWS (skipn (skipWS s) s) = O).
  { pose proof (skipWS_stops s) as Hs. unfold first_char in Hs.
    destruct (skipn (skipWS s) s) as [|c e]; [reflexivity|].
    cbn [deref hd] in Hs. cbn [skipWS]. now rewrite Hs. }
  split; [exact H|]. unfold first_char. now rewrite H.
Qed.

Lemma parseExpr_rejects (fuel : nat) (s : cstring) (variables : registry) :
  starts_expression (first_char s) = false ->
  parseExpr (S fuel) s variables = Ok None variables.
Proof.
  intros H. rewrite parseExpr_S. cbv zeta.
  pose proof (skipWS_stops s) as Hsp. unfold first_char in H, Hsp.
  destruct (skipn (skipWS s) s) as [|c e]; [reflexivity|].
  cbn [deref hd] in H, Hsp. unfold starts_expression in H.
  repeat (apply orb_false_elim in H; destruct H as [H ?]).
  unfold parseTrue, parseFalse, parseVar, parseNot_with, parseBinaryExpr_with,
    parseOneString, parseString.
  cbn [deref hd lit list_ascii_of_string parseString_loop skipWS].
  rewrite Hsp. cbn [skipn deref hd].
  repeat match goal with
         | E : Ascii.eqb c _ = false |- _ => rewrite E; clear E
         end.
  rewrite !andb_false_r. reflexivity.
Qed.

Lemma first_char_c_str (line t : cstring) :
  Ascii.eqb (first_char line) NUL = false ->
  first_char (c_str line ++ t) = first_char line.
Proof.
  unfold first_char. induction line as [|c line IH]; [discriminate|].
  cbn [skipWS c_str]. destruct (isspace c) eqn:Hc.
  - rewrite (isspace_not_NUL c Hc). cbn [skipn app skipWS]. rewrite Hc.
    exact IH.
  - cbn [skipn deref hd]. intros ->. cbn [app skipWS]. now rewrite Hc.
Qed.

(** X12. A proposition has to begin, after white space, with one of the
    characters [T t F f [ ! n (]. A line that begins with anything else
    (an indented comment, say) fails both attempts of the top level
    without touching the registry, and [main] reports a syntax error at
    that line and returns 1. *)
Theorem wrong_first_character :
  forall (line : cstring) (rest : list cstring) (linenum fuel : nat)
         (variables : registry) (propositions : list Expr),
    proposition_line line = true ->
    starts_expression (first_char line) = false ->
    parseTopLevelExpr (S (S fuel)) line variables = Ok None variables
    /\ read_lines (line :: rest) linenum variables propositions
       = Some (inl (Run [] [SyntaxErrorLine (S linenum)] 1)).
Proof.
  intros line rest linenum fuel variables propositions Hp Hc.
  assert (Hnul : Ascii.eqb (first_char line) NUL = false).
  { unfold proposition_line in Hp. apply andb_prop in Hp.
    destruct Hp as [_ Hp]. now apply negb_true_iff in Hp. }
  assert (Htop : forall f, parseTopLevelExpr (S (S f)) line variables
                           = Ok None variables).
  { intros f. unfold parseTopLevelExpr.
    rewrite (parseExpr_rejects (S f) line variables Hc). cbv zeta.
    cbn [nonzero].
    rewrite parseExpr_S. cbv zeta.
    change (skipWS (lit "(" ++ c_str line ++ lit ")")) with O.
    cbn [skipn].
    change (nonzero (parseTrue (lit "(" ++ c_str line ++ lit ")")))
      with (@None (nat * Expr)).
    change (nonzero (parseFalse (lit "(" ++ c_str line ++ lit ")")))
      with (@None (nat * Expr)).
    change (parseVar (lit "(" ++ c_str line ++ lit ")") variables)
      with (Ok (@None (nat * Expr)) variables).
    cbn [nonzero].
    change (parseNot_with (parseExpr (S f))
              (lit "(" ++ c_str line ++ lit ")") variables)
      with (Ok (@None (nat * Expr)) variables).
    cbn [nonzero].
    unfold parseBinaryExpr_with. cbv zeta.
    change (skipWS (lit "(" ++ c_str line ++ lit ")")) with O.
    cbn [skipn].
    change (deref (lit "(" ++ c_str line ++ lit ")")) with "("%char.
    change (tl (lit "(" ++ c_str line ++ lit ")"))
      with (c_str line ++ lit ")").
    cbn [Ascii.eqb Bool.eqb negb andb].
    rewrite (parseExpr_rejects f).
    - reflexivity.
    - rewrite (proj2 (skipWS_first_char _)), first_char_c_str by exact Hnul.
      exact Hc. }
  split; [apply Htop|].
  rewrite read_lines_proposition by exact Hp.
  change (3 + length line)%nat with (S (S (S (length line)))).
  now rewrite Htop.
Qed.

Lemma wrong_first_character_witness :
  parseTopLevelExpr 2 (lit "  // indented") ["A"]%string
  = Ok None ["A"]%string
  /\ read_lines [lit "  // indented"; lit "[A]"] 4 ["A"]%string [Var 0]
     = Some (inl (Run [] [SyntaxErrorLine 5] 1)).
Proof.
  apply (wrong_first_character (lit "  // indented") [lit "[A]"] 4 O
           ["A"]%string [Var 0]);
    reflexivity.
Defined.

(** ** The full registry *)

(** X13. With 32 registered variables the bound of the loop is the
    largest word ([1<<31] is negative as an [int] and sets every higher
    bit of [max]), so the test [x<=max] never fails: the check can only
    return through a counterexample, with exit code 1, and when no
    assignment word is a counterexample it does not return at all. *)
Theorem check_with_32_variables :
  forall (wbits : Z) (variables : registry) (propositions : list Expr),
    32 <= wbits ->
    length variables = 32%nat ->
    compute_max wbits variables = 2 ^ wbits - 1
    /\ (forall fuel r,
           check wbits fuel variables propositions = Some r ->
           exit_code r = 1)
    /\ ((forall y, 0 <= y < 2 ^ wbits ->
                   counterexample propositions y = false) ->
        forall fuel, check wbits fuel variables propositions = None).
Proof.
  intros wbits variables propositions Hw Hn.
  pose proof (compute_max_32 wbits Hw variables Hn) as Hmax.
  split; [exact Hmax|]. split.
  - intros fuel r Hr.
    destruct (check_cases wbits Hw variables propositions)
      as [(x0 & _ & _ & _ & Hrun)|[(_ & Hlt & _)|(_ & _ & Hnone)]].
    + now rewrite (check_deterministic wbits variables propositions _ _ _ _
                     Hr (Hrun O)).
    + lia.
    + rewrite Hnone in Hr. discriminate.
  - now apply check_32_variables_diverges.
Qed.

Lemma check_with_32_variables_witness :
  compute_max 64 (map string_of_list_ascii (sample_lines 32)) = 2 ^ 64 - 1
  /\ (forall fuel r,
         check 64 fuel (map string_of_list_ascii (sample_lines 32))
           [Or (Var 31) (Not (Var 31))] = Some r ->
         exit_code r = 1)
  /\ ((forall y, 0 <= y < 2 ^ 64 ->
                 counterexample [Or (Var 31) (Not (Var 31))] y = false) ->
      forall fuel,
        check 64 fuel (map string_of_list_ascii (sample_lines 32))
          [Or (Var 31) (Not (Var 31))] = None).
Proof.
  apply (check_with_32_variables 64
           (map string_of_list_ascii (sample_lines 32))
           [Or (Var 31) (Not (Var 31))]).
  - lia.
  - reflexivity.
Defined.

(** ** Reading back what is written in the notation of the header *)

Lemma skipWS_cons_nonspace (c : ascii) (t : cstring) :
  isspace c = false -> skipWS (c :: t) = O.
Proof. intros H. cbn [skipWS]. now rewrite H. Qed.

Lemma skipWS_cons_space (c : ascii) (t : cstring) :
  isspace c = true -> skipWS (c :: t) = S (skipWS t).
Proof. intros H. cbn [skipWS]. now rewrite H. Qed.

Lemma infix_app (tok l r rest : cstring) :
  infix tok l r ++ rest
  = "("%char :: " "%char :: l ++ " "%char :: tok ++ " "%char :: r
    ++ " "%char :: ")"%char :: rest.
Proof.
  unfold infix. cbn [app]. do 2 f_equal.
  rewrite <- app_assoc. cbn [app]. do 2 f_equal.
  rewrite <- app_assoc. cbn [app]. do 2 f_equal.
  rewrite <- app_assoc. reflexivity.
Qed.

Lemma infix_length (tok l r : cstring) :
  length (infix tok l r) = (length l + length tok + length r + 6)%nat.
Proof.
  unfold infix. cbn [length]. rewrite length_app. cbn [length].
  rewrite length_app. cbn [length]. rewrite length_app. cbn [length]. lia.
Qed.

(** An opening parenthesis leaves only [parseBinaryExpr]. *)
Lemma parseExpr_paren (fuel : nat) (t : cstring) (variables : registry) :
  parseExpr (S fuel) ("("%char :: t) variables
  = match parseBinaryExpr_with (parseExpr fuel) ("("%char :: t) variables with
    | Ok r variables' =>
        match nonzero r with
        | Some (n, p) => Ok (Some (n, p)) variables'
        | None => Ok None variables'
        end
    | Exit code => Exit code
    | OutOfFuel => OutOfFuel
    end.
Proof. reflexivity. Qed.

Lemma parseExpr_bang (fuel : nat) (s : cstring)
  (variables variables' : registry) (n : nat) (p : Expr) :
  parseExpr fuel s variables = Ok (Some (n, p)) variables' ->
  parseExpr (S fuel) ("!"%char :: s) variables
  = Ok (Some (S n, Not p)) variables'.
Proof.
  intros H. pose proof (parseExpr_good _ _ _ _ _ H n p eq_refl) as [Hn _].
  rewrite parseExpr_S. cbv zeta.
  change (skipWS ("!"%char :: s)) with O.
  change (skipn 0 ("!"%char :: s)) with ("!"%char :: s).
  change (nonzero (parseTrue ("!"%char :: s))) with (@None (nat * Expr)).
  change (nonzero (parseFalse ("!"%char :: s))) with (@None (nat * Expr)).
  change (parseVar ("!"%char :: s) variables)
    with (Ok (@None (nat * Expr)) variables).
  cbn [nonzero].
  change (parseNot_with (parseExpr fuel) ("!"%char :: s) variables)
    with (match parseExpr fuel s variables with
          | Ok r variables' =>
              match nonzero r with
              | Some (m, L) => Ok (Some ((1 + m)%nat, Not L)) variables'
              | None => Ok None variables'
              end
          | Exit code => Exit code
          | OutOfFuel => OutOfFuel
          end).
  rewrite H. cbn [nonzero].
  destruct (Nat.eqb_spec n 0); [lia|]. cbn [nonzero Nat.add Nat.eqb].
  reflexivity.
Qed.

(** A binary expression with single blanks around its parts. *)
Lemma parseExpr_infix (fuel : nat) (tok sL sR rest : cstring) (L R p : Expr)
  (variables : registry) :
  (forall t, skipWS (sL ++ t) = O) ->
  (forall t, skipWS (sR ++ t) = O) ->
  (forall t, skipWS (tok ++ t) = O) ->
  (forall t, scan_op (tok ++ " "%char :: t) = length tok) ->
  make_binary (string_of_list_ascii tok) L R = Some p ->
  (0 < length sL)%nat -> (0 < length sR)%nat ->
  parseExpr fuel
    (sL ++ " "%char :: tok ++ " "%char :: sR ++ " "%char :: ")"%char :: rest)
    variables = Ok (Some (length sL, L)) variables ->
  parseExpr fuel (sR ++ " "%char :: ")"%char :: rest) variables
  = Ok (Some (length sR, R)) variables ->
  parseExpr (S fuel) (infix tok sL sR ++ rest) variables
  = Ok (Some (length (infix tok sL sR), p)) variables.
Proof.
  intros HsL HsR Htok Hscan Hmk HlL HlR HL HR.
  rewrite infix_app, infix_length, parseExpr_paren.
  unfold parseBinaryExpr_with. cbv zeta.
  rewrite (skipWS_cons_nonspace "(") by reflexivity.
  cbn [skipn deref hd tl]. rewrite Ascii.eqb_refl. cbn [negb].
  rewrite (skipWS_cons_space " ") by reflexivity.
  rewrite HsL. cbn [skipn]. rewrite HL. cbn [nonzero].
  destruct (Nat.eqb_spec (length sL) 0) as [E|_]; [lia|].
  rewrite skipn_app_length.
  rewrite (skipWS_cons_space " ") by reflexivity.
  rewrite Htok. cbn [skipn]. rewrite Hscan.
  rewrite firstn_app_length, skipn_app_length.
  rewrite (skipWS_cons_space " ") by reflexivity.
  rewrite HsR. cbn [skipn]. rewrite HsR. cbn [skipn]. rewrite HR.
  cbn [nonzero].
  destruct (Nat.eqb_spec (length sR) 0) as [E|_]; [lia|].
  rewrite skipn_app_length.
  rewrite (skipWS_cons_space " ") by reflexivity.
  rewrite (skipWS_cons_nonspace ")") by reflexivity.
  cbn [skipn deref hd]. rewrite Ascii.eqb_refl. cbn [negb].
  rewrite Hmk. cbn [nonzero].
  match goal with
  | |- context [(?a =? 0)%nat] =>
      destruct (Nat.eqb_spec a 0) as [E|_]; [lia|]
  end.
  do 3 f_equal. lia.
Qed.

Lemma render_head (variables : registry) (e : Expr) :
  (forall t, skipWS (render variables e ++ t) = O)
  /\ (0 < length (render variables e))%nat.
Proof.
  destruct e; split; intros; cbn [render]; try reflexivity;
    try (unfold infix; cbn [length]; lia);
    try (cbn [length lit list_ascii_of_string]; lia).
Qed.

Lemma resolve_registered (variables : registry) (i : nat) :
  NoDup variables -> (length variables <= 32)%nat ->
  (i < length variables)%nat ->
  resolve (nth i variables EmptyString) variables = Ok i variables.
Proof.
  intros Hd Hl Hi.
  destruct (resolve_known (nth i variables EmptyString) variables)
    as (k & Hk & Hlt & Hn & _); [now apply nth_In | exact Hl|].
  rewrite Hk. f_equal.
  apply (proj1 (NoDup_nth variables EmptyString) Hd); assumption.
Qed.

Lemma parse_render (variables : registry) (e : Expr) :
  NoDup variables -> (length variables <= 32)%nat ->
  forall fuel rest,
    writable variables e ->
    (depth e < fuel)%nat ->
    parseExpr fuel (render variables e ++ rest) variables
    = Ok (Some (length (render variables e), e)) variables.
Proof.
  intros Hd Hl.
  assert (binary : forall tok L R p,
             (forall t, skipWS (tok ++ t) = O) ->
             (forall t, scan_op (tok ++ " "%char :: t) = length tok) ->
             make_binary (string_of_list_ascii tok) L R = Some p ->
             (forall fuel rest, writable variables L -> (depth L < fuel)%nat ->
                parseExpr fuel (render variables L ++ rest) variables
                = Ok (Some (length (render variables L), L)) variables) ->
             (forall fuel rest, writable variables R -> (depth R < fuel)%nat ->
                parseExpr fuel (render variables R ++ rest) variables
                = Ok (Some (length (render variables R), R)) variables) ->
             forall fuel rest,
               writable variables L /\ writable variables R ->
               (S (Nat.max (depth L) (depth R)) < S fuel)%nat ->
               parseExpr (S fuel)
                 (infix tok (render variables L) (render variables R) ++ rest)
                 variables
               = Ok (Some (length (infix tok (render variables L)
                                      (render variables R)), p)) variables).
  { intros tok L R p Htok Hscan Hmk IHL IHR fuel rest [HwL HwR] Hdepth.
    apply (parseExpr_infix fuel tok _ _ rest L R p); try assumption.
    - apply render_head.
    - apply render_head.
    - apply render_head.
    - apply render_head.
    - apply IHL; [exact HwL | lia].
    - apply IHR; [exact HwR | lia]. }
  induction e as [| |s|E IH|L IHL R IHR|L IHL R IHR|L IHL R IHR
                 |L IHL R IHR|L IHL R IHR]; intros fuel rest Hw Hdepth;
    (destruct fuel as [|fuel]; [cbn [depth] in Hdepth; lia|]).
  - reflexivity.
  - reflexivity.
  - destruct Hw as [Hs Hname]. cbn [render]. cbn [app].
    rewrite <- app_assoc. cbn [app].
    apply parseExpr_variable.
    pose proof (parseVar_bracketed [] (name_of variables s) [] rest variables
                  eq_refl eq_refl Hname) as Hv.
    cbn [app length] in Hv. rewrite Hv. unfold name_of.
    rewrite string_of_list_ascii_of_string, resolve_registered by
      (try assumption; lia).
    rewrite Z2Nat.id by lia. do 3 f_equal.
    cbn [length]. rewrite length_app. cbn [length]. lia.
  - cbn [render app]. cbn [depth] in Hdepth.
    apply parseExpr_bang. apply IH; [exact Hw | lia].
  - apply (binary (lit "&")); auto.
  - apply (binary (lit "|")); auto.
  - apply (binary (lit "^")); auto.
  - apply (binary (lit "=>")); auto.
  - apply (binary (lit "<=>")); auto.
Qed.

(** X14. What is written in the notation of the header is read back: for a
    registry of distinct names and a tree whose variables are registered
    under names without brackets or white space at their ends, the text
    [render variables e] parses to [e] itself, consuming exactly that text
    whatever follows it and leaving the registry as it is; followed by
    nothing but white space it is a line that [parseTopLevelExpr] accepts
    at its first attempt. *)
Theorem parse_of_render :
  forall (variables : registry) (e : Expr) (fuel : nat) (rest : cstring),
    NoDup variables ->
    (length variables <= 32)%nat ->
    writable variables e ->
    (depth e < fuel)%nat ->
    parseExpr fuel (render variables e ++ rest) variables
    = Ok (Some (length (render variables e), e)) variables
    /\ (blank rest = true ->
        parseTopLevelExpr fuel (render variables e ++ rest) variables
        = Ok (Some e) variables).
Proof.
  intros variables e fuel rest Hd Hl Hw Hdepth.
  pose proof (parse_render variables e Hd Hl fuel rest Hw Hdepth) as H.
  split; [exact H|]. intros Hblank.
  rewrite parseTopLevelExpr_attempts. unfold whole_line at 1. rewrite H.
  rewrite skipn_app_length, Hblank.
  destruct (Nat.eqb_spec (length (render variables e)) 0) as [E|_];
    [|reflexivity].
  pose proof (proj2 (render_head variables e)). lia.
Qed.

Lemma parse_of_render_witness :
  parseExpr 3 (lit "( ![rain] => ( [sun] | F ) ) and more")
    ["sun"; "rain"]%string
  = Ok (Some (28%nat, Implies (Not (Var 1)) (Or (Var 0) FalseE)))
      ["sun"; "rain"]%string.
Proof.
  apply (parse_of_render ["sun"; "rain"]%string
           (Implies (Not (Var 1)) (Or (Var 0) FalseE)) 3 (lit " and more")).
  - repeat constructor; simpl; intuition discriminate.
  - simpl. lia.
  - cbn. repeat split; lia.
  - simpl. lia.
Defined.

(** ** The order of the axioms *)

Lemma forallb_Permutation {A : Type} (f : A -> bool) (l l' : list A) :
  Permutation l l' -> forallb f l = forallb f l'.
Proof.
  induction 1 as [|a l l' _ IH|a b l|l l' l'' _ IH1 _ IH2]; cbn [forallb].
  - reflexivity.
  - now rewrite IH.
  - now rewrite !andb_assoc, (andb_comm (f b)).
  - now rewrite IH1.
Qed.

Lemma counterexample_ext (ps ps' : list Expr) :
  (forall x, model ps x = model ps' x) ->
  theorem ps = theorem ps' ->
  forall x, counterexample ps x = counterexample ps' x.
Proof. intros Hm Ht x. unfold counterexample. now rewrite Hm, Ht. Qed.

Lemma existsb_ext {A : Type} (f g : A -> bool) (l : list A) :
  (forall x, f x = g x) -> existsb f l = existsb g l.
Proof.
  intros H. induction l as [|a l IH]; [reflexivity|].
  cbn [existsb]. now rewrite H, IH.
Qed.

(** Two lists of propositions with the same models and the same theorem
    are checked alike. *)
Lemma check_ext (wbits : Z) (variables : registry) (ps ps' : list Expr)
  (fuel : nat) (r : run) :
  32 <= wbits ->
  (forall x, model ps x = model ps' x) ->
  theorem ps = theorem ps' ->
  check wbits fuel variables ps = Some r ->
  exists fuel' r',
    check wbits fuel' variables ps' = Some r'
    /\ output r' = output r
    /\ exit_code r' = exit_code r
    /\ map assignment (trace r') = map assignment (trace r).
Proof.
  intros Hw Hm Ht Hr.
  pose proof (counterexample_ext ps ps' Hm Ht) as Hc.
  destruct (check_cases wbits Hw variables ps)
    as [(x0 & Hx0 & Hc0 & Hleast & Hrun)
       |[(Hno & Hlt & Hrun)|(_ & _ & Hnone)]].
  - rewrite (check_deterministic wbits variables ps _ _ _ _ Hr (Hrun O)).
    destruct (check_cases wbits Hw variables ps')
      as [(x1 & Hx1 & Hc1 & Hleast1 & Hrun1)
         |[(Hno1 & _)|(Hno1 & _)]].
    + assert (x1 = x0).
      { destruct (Z.lt_trichotomy x1 x0) as [H|[H|H]]; [|exact H|].
        - rewrite <- Hc, Hleast in Hc1 by lia. discriminate.
        - rewrite Hc, Hleast1 in Hc0 by lia. discriminate. }
      subst x1. eexists. eexists. split; [apply (Hrun1 O)|].
      cbn [output exit_code trace]. rewrite !visits_assignments.
      repeat split.
    + rewrite Hc, Hno1 in Hc0 by lia. discriminate.
    + rewrite Hc, Hno1 in Hc0 by lia. discriminate.
  - rewrite (check_deterministic wbits variables ps _ _ _ _ Hr (Hrun O)).
    destruct (check_cases wbits Hw variables ps')
      as [(x1 & Hx1 & Hc1 & _)
         |[(_ & _ & Hrun1)|(_ & Hmax & _)]].
    + rewrite <- Hc, Hno in Hc1 by lia. discriminate.
    + eexists. eexists. split; [apply (Hrun1 O)|].
      cbn [output exit_code trace]. rewrite !visits_assignments.
      rewrite (existsb_ext (model ps') (model ps)) by (intros; now rewrite Hm).
      repeat split.
    + lia.
  - rewrite Hnone in Hr. discriminate.
Qed.

(** X15. The verdict does not depend on the order of the axioms: for the
    same registry and theorem, a check that returns for one order of the
    axioms returns for any other order with the same output and exit code,
    after visiting the same assignments. *)
Theorem verdict_ignores_axiom_order :
  forall (wbits : Z) (variables : registry) (axioms1 axioms2 : list Expr)
         (goal : Expr) (fuel : nat) (r : run),
    32 <= wbits ->
    Permutation axioms1 axioms2 ->
    check wbits fuel variables (axioms1 ++ [goal]) = Some r ->
    exists fuel' r',
      check wbits fuel' variables (axioms2 ++ [goal]) = Some r'
      /\ output r' = output r
      /\ exit_code r' = exit_code r
      /\ map assignment (trace r') = map assignment (trace r).
Proof.
  intros wbits variables axioms1 axioms2 goal fuel r Hw Hperm Hr.
  apply (check_ext wbits variables (axioms1 ++ [goal]) (axioms2 ++ [goal])
           fuel r Hw); [| |exact Hr].
  - intros x. unfold model, axioms. rewrite !removelast_last.
    now apply forallb_Permutation.
  - unfold theorem. now rewrite !last_last.
Qed.

Lemma verdict_ignores_axiom_order_witness :
  exists fuel' r',
    check 64 fuel' ["A"; "B"]%string
      ([Implies (Var 0) (Var 1); Var 0] ++ [Var 1]) = Some r'
    /\ output r' = [TheoremVerified]
    /\ exit_code r' = 0
    /\ map assignment (trace r') = [0; 1; 2; 3].
Proof.
  apply (verdict_ignores_axiom_order 64 ["A"; "B"]%string
           [Var 0; Implies (Var 0) (Var 1)] [Implies (Var 0) (Var 1); Var 0]
           (Var 1) 5
           (Run [Visit 0 1 false; Visit 1 2 false; Visit 2 1 false;
                 Visit 3 2 true] [TheoremVerified] 0)).
  - lia.
  - apply perm_swap.
  - reflexivity.
Defined.

(** ** Indentation *)

Lemma parseExpr_indent (fuel : nat) (c : ascii) (s : cstring)
  (variables : registry) :
  isspace c = true ->
  parseExpr fuel (c :: s) variables
  = match parseExpr fuel s variables with
    | Ok (Some (n, p)) variables' => Ok (Some (S n, p)) variables'
    | Ok None variables' => Ok None variables'
    | Exit code => Exit code
    | OutOfFuel => OutOfFuel
    end.
Proof.
  intros Hc. destruct fuel as [|fuel]; [reflexivity|].
  rewrite !parseExpr_S. cbv zeta. cbn [skipWS]. rewrite Hc. cbn [skipn].
  set (e := skipn (skipWS s) s).
  destruct (nonzero (parseTrue e)) as [[m q]|]; [reflexivity|].
  destruct (nonzero (parseFalse e)) as [[m q]|]; [reflexivity|].
  destruct (parseVar e variables) as [r1 vs1| |]; try reflexivity.
  destruct (nonzero r1) as [[m q]|]; [reflexivity|].
  destruct (parseNot_with _ e vs1) as [r2 vs2| |]; try reflexivity.
  destruct (nonzero r2) as [[m q]|]; [reflexivity|].
  destruct (parseBinaryExpr_with _ e vs2) as [r3 vs3| |]; try reflexivity.
  destruct (nonzero r3) as [[m q]|]; reflexivity.
Qed.

Lemma parseBinaryExpr_indent (parseExpr : parser) (c : ascii) (t : cstring)
  (variables : registry) :
  isspace c = true ->
  parseBinaryExpr_with parseExpr ("("%char :: c :: t) variables
  = match parseBinaryExpr_with parseExpr ("("%char :: t) variables with
    | Ok (Some (n, p)) variables' => Ok (Some (S n, p)) variables'
    | Ok None variables' => Ok None variables'
    | Exit code => Exit code
    | OutOfFuel => OutOfFuel
    end.
Proof.
  intros Hc. unfold parseBinaryExpr_with. cbv zeta.
  change (skipWS ("("%char :: c :: t)) with O.
  change (skipWS ("("%char :: t)) with O.
  cbn [skipn deref hd tl Ascii.eqb Bool.eqb negb Nat.add].
  rewrite (skipWS_cons_space c t Hc). cbn [skipn].
  set (e2 := skipn (skipWS t) t).
  destruct (parseExpr e2 variables) as [rL vs1| |]; try reflexivity.
  destruct (nonzero rL) as [[nL L]|]; [|reflexivity].
  destruct (parseExpr _ vs1) as [rR vs2| |]; try reflexivity.
  destruct (nonzero rR) as [[nR R]|]; [|reflexivity].
  match goal with |- context [if ?b then _ else _] => destruct b end;
    [reflexivity|].
  destruct (make_binary _ L R) as [p|]; reflexivity.
Qed.

Lemma parseBinaryExpr_positive (parseExpr : parser) (s : cstring)
  (variables variables' : registry) (n : nat) (p : Expr) :
  parseBinaryExpr_with parseExpr s variables = Ok (Some (n, p)) variables' ->
  (0 < n)%nat.
Proof.
  unfold parseBinaryExpr_with. cbv zeta.
  destruct (negb _); [discriminate|].
  destruct (parseExpr _ variables) as [rL vs1| |]; try discriminate.
  destruct (nonzero rL) as [[nL L]|]; [|discriminate].
  destruct (parseExpr _ vs1) as [rR vs2| |]; try discriminate.
  destruct (nonzero rR) as [[nR R]|]; [|discriminate].
  destruct (negb _); [discriminate|].
  destruct (make_binary _ L R) as [q|]; [|discriminate].
  intros [= <- _ _]. lia.
Qed.

Lemma parseExpr_paren_indent (fuel : nat) (c : ascii) (t : cstring)
  (variables : registry) :
  isspace c = true ->
  parseExpr fuel ("("%char :: c :: t) variables
  = match parseExpr fuel ("("%char :: t) variables with
    | Ok (Some (n, p)) variables' => Ok (Some (S n, p)) variables'
    | Ok None variables' => Ok None variables'
    | Exit code => Exit code
    | OutOfFuel => OutOfFuel
    end.
Proof.
  intros Hc. destruct fuel as [|fuel]; [reflexivity|].
  rewrite !parseExpr_paren, (parseBinaryExpr_indent _ c t variables Hc).
  destruct (parseBinaryExpr_with _ _ variables) as [[[n p]|] vs| |] eqn:E;
    try reflexivity.
  pose proof (parseBinaryExpr_positive _ _ _ _ _ _ E) as Hn.
  destruct n as [|n]; [lia | reflexivity].
Qed.

Lemma isspace_not_slash (c : ascii) :
  isspace c = true -> Ascii.eqb c "/" = false.
Proof.
  intros H.
  destruct (Ascii.eqb_spec c "/") as [->|]; [discriminate|reflexivity].
Qed.

Lemma whole_line_indent (fuel : nat) (c : ascii) (s : cstring)
  (variables : registry) :
  isspace c = true ->
  whole_line fuel (c :: s) variables = whole_line fuel s variables.
Proof.
  intros Hc. unfold whole_line. rewrite (parseExpr_indent fuel c s _ Hc).
  destruct (parseExpr fuel s variables) as [[[n p]|] vs| |] eqn:E;
    try reflexivity.
  pose proof (parseExpr_good _ _ _ _ _ E n p eq_refl) as [Hn _].
  cbn [skipn Nat.eqb negb andb].
  destruct (Nat.eqb_spec n 0); [lia | reflexivity].
Qed.

Lemma whole_line_parenthesized_indent (fuel : nat) (c : ascii) (s : cstring)
  (variables : registry) :
  isspace c = true ->
  whole_line fuel (parenthesized (c :: s)) variables
  = whole_line fuel (parenthesized s) variables.
Proof.
  intros Hc. unfold parenthesized. cbn [c_str].
  rewrite (isspace_not_NUL c Hc).
  change (lit "(" ++ (c :: c_str s) ++ lit ")")
    with ("("%char :: c :: (c_str s ++ lit ")")).
  change (lit "(" ++ c_str s ++ lit ")")
    with ("("%char :: (c_str s ++ lit ")")).
  unfold whole_line. rewrite (parseExpr_paren_indent fuel c _ _ Hc).
  destruct (parseExpr fuel _ variables) as [[[n p]|] vs| |] eqn:E;
    try reflexivity.
  pose proof (parseExpr_good _ _ _ _ _ E n p eq_refl) as [Hn _].
  destruct n as [|n]; [lia|]. reflexivity.
Qed.

Lemma parseTopLevelExpr_more_fuel (fuel extra : nat) (line : cstring)
  (variables : registry) :
  (2 + length line < fuel)%nat ->
  parseTopLevelExpr (extra + fuel) line variables
  = parseTopLevelExpr fuel line variables.
Proof.
  intros Hfuel.
  rewrite !parseTopLevelExpr_attempts, whole_line_more_fuel by lia.
  destruct (whole_line fuel line variables) as [[p|] vs1| |];
    try reflexivity.
  apply whole_line_more_fuel. pose proof (parenthesized_length line). lia.
Qed.

Lemma parseTopLevelExpr_indent (fuel : nat) (c : ascii) (line : cstring)
  (variables : registry) :
  isspace c = true ->
  parseTopLevelExpr fuel (c :: line) variables
  = parseTopLevelExpr fuel line variables.
Proof.
  intros Hc.
  rewrite !parseTopLevelExpr_attempts, (whole_line_indent _ _ _ _ Hc).
  destruct (whole_line fuel line variables) as [[p|] vs1| |];
    try reflexivity.
  now apply whole_line_parenthesized_indent.
Qed.

Lemma read_lines_indent (c : ascii) (line : cstring) (rest : list cstring)
  (linenum : nat) (variables : registry) (propositions : list Expr) :
  isspace c = true ->
  Ascii.eqb (deref line) "/" && Ascii.eqb (deref (tl line)) "/" = false ->
  read_lines ((c :: line) :: rest) linenum variables propositions
  = read_lines (line :: rest) linenum variables propositions.
Proof.
  intros Hc Hcomment. cbn [read_lines]. rewrite Hcomment.
  cbn [deref hd tl]. rewrite (isspace_not_slash c Hc). cbn [andb].
  rewrite (skipWS_cons_space c line Hc). cbn [skipn].
  destruct (Ascii.eqb (deref (skipn (skipWS line) line)) NUL) eqn:Hblank;
    [reflexivity|].
  rewrite (parseTopLevelExpr_indent _ c line variables Hc).
  cbn [length].
  change (3 + S (length line))%nat with (1 + (3 + length line))%nat.
  rewrite parseTopLevelExpr_more_fuel by lia. reflexivity.
Qed.

Lemma read_lines_indent_at (before : list cstring) (c : ascii)
  (line : cstring) (after : list cstring) :
  isspace c = true ->
  comment line = false ->
  forall linenum variables propositions,
    read_lines (before ++ (c :: line) :: after) linenum variables propositions
    = read_lines (before ++ line :: after) linenum variables propositions.
Proof.
  intros Hc Hcomment.
  induction before as [|l before IH]; intros linenum variables propositions.
  - now apply read_lines_indent.
  - cbn [app read_lines]. rewrite !IH.
    destruct (parseTopLevelExpr _ l variables) as [[p|] vs| |];
      try reflexivity.
    now rewrite IH.
Qed.

(** A last buffer of white space is skipped, and the loop ends. *)
Lemma read_lines_blank_end (before : list cstring) (c : ascii) :
  isspace c = true ->
  forall linenum variables propositions,
    read_lines (before ++ [[c]]) linenum variables propositions
    = read_lines before linenum variables propositions.
Proof.
  intros Hc.
  induction before as [|l before IH]; intros linenum variables propositions.
  - cbn [app read_lines deref hd tl]. rewrite (isspace_not_slash c Hc).
    cbn [andb]. rewrite (skipWS_cons_space c [] Hc). reflexivity.
  - cbn [app read_lines]. rewrite !IH.
    destruct (parseTopLevelExpr _ l variables) as [[p|] vs| |];
      try reflexivity.
    now rewrite IH.
Qed.

(** *** What [fgets] delivers *)

Lemma LINE_SIZE_chars : (0 < LINE_SIZE - 1)%nat.
Proof. apply Nat.ltb_lt. vm_compute. reflexivity. Qed.

Lemma fgets_cons (size : nat) (c : ascii) (stream : list ascii) :
  fgets size (c :: stream) = Some (fgets_chars (size - 1) (c :: stream)).
Proof. reflexivity. Qed.

Lemma fgets_chars_split (n : nat) :
  forall stream, stream = fst (fgets_chars n stream)
                          ++ snd (fgets_chars n stream).
Proof.
  induction n as [|n IH]; intros [|c stream]; try reflexivity.
  cbn [fgets_chars]. destruct (Ascii.eqb c newline); [reflexivity|].
  specialize (IH stream). destruct (fgets_chars n stream) as [l r].
  cbn [fst snd app] in *. now rewrite <- IH.
Qed.

Lemma fgets_chars_shorter (n : nat) (c : ascii) (stream : list ascii) :
  (0 < n)%nat ->
  (length (snd (fgets_chars n (c :: stream))) <= length stream)%nat.
Proof.
  intros Hn. destruct n as [|n]; [lia|].
  pose proof (fgets_chars_split n stream) as H.
  apply (f_equal (@length ascii)) in H. rewrite length_app in H.
  cbn [fgets_chars]. destruct (Ascii.eqb c newline); [cbn [snd]; lia|].
  destruct (fgets_chars n stream) as [l r]. cbn [fst snd] in *. lia.
Qed.

(** A line with its newline, when the buffer has room for both. *)
Lemma fgets_chars_line (n : nat) :
  forall line after,
    no_newline line = true ->
    (length line < n)%nat ->
    fgets_chars n (line ++ newline :: after) = (line ++ [newline], after).
Proof.
  induction n as [|n IH]; intros line after Hline Hn; [lia|].
  destruct line as [|c line].
  - cbn [app fgets_chars]. now rewrite Ascii.eqb_refl.
  - cbn [no_newline forallb] in Hline. apply andb_prop in Hline.
    destruct Hline as [Hc Hline]. apply negb_true_iff in Hc.
    cbn [app fgets_chars length] in *. rewrite Hc.
    rewrite (IH line after Hline) by lia. reflexivity.
Qed.

(** A last line without newline. *)
Lemma fgets_chars_last (n : nat) :
  forall line,
    no_newline line = true ->
    (length line <= n)%nat ->
    fgets_chars n line = (line, []).
Proof.
  induction n as [|n IH]; intros [|c line] Hline Hn; try reflexivity.
  - cbn [length] in Hn. lia.
  - cbn [no_newline forallb] in Hline. apply andb_prop in Hline.
    destruct Hline as [Hc Hline]. apply negb_true_iff in Hc.
    cbn [fgets_chars length] in *. rewrite Hc.
    rewrite (IH line Hline) by lia. reflexivity.
Qed.

(** What follows the end of a line is left in the stream. *)
Lemma fgets_chars_app (n : nat) :
  forall stream more,
    stream <> [] ->
    last stream newline = newline ->
    fgets_chars n (stream ++ more)
    = (fst (fgets_chars n stream), snd (fgets_chars n stream) ++ more).
Proof.
  induction n as [|n IH]; intros stream more Hne Hlast.
  - destruct stream; [contradiction | reflexivity].
  - destruct stream as [|c stream]; [contradiction|].
    cbn [app fgets_chars].
    destruct (Ascii.eqb_spec c newline) as [->|Hc]; [reflexivity|].
    assert (Hne' : stream <> []).
    { intros ->. cbn [last] in Hlast. contradiction. }
    assert (Hlast' : last stream newline = newline).
    { destruct stream; [contradiction | exact Hlast]. }
    rewrite (IH stream more Hne' Hlast').
    destruct (fgets_chars n stream) as [l r]. reflexivity.
Qed.

Lemma last_app_cons {A : Type} (l : list A) (c : A) (r : list A) (d : A) :
  last (l ++ c :: r) d = last (c :: r) d.
Proof.
  induction l as [|a l IH]; [reflexivity|].
  cbn [app]. rewrite <- IH. destruct (l ++ c :: r) eqn:E; [|reflexivity].
  destruct l; discriminate.
Qed.

Lemma fgets_chars_rest_last (n : nat) (stream : list ascii) :
  last stream newline = newline ->
  last (snd (fgets_chars n stream)) newline = newline.
Proof.
  intros Hlast. pose proof (fgets_chars_split n stream) as H.
  destruct (fgets_chars n stream) as [l r]. cbn [fst snd] in *.
  destruct r as [|c r]; [reflexivity|].
  rewrite H, last_app_cons in Hlast. exact Hlast.
Qed.

(** The loop over the file has fuel enough with one unit per character. *)
Lemma fgets_loop_fuel (fuel : nat) :
  forall fuel' stream,
    (length stream <= fuel)%nat ->
    (length stream <= fuel')%nat ->
    fgets_loop fuel stream = fgets_loop fuel' stream.
Proof.
  induction fuel as [|fuel IH]; intros fuel' [|c stream] H H';
    cbn [length] in *; try lia.
  - destruct fuel'; reflexivity.
  - destruct fuel'; reflexivity.
  - destruct fuel' as [|fuel']; [lia|].
    cbn [fgets_loop]. rewrite fgets_cons.
    pose proof (fgets_chars_shorter (LINE_SIZE - 1) c stream LINE_SIZE_chars)
      as Hshort.
    destruct (fgets_chars (LINE_SIZE - 1) (c :: stream)) as [l r].
    cbn [snd] in Hshort. f_equal. apply IH; lia.
Qed.

Lemma fgets_lines_fuel (fuel : nat) (contents : list ascii) :
  (length contents <= fuel)%nat ->
  fgets_loop fuel contents = fgets_lines contents.
Proof. intros H. now apply fgets_loop_fuel. Qed.

(** The loop goes through the whole file: the buffers, one after the
    other, are its contents. *)
Lemma fgets_lines_concat (contents : list ascii) :
  concat (fgets_lines contents) = contents.
Proof.
  unfold fgets_lines.
  assert (H : forall fuel stream,
             (length stream <= fuel)%nat ->
             concat (fgets_loop fuel stream) = stream).
  { induction fuel as [|fuel IH]; intros [|c stream] Hlen;
      cbn [length] in *; try lia; try reflexivity.
    cbn [fgets_loop]. rewrite fgets_cons.
    pose proof (fgets_chars_shorter (LINE_SIZE - 1) c stream LINE_SIZE_chars)
      as Hshort.
    pose proof (fgets_chars_split (LINE_SIZE - 1) (c :: stream)) as Hsplit.
    destruct (fgets_chars (LINE_SIZE - 1) (c :: stream)) as [l r].
    cbn [fst snd] in *. cbn [concat]. rewrite IH by lia. now symmetry. }
  now apply H.
Qed.

(** The buffers of a file that continues after the end of a line. *)
Lemma fgets_loop_app (fuel : nat) :
  forall before more,
    (length before <= fuel)%nat ->
    last before newline = newline ->
    fgets_lines (before ++ more) = fgets_loop fuel before ++ fgets_lines more.
Proof.
  induction fuel as [|fuel IH]; intros [|c before] more Hlen Hlast;
    cbn [length] in *; try lia; try reflexivity.
  unfold fgets_lines at 1. cbn [app length fgets_loop].
  rewrite !fgets_cons.
  change (c :: before ++ more) with ((c :: before) ++ more).
  rewrite fgets_chars_app by (discriminate || exact Hlast).
  pose proof (fgets_chars_shorter (LINE_SIZE - 1) c before LINE_SIZE_chars)
    as Hshort.
  pose proof (fgets_chars_rest_last (LINE_SIZE - 1) (c :: before) Hlast)
    as Hrest.
  destruct (fgets_chars (LINE_SIZE - 1) (c :: before)) as [l r].
  cbn [fst snd] in *. cbn [app]. f_equal.
  rewrite <- (IH r more) by (lia || exact Hrest).
  apply fgets_lines_fuel. rewrite !length_app. lia.
Qed.

Lemma fgets_lines_app (before more : list ascii) :
  last before newline = newline ->
  fgets_lines (before ++ more) = fgets_lines before ++ fgets_lines more.
Proof.
  intros H. unfold fgets_lines at 2. now apply fgets_loop_app.
Qed.

Lemma fgets_lines_line (line after : list ascii) :
  no_newline line = true ->
  (length line < LINE_SIZE - 1)%nat ->
  fgets_lines (line ++ newline :: after)
  = (line ++ [newline]) :: fgets_lines after.
Proof.
  intros Hline Hlen. unfold fgets_lines at 1.
  destruct (line ++ newline :: after) as [|c stream] eqn:E.
  { destruct line; discriminate. }
  cbn [length fgets_loop]. rewrite fgets_cons, <- E.
  rewrite (fgets_chars_line _ line after Hline Hlen). f_equal.
  apply fgets_lines_fuel.
  apply (f_equal (@length ascii)) in E.
  rewrite length_app in E. cbn [length] in E. lia.
Qed.

Lemma fgets_lines_last (line : list ascii) :
  no_newline line = true ->
  line <> [] ->
  (length line <= LINE_SIZE - 1)%nat ->
  fgets_lines line = [line].
Proof.
  intros Hline Hne Hlen. unfold fgets_lines.
  destruct line as [|c line]; [contradiction|].
  cbn [length fgets_loop]. rewrite fgets_cons.
  rewrite (fgets_chars_last _ (c :: line) Hline Hlen).
  destruct (length line); reflexivity.
Qed.

Lemma comment_with_newline (line : cstring) :
  comment line = false -> comment (line ++ [newline]) = false.
Proof.
  unfold comment. destruct line as [|a [|b line]]; intros H;
    [reflexivity | | exact H].
  cbn [app deref hd tl] in *. apply andb_false_intro2. reflexivity.
Qed.

(** X16. A line that is not a comment may be indented. One character of
    white space other than the newline, put into the file before a line
    of it, changes neither what [main] prints nor the code it returns,
    when the line with the character and the newline still fits the
    buffer of [fgets]. The line begins the file or follows a newline, has
    no newline inside, and ends the file or ends with a newline; the two
    files are opened under the same name. *)
Theorem indentation_is_ignored :
  forall (wbits : Z) (fuel : nat) (argv : list string)
         (fopen fopen' : string -> option (list ascii))
         (before : list ascii) (c : ascii) (line rest : list ascii),
    isspace c = true ->
    c <> newline ->
    last before newline = newline ->
    no_newline line = true ->
    (length line + 2 < LINE_SIZE)%nat ->
    (rest = [] \/ exists after, rest = newline :: after) ->
    comment line = false ->
    fopen (nth 1 argv EmptyString) = Some (before ++ line ++ rest) ->
    fopen' (nth 1 argv EmptyString) = Some (before ++ c :: line ++ rest) ->
    propcheck wbits fuel argv fopen' = propcheck wbits fuel argv fopen.
Proof.
  intros wbits fuel argv fopen fopen' before c line rest
    Hc Hnl Hbefore Hline Hlen Hrest Hcomment Hf Hf'.
  unfold propcheck. rewrite Hf, Hf'.
  destruct (length argv <? 2)%nat; [reflexivity|].
  assert (Hcline : no_newline (c :: line) = true).
  { cbn [no_newline forallb]. fold (no_newline line). rewrite Hline.
    destruct (Ascii.eqb_spec c newline); [contradiction | reflexivity]. }
  assert (H : forall linenum variables propositions,
             read_lines (fgets_lines (before ++ c :: line ++ rest)) linenum
               variables propositions
             = read_lines (fgets_lines (before ++ line ++ rest)) linenum
                 variables propositions).
  { intros linenum variables propositions.
    rewrite !(fgets_lines_app before) by exact Hbefore.
    destruct Hrest as [->|(after & ->)].
    - rewrite !app_nil_r. destruct line as [|a line].
      + rewrite (fgets_lines_last [c] Hcline) by (discriminate || cbn; lia).
        change (fgets_lines []) with (@nil cstring). rewrite app_nil_r.
        now apply read_lines_blank_end.
      + rewrite (fgets_lines_last (c :: a :: line) Hcline)
          by (discriminate || cbn [length] in *; lia).
        rewrite (fgets_lines_last (a :: line) Hline)
          by (discriminate || cbn [length] in *; lia).
        now apply read_lines_indent_at.
    - change (c :: line ++ newline :: after)
        with ((c :: line) ++ newline :: after).
      rewrite (fgets_lines_line (c :: line) after Hcline)
        by (cbn [length]; lia).
      rewrite (fgets_lines_line line after Hline) by lia.
      apply (read_lines_indent_at _ c (line ++ [newline])); [exact Hc|].
      now apply comment_with_newline. }
  unfold main. now rewrite H.
Qed.

Lemma indentation_is_ignored_witness :
  propcheck 64 8 ["propcheck"; "theory.txt"]%string
    (fun _ =>
       Some ((lit "[A]" ++ [newline]) ++ " "%char :: lit "[A] or [B]" ++ []))
  = propcheck 64 8 ["propcheck"; "theory.txt"]%string
      (fun _ => Some ((lit "[A]" ++ [newline]) ++ lit "[A] or [B]" ++ [])).
Proof.
  apply (indentation_is_ignored 64 8 ["propcheck"; "theory.txt"]%string
           (fun _ => Some ((lit "[A]" ++ [newline]) ++ lit "[A] or [B]" ++ []))
           (fun _ =>
              Some ((lit "[A]" ++ [newline])
                    ++ " "%char :: lit "[A] or [B]" ++ []))
           (lit "[A]" ++ [newline]) " "%char (lit "[A] or [B]") []).
  - reflexivity.
  - discriminate.
  - reflexivity.
  - reflexivity.
  - apply Nat.ltb_lt. vm_compute. reflexivity.
  - now left.
  - reflexivity.
  - reflexivity.
  - reflexivity.
Defined.
